(** * Certificate provisioning of the Flipper desktop host

    A shallow embedding of the two [CertificateProvider] classes

      - [desktop/app/src/server/utils/CertificateProvider.tsx]  (module [Server])
      - [desktop/app/src/utils/CertificateProvider.tsx]         (module [Legacy])

    with what their texts share in module [Common].

    JavaScript strings are sequences of UTF-16 code units ([list N]), and the
    regular expressions of the source are run by a backtracking matcher
    (module [Regex]). Promises are computations in a state-and-error monad
    (module [Promise]) over the outside world: the file system, the OpenSSL
    wrapper, adb, idb, the uuid generator, the archiver and the upload
    endpoint. The world is abstract: every collaborator is an oracle on it
    (record [Collab]), and every call that leaves the provider is recorded
    in a trace, in the order of the calls. Module [Lab] is one concrete
    world, on which the providers run by computation.

    The definitions come first, the properties after them. *)

From Stdlib Require Import String Ascii.
From Stdlib Require Import List NArith ZArith Bool Lia.
Import ListNotations.
Local Open Scope list_scope.

Set Implicit Arguments.

(** ** JavaScript strings *)

Module JS.

Definition jsstring := list N.

(** A string literal of the source, as code units. *)
Definition js (s : string) : jsstring :=
  map N_of_ascii (list_ascii_of_string s).

Definition str_eqb (a b : jsstring) : bool :=
  if list_eq_dec N.eq_dec a b then true else false.

(** ECMAScript LineTerminator: LF, CR, LS, PS. *)
Definition isLineTerminator (c : N) : bool :=
  ((c =? 10) || (c =? 13) || (c =? 8232) || (c =? 8233))%N.

(** ECMAScript WhiteSpace: TAB, VT, FF, SP, NBSP, ZWNBSP and the space
    separators U+1680, U+2000..U+200A, U+202F, U+205F, U+3000. *)
Definition isWhiteSpace (c : N) : bool :=
  ((c =? 9) || (c =? 11) || (c =? 12) || (c =? 32) || (c =? 160)
   || (c =? 5760) || ((8192 <=? c) && (c <=? 8202))
   || (c =? 8239) || (c =? 8287) || (c =? 12288) || (c =? 65279))%N.

(** What [String.prototype.trim] strips and what [\s] matches. *)
Definition isTrimmable (c : N) : bool := isWhiteSpace c || isLineTerminator c.

Fixpoint dropWhile (p : N -> bool) (s : jsstring) : jsstring :=
  match s with
  | [] => []
  | c :: t => if p c then dropWhile p t else s
  end.

Definition trimStart (s : jsstring) : jsstring := dropWhile isTrimmable s.
Definition trimEnd (s : jsstring) : jsstring := rev (dropWhile isTrimmable (rev s)).

(** [String.prototype.trim] *)
Definition trim (s : jsstring) : jsstring := trimEnd (trimStart s).

(** [s.replace(/\r/g, '')] *)
Definition CR : N := 13%N.
Definition removeCR (s : jsstring) : jsstring :=
  filter (fun c => negb (c =? CR)%N) s.

Definition noCR (c : N) : bool := negb (c =? CR)%N.

(** [s.split(sep)] for a one-unit separator. *)
Fixpoint split_on (sep : N) (s : jsstring) : list jsstring :=
  match s with
  | [] => [[]]
  | c :: t =>
      if (c =? sep)%N then [] :: split_on sep t
      else match split_on sep t with
           | [] => [[c]]
           | h :: r => (c :: h) :: r
           end
  end.

End JS.
Import JS.

(** ** Regular expressions

    A backtracking matcher for the fragment of ECMAScript regular expressions
    the providers use (no flags): classes, [.], sequence, greedy [?] [*] [+],
    capturing groups, [^] and [$]. Matching is on code units. *)

Module Regex.

Inductive citem : Type :=
| CChar (c : N)          (* a literal unit *)
| CWord                  (* \w *)
| CSpace.                (* \s *)

Definition isWordChar (c : N) : bool :=
  (((48 <=? c) && (c <=? 57)) || ((65 <=? c) && (c <=? 90))
   || ((97 <=? c) && (c <=? 122)) || (c =? 95))%N.

Definition in_item (i : citem) (c : N) : bool :=
  match i with
  | CChar d => (c =? d)%N
  | CWord => isWordChar c
  | CSpace => isTrimmable c
  end.

Definition in_items (items : list citem) (c : N) : bool :=
  existsb (fun i => in_item i c) items.

Inductive regex : Type :=
| Eps                              (* the empty pattern *)
| Set_ (items : list citem)        (* [...] or a single atom *)
| NotSet (items : list citem)      (* [^...] *)
| Dot                              (* . *)
| Seq (r1 r2 : regex)
| Opt (r : regex)                  (* r? *)
| Star (r : regex)                 (* r* *)
| Group (i : nat) (r : regex)      (* the i-th capturing ( r ) *)
| Bol                              (* ^ *)
| Eol.                             (* $ *)

Definition Plus (r : regex) : regex := Seq r (Star r).
Definition Chr (c : N) : regex := Set_ [CChar c].

(** A literal such as [CN=]. *)
Fixpoint Lit (s : jsstring) : regex :=
  match s with
  | [] => Eps
  | c :: t => Seq (Chr c) (Lit t)
  end.

Definition caps := list (nat * jsstring).

Fixpoint cap_get (i : nat) (c : caps) : option jsstring :=
  match c with
  | [] => None
  | (j, v) :: t => if Nat.eqb i j then Some v else cap_get i t
  end.

Section Matcher.
Variable X : Type.

Definition cont := jsstring -> caps -> option X.
Definition matcher := jsstring -> caps -> cont -> option X.

Definition one (p : N -> bool) : matcher :=
  fun rest c k =>
    match rest with
    | x :: t => if p x then k t c else None
    | [] => None
    end.

(** Greedy iteration; an iteration that consumes nothing is rejected, as
    in the RepeatMatcher of the language specification. *)
Fixpoint star_loop (fuel : nat) (step : matcher) : matcher :=
  fun rest c k =>
    match fuel with
    | O => k rest c
    | S f =>
        match step rest c
                (fun rest' c' =>
                   if Nat.ltb (length rest') (length rest)
                   then star_loop f step rest' c' k else None) with
        | Some x => Some x
        | None => k rest c
        end
    end.

(** [n] is the length of the whole input, for [^]. *)
Fixpoint rmatch (n : nat) (r : regex) : matcher :=
  fun rest c k =>
    match r with
    | Eps => k rest c
    | Set_ items => one (in_items items) rest c k
    | NotSet items => one (fun x => negb (in_items items x)) rest c k
    | Dot => one (fun x => negb (isLineTerminator x)) rest c k
    | Seq r1 r2 => rmatch n r1 rest c (fun rest' c' => rmatch n r2 rest' c' k)
    | Opt r1 =>
        match rmatch n r1 rest c k with
        | Some x => Some x
        | None => k rest c
        end
    | Star r1 => star_loop (S (length rest)) (rmatch n r1) rest c k
    | Group i r1 =>
        rmatch n r1 rest c
          (fun rest' c' =>
             k rest' ((i, firstn (length rest - length rest') rest) :: c'))
    | Bol => if Nat.eqb (length rest) n then k rest c else None
    | Eol => match rest with [] => k rest c | _ => None end
    end.
End Matcher.

(** The array returned by [exec]/[match]: the matched text and the groups
    ([None] for a group that did not take part, [undefined] in the source). *)
Record match_array : Type := MatchArray {
  matched : jsstring;
  groups : list (option jsstring)
}.

Fixpoint ngroups (r : regex) : nat :=
  match r with
  | Seq a b => ngroups a + ngroups b
  | Opt a | Star a => ngroups a
  | Group _ a => S (ngroups a)
  | _ => 0
  end.

(** [matches.length] *)
Definition match_length (m : match_array) : nat := S (length (groups m)).

(** [matches[i]] for [i >= 1] *)
Definition match_group (i : nat) (m : match_array) : option jsstring :=
  match nth_error (groups m) (i - 1) with
  | Some g => g
  | None => None
  end.

Fixpoint exec_from (n : nat) (r : regex) (rest : jsstring) : option match_array :=
  match rmatch n r rest [] (fun rest' c => Some (rest', c)) with
  | Some (rest', c) =>
      Some (MatchArray (firstn (length rest - length rest') rest)
              (map (fun i => cap_get i c) (seq 1 (ngroups r))))
  | None =>
      match rest with
      | [] => None
      | _ :: t => exec_from n r t
      end
  end.

(** [r.exec(s)], [s.match(r)] *)
Definition regex_exec (r : regex) (s : jsstring) : option match_array :=
  exec_from (length s) r s.

Definition regex_test (r : regex) (s : jsstring) : bool :=
  match regex_exec r s with Some _ => true | None => false end.

End Regex.
Import Regex.

(** ** Constants of the two providers *)

Definition csrFileName : jsstring := js "app.csr".
Definition deviceCAcertFile : jsstring := js "sonarCA.crt".
Definition deviceClientCertFile : jsstring := js "device.crt".
Definition caSubject : jsstring := js "/C=US/ST=CA/L=Menlo Park/O=Sonar/CN=SonarCA".
Definition serverSubject : jsstring := js "/C=US/ST=CA/L=Menlo Park/O=Sonar/CN=localhost".
Definition minCertExpiryWindowSeconds : Z := (24 * 60 * 60)%Z.
Definition logTag : jsstring := js "CertificateProvider".

Definition ch (s : string) : N :=
  match s with
  | String a _ => N_of_ascii a
  | EmptyString => 0%N
  end.

(** [x509SubjectCNRegex]: one of [=,], then [\s*], then [CN=], then group 1
    [[^,]*], then optionally group 2 (a comma and [.*]), then [$]. *)
Definition x509SubjectCNRegex : regex :=
  Seq (Set_ [CChar (ch "="); CChar (ch ",")])
    (Seq (Star (Set_ [CSpace]))
       (Seq (Lit (js "CN="))
          (Seq (Group 1 (Star (NotSet [CChar (ch ",")])))
             (Seq (Opt (Group 2 (Seq (Chr (ch ",")) (Star Dot))))
                Eol)))).

(** The pattern of [getRelativePathInAppContainer]: [Application/], then
    [[^/]+], then [/], then group 1 [.*]. *)
Definition appContainerRegex : regex :=
  Seq (Lit (js "Application/"))
    (Seq (Plus (NotSet [CChar (ch "/")]))
       (Seq (Chr (ch "/")) (Group 1 (Star Dot)))).

(** The pattern of [getTargetiOSDeviceId]: [/Devices/], then group 1
    [[^/]+], then [/]. *)
Definition simulatorRegex : regex :=
  Seq (Lit (js "/Devices/"))
    (Seq (Group 1 (Plus (NotSet [CChar (ch "/")]))) (Chr (ch "/"))).

(** The pattern of [verifyServerCertWasIssuedByCA]: [[^:]+], then [: OK]. *)
Definition verifiedRegex : regex :=
  Seq (Plus (NotSet [CChar (ch ":")])) (Lit (js ": OK")).

(** Legacy provider: [^], then [[\w._-]+], then [$]. *)
Definition allowedAppNameRegex_legacy : regex :=
  Seq Bol (Seq (Plus (Set_ [CWord; CChar (ch "."); CChar (ch "_"); CChar (ch "-")])) Eol).

(** Server provider: [^], then [[\w.-]+], then [$]. *)
Definition allowedAppNameRegex_server : regex :=
  Seq Bol (Seq (Plus (Set_ [CWord; CChar (ch "."); CChar (ch "-")])) Eol).

(** The units the allow-list is meant to let through: word characters
    (letters, digits, underscore), dots and hyphens. *)
Definition isAllowedAppNameChar (c : N) : bool :=
  isWordChar c || (c =? ch ".")%N || (c =? ch "-")%N.

(** [santitizeString], identical in both providers. *)
Definition santitizeString (csrString : jsstring) : jsstring :=
  trim (removeCR csrString).

(** ** Errors, events and the outside world *)

Unset Implicit Arguments.

(** The errors the providers throw, named after their messages, and the
    rejections of collaborators. *)
Inductive error : Type :=
| EmptyCSR (os : jsstring)              (* Received empty CSR from <os> device *)
| AdbInitFailed                         (* ADB initialisation was not not successful *)
| AndroidNotEnabled                     (* Android is not enabled in settings *)
| ServerCertsNotAvailableInTest         (* Server certificates not available in test *)
| PathDidntMatch (absolutePath : jsstring)
| FailedToWriteTemp (filename : jsstring) (e : error)
| UnsupportedDeviceOS (os : jsstring)   (* Unsupported device OS for Certificate Exchange *)
| UnsupportedDeviceOs (os : jsstring)   (* legacy: Unsupported device os *)
| InvalidAppDirectory (os destination : jsstring) (e : error)
| NoAndroidDevicesFound
| NoIOSDevicesFound
| NoMatchingDevice (appName : jsstring) (* No matching device found for app *)
| ConflictInTempDir
| FailedToPullCSR
| CannotExtractCN (subject : jsstring)
| DisallowedAppName (appName : jsstring)
| DoesNotExist (filename : jsstring)
| CannotParseExpiry
| CertExpired                           (* Certificate has expired or will expire soon. *)
| NotIssuedByCA                         (* Current server cert was not issued by current CA *)
| TimedOut (message : jsstring)
| TypeError                             (* a property read on undefined *)
| URIError                              (* URI malformed *)
| External (message : jsstring).        (* rejection raised by a collaborator *)

Inductive Res (A : Type) : Type :=
| Ok (a : A)
| Err (e : error).
Arguments Ok {A} a.
Arguments Err {A} e.

Definition is_ok {A} (r : Res A) : bool :=
  match r with Ok _ => true | Err _ => false end.

(** *** [encodeURI]

    The units [encodeURI] leaves as they are: letters, digits, the marks
    [-_.!~*'()], the reserved [;/?:@&=+$,] and [#]. Every other code point is
    written as the escaped octets of its UTF-8 form; a surrogate that is not
    part of a pair is a URIError. *)
Definition isURIUnescaped (c : N) : bool :=
  (((48 <=? c) && (c <=? 57)) || ((65 <=? c) && (c <=? 90))
   || ((97 <=? c) && (c <=? 122))
   || existsb (N.eqb c) (js "-_.!~*'()") || existsb (N.eqb c) (js ";/?:@&=+$,#"))%N.

Definition isHighSurrogate (c : N) : bool := ((55296 <=? c) && (c <=? 56319))%N.
Definition isLowSurrogate (c : N) : bool := ((56320 <=? c) && (c <=? 57343))%N.

Definition hexDigit (n : N) : N := (if n <? 10 then 48 + n else 55 + n)%N.

Definition escapeOctet (octet : N) : jsstring :=
  [ch "%"; hexDigit (octet / 16); hexDigit (octet mod 16)]%N.

Definition utf8 (v : N) : list N :=
  (if v <? 128 then [v]
   else if v <? 2048 then [192 + v / 64; 128 + v mod 64]
   else if v <? 65536 then
     [224 + v / 4096; 128 + (v / 64) mod 64; 128 + v mod 64]
   else [240 + v / 262144; 128 + (v / 4096) mod 64;
         128 + (v / 64) mod 64; 128 + v mod 64])%N.

Definition codePoint (high low : N) : N :=
  ((high - 55296) * 1024 + (low - 56320) + 65536)%N.

Fixpoint encodeURI (s : jsstring) : Res jsstring :=
  let escaped (v : N) (rest : Res jsstring) : Res jsstring :=
    match rest with
    | Ok r => Ok (flat_map escapeOctet (utf8 v) ++ r)
    | Err e => Err e
    end in
  match s with
  | [] => Ok []
  | c :: t =>
      if isURIUnescaped c then
        match encodeURI t with
        | Ok r => Ok (c :: r)
        | Err e => Err e
        end
      else if isLowSurrogate c then Err URIError
      else if isHighSurrogate c then
        match t with
        | d :: t' =>
            if isLowSurrogate d then escaped (codePoint c d) (encodeURI t')
            else Err URIError
        | [] => Err URIError
        end
      else escaped c (encodeURI t)
  end.

(** [parts.join(sep)] *)
Fixpoint join (sep : jsstring) (parts : list jsstring) : jsstring :=
  match parts with
  | [] => []
  | [p] => p
  | p :: rest => p ++ sep ++ join sep rest
  end.

(** Values of an options object passed to the OpenSSL wrapper. *)
Inductive optval : Type :=
| OBool (b : bool)
| OStr (s : jsstring)
| ONum (n : Z).

Definition options := list (jsstring * optval).

Inductive Level : Type := LDebug | LLog | LWarn | LError.

(** One entry per call that leaves the provider; the upload and the uuid
    generator are recorded with what they gave back. *)
Inductive Event : Type :=
| EvPathExists (p : jsstring)
| EvReadFile (p : jsstring)
| EvWriteFile (p contents : jsstring)
| EvMkdir (p : jsstring)
| EvUnlink (p : jsstring)
| EvReaddir (p : jsstring)
| EvTmpDir
| EvTmpFile
| EvOpenssl (action : jsstring) (opts : options)
| EvOpensslInstalled
| EvDateNow
| EvGetAdbClient
| EvAdbListDevices
| EvAdbPull (deviceId app path : jsstring)
| EvAdbPush (deviceId app path contents : jsstring)
| EvIdbTargets
| EvIdbPull (udid src bundleId dst : jsstring)
| EvIdbPush (udid src bundleId dst : jsstring)
| EvUuid (value : jsstring)
| EvZip (folder zipPath : jsstring)
| EvUpload (endpoint deviceId : jsstring) (settled : option Z) (outcome : Res unit)
| EvConsole (level : Level) (message : jsstring)
| EvEmit (channel : jsstring)
| EvMetric (name : jsstring) (ok : bool).

(** A call to a device bridge (adb or idb). *)
Definition isDeviceEvent (e : Event) : bool :=
  match e with
  | EvGetAdbClient | EvAdbListDevices | EvAdbPull _ _ _ | EvAdbPush _ _ _ _
  | EvIdbTargets | EvIdbPull _ _ _ _ | EvIdbPush _ _ _ _ => true
  | _ => false
  end.

(** A call that removes a file. *)
Definition isRemovalEvent (e : Event) : bool :=
  match e with
  | EvUnlink _ => true
  | _ => false
  end.

Record Device : Type := { id : jsstring; type : jsstring }.
Record Target : Type := { udid : jsstring }.

Record CertificateProviderConfig : Type := {
  idbPath : jsstring;
  enableAndroid : bool;
  enableIOS : bool;
  androidHome : jsstring;
  enablePhysicalIOS : bool
}.

(** The collaborators: modules the providers import and whose code is not
    part of them. Each is an oracle on an abstract world [World]. Buffers are
    identified with their text. The upload request comes with the time in
    milliseconds after which it settles ([None]: never). [getAdbClient] is
    given the settings of the server provider ([None]: the store of the
    legacy one); [iosUtil_targets] its two arguments ([None]: called without
    arguments, as the legacy provider does). *)
Record Collab : Type := {
  World : Type;
  fs_pathExists : jsstring -> World -> bool * World;
  fs_readFile : jsstring -> World -> Res jsstring * World;
  fs_writeFile : jsstring -> jsstring -> World -> Res unit * World;
  fs_mkdir : jsstring -> World -> Res unit * World;
  fs_unlink : jsstring -> World -> Res unit * World;
  fs_readdir : jsstring -> World -> Res (list jsstring) * World;
  tmp_dir : World -> Res jsstring * World;
  tmp_file : World -> Res jsstring * World;
  path_resolve : list jsstring -> jsstring;
  path_join : list jsstring -> jsstring;
  os_homedir : jsstring;
  openssl_exec : jsstring -> options -> World -> Res jsstring * World;
  opensslInstalled : World -> bool * World;
  Date_now : World -> Z * World;
  Date_parse : jsstring -> option Z;
  isTest : bool;
  getAdbClient : option CertificateProviderConfig -> World -> Res unit * World;
  adb_listDevices : World -> Res (list Device) * World;
  androidUtil_pull : jsstring -> jsstring -> jsstring -> World -> Res jsstring * World;
  androidUtil_push :
    jsstring -> jsstring -> jsstring -> jsstring -> World -> Res unit * World;
  iosUtil_targets : option (jsstring * bool) -> World -> Res (list Target) * World;
  iosUtil_pull :
    jsstring -> jsstring -> jsstring -> jsstring -> jsstring -> World ->
    Res unit * World;
  iosUtil_push :
    jsstring -> jsstring -> jsstring -> jsstring -> jsstring -> World ->
    Res unit * World;
  uuid_v4 : World -> jsstring * World;
  archive_directory : jsstring -> jsstring -> World -> Res unit * World;
  internGraphPOSTAPIRequest :
    jsstring -> jsstring -> jsstring -> World -> (option Z * Res unit) * World
}.

(** ** Promises as a state-and-error monad *)

Module Promise.
Section Monad.
Variable C : Collab.

Record St : Type := mkSt { world : World C; trace : list Event }.

Definition M (A : Type) : Type := St -> Res A * St.

Definition ret {A} (a : A) : M A := fun s => (Ok a, s).
Definition throw {A} (e : error) : M A := fun s => (Err e, s).

Definition bind {A B} (m : M A) (f : A -> M B) : M B :=
  fun s =>
    match m s with
    | (Ok a, s') => f a s'
    | (Err e, s') => (Err e, s')
    end.

(** [try { m } catch (e) { h e }] and [m.catch(h)] *)
Definition try_catch {A} (m : M A) (h : error -> M A) : M A :=
  fun s =>
    match m s with
    | (Ok a, s') => (Ok a, s')
    | (Err e, s') => h e s'
    end.

(** Running a promise to its settled state. *)
Definition settle {A} (m : M A) : M (Res A) :=
  fun s => let (r, s') := m s in (Ok r, s').

(** [await p] for a promise that has settled. *)
Definition await {A} (r : Res A) : M A := fun s => (r, s).

Definition emit (ev : Event) : M unit :=
  fun s => (Ok tt, mkSt (world s) (trace s ++ [ev])).

(** A fallible collaborator call. *)
Definition call {A} (ev : Event) (f : World C -> Res A * World C) : M A :=
  fun s => let (r, w) := f (world s) in (r, mkSt w (trace s ++ [ev])).

(** A collaborator call that cannot reject. *)
Definition ask {A} (ev : Event) (f : World C -> A * World C) : M A :=
  fun s => let (a, w) := f (world s) in (Ok a, mkSt w (trace s ++ [ev])).

(** The same, recorded with its answer. *)
Definition ask_rec {A} (ev : A -> Event) (f : World C -> A * World C) : M A :=
  fun s => let (a, w) := f (world s) in (Ok a, mkSt w (trace s ++ [ev a])).

Fixpoint settle_all {A} (ms : list (M A)) : M (list (Res A)) :=
  match ms with
  | [] => ret []
  | m :: rest =>
      bind (settle m) (fun r =>
      bind (settle_all rest) (fun rs => ret (r :: rs)))
  end.

Fixpoint collect {A} (rs : list (Res A)) : Res (list A) :=
  match rs with
  | [] => Ok []
  | Err e :: _ => Err e
  | Ok a :: rest =>
      match collect rest with
      | Ok l => Ok (a :: l)
      | Err e => Err e
      end
  end.

(** [Promise.all]: every promise of the array runs; the result rejects with
    a rejection of the array if there is one (here the first in array
    order), otherwise it is the array of the values. *)
Definition Promise_all {A} (ms : list (M A)) : M (list A) :=
  bind (settle_all ms) (fun rs => await (collect rs)).
End Monad.
End Promise.
Import Promise.

Arguments mkSt {C} world trace.
Arguments world {C} s.
Arguments trace {C} s.
Arguments ret {C A} a _.
Arguments throw {C A} e _.
Arguments bind {C A B} m f _.
Arguments try_catch {C A} m h _.
Arguments settle {C A} m _.
Arguments await {C A} r _.
Arguments emit {C} ev _.
Arguments call {C A} ev f _.
Arguments ask {C A} ev f _.
Arguments ask_rec {C A} ev f _.
Arguments Promise_all {C A} ms _.
Arguments settle_all {C A} ms _.

Declare Scope promise_scope.
Delimit Scope promise_scope with promise.
Notation "x <- m ;; k" := (bind m (fun x => k))
  (at level 61, m at next level, right associativity) : promise_scope.
Notation "m ;;; k" := (bind m (fun _ => k))
  (at level 61, right associativity) : promise_scope.
Open Scope promise_scope.

(** ** What the two providers share *)

Module Common.

(** [SecureServerConfig], the same type in both files; buffers are
    identified with their text. *)
Record SecureServerConfig : Type := {
  key : jsstring;
  cert : jsstring;
  ca : jsstring;
  requestCert : bool;
  rejectUnauthorized : bool
}.

Section WithCollab.
Variable C : Collab.
Abbreviation M := (Promise.M C).

(** *** Collaborator calls, each leaving its event *)

Definition pathExists (p : jsstring) : M bool :=
  ask (EvPathExists p) (fs_pathExists C p).
Definition readFile (p : jsstring) : M jsstring :=
  call (EvReadFile p) (fs_readFile C p).
Definition writeFile (p contents : jsstring) : M unit :=
  call (EvWriteFile p contents) (fs_writeFile C p contents).
Definition mkdir (p : jsstring) : M unit :=
  call (EvMkdir p) (fs_mkdir C p).
Definition unlink (p : jsstring) : M unit :=
  call (EvUnlink p) (fs_unlink C p).
Definition readdir (p : jsstring) : M (list jsstring) :=
  call (EvReaddir p) (fs_readdir C p).
Definition tmpDir : M jsstring := call EvTmpDir (tmp_dir C).
Definition tmpFile : M jsstring := call EvTmpFile (tmp_file C).
Definition openssl (action : jsstring) (opts : options) : M jsstring :=
  call (EvOpenssl action opts) (openssl_exec C action opts).
Definition now : M Z := ask EvDateNow (Date_now C).
Definition uuid : M jsstring := ask_rec EvUuid (uuid_v4 C).
Definition console (l : Level) (message : jsstring) : M unit :=
  emit (EvConsole l message).

(** Modelled from the spec: [reportPlatformFailures] of [utils/metrics] is
    not among the sources. The failure of the wrapped promise is reported
    and the promise's own outcome is passed on. *)
Definition reportPlatformFailures {A} (m : M A) (name : jsstring) : M A :=
  fun s =>
    let (r, s') := m s in
    (r, mkSt (world s') (trace s' ++ [EvMetric name (is_ok r)])).

(** Modelled from the spec: [timeout] of [flipper-plugin] is not among the
    sources. A hard timeout: the promise's outcome if it settles within
    [ms] milliseconds, a rejection with [message] otherwise. *)
Definition timeout {A} (ms : Z) (p : option Z * Res A) (message : jsstring)
  : Res A :=
  match fst p with
  | Some elapsed => if (elapsed <? ms)%Z then snd p else Err (TimedOut message)
  | None => Err (TimedOut message)
  end.

(** *** Desktop file paths *)

Definition getFilePath (fileName : jsstring) : jsstring :=
  path_resolve C [os_homedir C; js ".flipper"; js "certs"; fileName].

Definition caKey := getFilePath (js "ca.key").
Definition caCert := getFilePath (js "ca.crt").
Definition serverKey := getFilePath (js "server.key").
Definition serverCsr := getFilePath (js "server.csr").
Definition serverSrl := getFilePath (js "server.srl").
Definition serverCert := getFilePath (js "server.crt").

(** *** Methods whose text is the same in both providers *)

Definition ensureOpenSSLIsAvailable : M unit :=
  installed <- ask EvOpensslInstalled (opensslInstalled C) ;;
  if negb installed then emit (EvEmit (js "error")) else ret tt.

Definition getCACertificate : M jsstring := readFile caCert.

Definition writeToTempFile (content : jsstring) : M jsstring :=
  path <- tmpFile ;;
  writeFile path content ;;;
  ret path.

Definition generateClientCertificate (csr : jsstring) : M jsstring :=
  console LDebug (js "Creating new client cert") ;;;
  path <- writeToTempFile csr ;;
  openssl (js "x509")
    [(js "req", OBool true); (js "in", OStr path); (js "CA", OStr caCert);
     (js "CAkey", OStr caKey); (js "CAcreateserial", OBool true);
     (js "CAserial", OStr serverSrl)].

Definition getRelativePathInAppContainer (absolutePath : jsstring) : M jsstring :=
  match regex_exec appContainerRegex absolutePath with
  | Some matches =>
      if Nat.eqb (match_length matches) 2 then
        match match_group 1 matches with
        | Some g => ret g
        | None => throw TypeError
        end
      else throw (PathDidntMatch absolutePath)
  | None => throw (PathDidntMatch absolutePath)
  end.

(** The tail of [checkCertIsValid] that reads and judges the end date.
    [Date.parse] gives a whole number of milliseconds or NaN ([None]), and
    the sum with the window stays far below 2^53, so the comparison of the
    source is the one on integers. *)
Definition checkEndDate (filename : jsstring) : M unit :=
  endDateOutput <- openssl (js "x509")
    [(js "enddate", OBool true); (js "in", OStr filename);
     (js "noout", OBool true)] ;;
  match nth_error (split_on (ch "=") (trim endDateOutput)) 1 with
  | None => throw TypeError
  | Some part =>
      let dateString := trim part in
      match Date_parse C dateString with
      | None =>
          console LError (js "Unable to parse certificate expiry date: ") ;;;
          throw CannotParseExpiry
      | Some expiryDate =>
          t <- now ;;
          if (expiryDate <=? t + minCertExpiryWindowSeconds * 1000)%Z
          then throw CertExpired
          else ret tt
      end
  end.

Definition verifyServerCertWasIssuedByCA : M unit :=
  output <- openssl (js "verify")
    [(js "CAfile", OStr caCert); (serverCert, OBool false)] ;;
  match regex_exec verifiedRegex output with
  | None => throw NotIssuedByCA
  | Some _ => ret tt
  end.

Definition generateCertificateAuthority : M unit :=
  dirExists <- pathExists (getFilePath []) ;;
  (if negb dirExists then mkdir (getFilePath []) else ret tt) ;;;
  console LLog (js "Generating new CA") ;;;
  openssl (js "genrsa") [(js "out", OStr caKey); (js "2048", OBool false)] ;;;
  openssl (js "req")
    [(js "new", OBool true); (js "x509", OBool true);
     (js "subj", OStr caSubject); (js "key", OStr caKey);
     (js "out", OStr caCert)] ;;;
  ret tt.

Section Authority.
(** [checkCertIsValid] differs between the providers. *)
Variable checkCertIsValid : jsstring -> M unit.

Definition ensureCertificateAuthorityExists : M unit :=
  keyExists <- pathExists caKey ;;
  if negb keyExists then generateCertificateAuthority
  else try_catch (checkCertIsValid caCert)
         (fun _ => generateCertificateAuthority).

Definition generateServerCertificate : M unit :=
  ensureCertificateAuthorityExists ;;;
  console LWarn (js "Creating new server cert") ;;;
  openssl (js "genrsa") [(js "out", OStr serverKey); (js "2048", OBool false)] ;;;
  openssl (js "req")
    [(js "new", OBool true); (js "key", OStr serverKey);
     (js "out", OStr serverCsr); (js "subj", OStr serverSubject)] ;;;
  openssl (js "x509")
    [(js "req", OBool true); (js "in", OStr serverCsr);
     (js "CA", OStr caCert); (js "CAkey", OStr caKey);
     (js "CAcreateserial", OBool true); (js "CAserial", OStr serverSrl);
     (js "out", OStr serverCert)] ;;;
  ret tt.
End Authority.

Section AppName.
(** [allowedAppNameRegex] differs between the providers. *)
Variable allowedAppNameRegex : regex.

Definition extractAppNameFromCSR (csr : jsstring) : M jsstring :=
  path <- writeToTempFile csr ;;
  subject <- openssl (js "req")
    [(js "in", OStr path); (js "noout", OBool true);
     (js "subject", OBool true); (js "nameopt", OBool true);
     (js "RFC2253", OBool false)] ;;
  unlink path ;;;
  match regex_exec x509SubjectCNRegex (trim subject) with
  | None => throw (CannotExtractCN subject)
  | Some matches =>
      if Nat.ltb (match_length matches) 2 then throw (CannotExtractCN subject)
      else
        match match_group 1 matches with
        | None => throw TypeError
        | Some appName =>
            if negb (regex_test allowedAppNameRegex appName)
            then throw (DisallowedAppName appName)
            else ret appName
        end
  end.
End AppName.

Section DeviceId.
Variable getTargetAndroidDeviceId : jsstring -> jsstring -> jsstring -> M jsstring.
Variable getTargetiOSDeviceId : jsstring -> jsstring -> jsstring -> M jsstring.

Definition getTargetDeviceId (os appName appDirectory csr : jsstring)
  : M jsstring :=
  if str_eqb os (js "Android") then
    getTargetAndroidDeviceId appName appDirectory csr
  else if str_eqb os (js "iOS") then
    getTargetiOSDeviceId appName appDirectory csr
  else if str_eqb os (js "MacOS") then ret []
  else ret (js "unknown").
End DeviceId.

(** [matchingIds[0]] of a non-empty array. *)
Definition first_id (matchingIds : list jsstring) : jsstring :=
  match matchingIds with
  | i :: _ => i
  | [] => []
  end.
End WithCollab.
End Common.

(** ** [server/utils/CertificateProvider.tsx] *)

Module Server.

Inductive CertificateExchangeMedium : Type := FS_ACCESS | WWW | NONE.

Definition is_FS_ACCESS (m : CertificateExchangeMedium) : bool :=
  match m with FS_ACCESS => true | _ => false end.
Definition is_WWW (m : CertificateExchangeMedium) : bool :=
  match m with WWW => true | _ => false end.

(** The fields of the class the methods read. [_adb] is [None] when the
    client promise is [undefined]. *)
Record CertificateProvider : Type := {
  _adb : option unit;
  certificateSetup : Res unit;
  config : CertificateProviderConfig
}.

(** An entry of the array [devices] of [getTargetAndroidDeviceId]. *)
Record AndroidMatch : Type := {
  am_id : jsstring;
  am_isMatch : bool;
  am_foundCsr : option jsstring;
  am_error : option error
}.

(** [d.foundCsr !== null] *)
Definition hasFoundCsr (d : AndroidMatch) : bool :=
  match am_foundCsr d with Some _ => true | None => false end.

(** [d.foundCsr ? encodeURI(d.foundCsr) : 'null']: the empty string is
    falsy. *)
Definition encodeFoundCsr (d : AndroidMatch) : Res jsstring :=
  match am_foundCsr d with
  | Some (c :: t) => encodeURI (c :: t)
  | _ => Ok (js "null")
  end.

(** The warning of [getTargetAndroidDeviceId] when no device matches, with
    the line breaks and the indentation of the template. *)
Definition lookingForCsr (looking : jsstring) (foundCsrs : list jsstring)
  : jsstring :=
  js "Looking for CSR (url encoded):" ++ [10; 10]%N ++ js "            "
  ++ looking ++ [10; 10]%N ++ js "            Found these:" ++ [10; 10]%N
  ++ js "            " ++ join [10; 10]%N foundCsrs.

(** An entry of the array [devices] of [getTargetiOSDeviceId]. *)
Record IOSMatch : Type := { im_id : jsstring; im_isMatch : bool }.

Definition allowedAppNameRegex : regex := allowedAppNameRegex_server.

Section WithCollab.
Variable C : Collab.
Abbreviation M := (Promise.M C).

Definition checkCertIsValid (filename : jsstring) : M unit :=
  fileExists <- Common.pathExists C filename ;;
  if negb fileExists then throw (DoesNotExist filename)
  else
    try_catch
      (Common.openssl C (js "x509")
         [(js "checkend", ONum minCertExpiryWindowSeconds);
          (js "in", OStr filename)] ;;;
       ret tt)
      (fun e =>
         Common.console C LWarn (js "Checking if certificate expire soon: ") ;;;
         Common.checkEndDate C filename).

Definition ensureCertificateAuthorityExists : M unit :=
  Common.ensureCertificateAuthorityExists C checkCertIsValid.

Definition generateServerCertificate : M unit :=
  Common.generateServerCertificate C checkCertIsValid.

Definition ensureServerCertExists : M unit :=
  exist <- Promise_all
    [Common.pathExists C (Common.serverKey C);
     Common.pathExists C (Common.serverCert C);
     Common.pathExists C (Common.caCert C)] ;;
  let allExist := forallb (fun b : bool => b) exist in
  if negb allExist then generateServerCertificate
  else
    try_catch
      (checkCertIsValid (Common.serverCert C) ;;;
       Common.verifyServerCertWasIssuedByCA C)
      (fun e =>
         Common.console C LWarn
           (js "Not all certs are valid, generating new ones") ;;;
         generateServerCertificate).

(** The constructor. *)
Definition new_CertificateProvider (cfg : CertificateProviderConfig)
  : M CertificateProvider :=
  adbp <- (if enableAndroid cfg
           then try_catch
                  (c <- call EvGetAdbClient (getAdbClient C (Some cfg)) ;; ret (Some c))
                  (fun e => emit (EvEmit (js "notification")) ;;; ret None)
           else ret None) ;;
  setup <- (if isTest C then ret (Err ServerCertsNotAvailableInTest)
            else
              r <- settle (Common.reportPlatformFailures C
                             ensureServerCertExists
                             (js "ensureServerCertExists")) ;;
              (if is_ok r then ret tt
               else Common.console C LError
                      (js "Failed to find or generate certificates")) ;;;
              ret r) ;;
  ret {| _adb := adbp; certificateSetup := setup; config := cfg |}.

Section Methods.
Variable this : CertificateProvider.

(** [get adb()] *)
Definition adb : M unit :=
  if enableAndroid (config this) then
    match _adb this with
    | Some client => ret client
    | None => throw AdbInitFailed
    end
  else throw AndroidNotEnabled.

Definition extractAppNameFromCSR (csr : jsstring) : M jsstring :=
  Common.extractAppNameFromCSR C allowedAppNameRegex csr.

Definition uploadFiles (zipPath deviceID : jsstring) : M unit :=
  buff <- Common.readFile C zipPath ;;
  Common.reportPlatformFailures C
    (p <- ask_rec (fun p => EvUpload (js "flipper/certificates") deviceID
                               (fst p) (snd p))
            (internGraphPOSTAPIRequest C (js "flipper/certificates") buff deviceID) ;;
     await (Common.timeout (5 * 60 * 1000) p
              (js "Timed out uploading Flipper certificates to WWW.")))
    (js "uploadCertificates").

Definition androidDeviceHasMatchingCSR
  (directory deviceId processName csr : jsstring) : M (bool * jsstring) :=
  adbClient <- adb ;;
  deviceCsr <- call (EvAdbPull deviceId processName (directory ++ csrFileName))
                 (androidUtil_pull C deviceId processName (directory ++ csrFileName)) ;;
  let sanitizedDeviceCsr := santitizeString deviceCsr in
  let sanitizedClientCsr := santitizeString csr in
  let isMatch := str_eqb sanitizedDeviceCsr sanitizedClientCsr in
  ret (isMatch, sanitizedDeviceCsr).

Definition iOSDeviceHasMatchingCSR
  (directory deviceId bundleId csr : jsstring) : M bool :=
  originalFile <- Common.getRelativePathInAppContainer C
                    (path_resolve C [directory; csrFileName]) ;;
  dir <- Common.tmpDir C ;;
  call (EvIdbPull deviceId originalFile bundleId dir)
    (iosUtil_pull C deviceId originalFile bundleId dir
       (idbPath (config this))) ;;;
  items <- Common.readdir C dir ;;
  if Nat.ltb 1 (length items) then throw ConflictInTempDir
  else
    match items with
    | [] => throw FailedToPullCSR
    | fileName :: _ =>
        let copiedFile := path_resolve C [dir; fileName] in
        Common.console C LDebug (js "Trying to read CSR from") ;;;
        data <- Common.readFile C copiedFile ;;
        let csrFromDevice := santitizeString data in
        ret (str_eqb csrFromDevice (santitizeString csr))
    end.

(** The function [getTargetAndroidDeviceId] maps over [devicesInAdb]. *)
Definition androidDeviceMatch
  (appName deviceCsrFilePath csr : jsstring) (device : Device)
  : M AndroidMatch :=
  try_catch
    (result <- androidDeviceHasMatchingCSR deviceCsrFilePath
                 (id device) appName csr ;;
     ret {| am_id := id device; am_isMatch := fst result;
            am_foundCsr := Some (snd result); am_error := None |})
    (fun e =>
       Common.console C LWarn (js "Unable to check for matching CSR in ") ;;;
       ret {| am_id := id device; am_isMatch := false;
              am_foundCsr := None; am_error := Some e |}).

Definition getTargetAndroidDeviceId
  (appName deviceCsrFilePath csr : jsstring) : M jsstring :=
  devicesInAdb <- (client <- adb ;;
                   call EvAdbListDevices (adb_listDevices C)) ;;
  if Nat.eqb (length devicesInAdb) 0 then throw NoAndroidDevicesFound
  else
    let deviceMatchList :=
      map (androidDeviceMatch appName deviceCsrFilePath csr) devicesInAdb in
    devices <- Promise_all deviceMatchList ;;
    let matchingIds := map am_id (filter am_isMatch devices) in
    if Nat.eqb (length matchingIds) 0 then
      match find (fun d => match am_error d with Some _ => true | None => false end)
              devices with
      | Some {| am_error := Some e |} => throw e
      | _ =>
          foundCsrs <- await (collect (map encodeFoundCsr
                                         (filter hasFoundCsr devices))) ;;
          looking <- await (encodeURI (santitizeString csr)) ;;
          Common.console C LWarn (lookingForCsr looking foundCsrs) ;;;
          throw (NoMatchingDevice appName)
      end
    else
      (if Nat.ltb 1 (length matchingIds)
       then Common.console C LWarn
              (js "[conn] More than one matching device found for CSR")
       else ret tt) ;;;
      ret (Common.first_id matchingIds).

(** The function [getTargetiOSDeviceId] maps over [targets]. *)
Definition iOSDeviceMatch
  (appName deviceCsrFilePath csr : jsstring) (target : Target)
  : M IOSMatch :=
  isMatch <- iOSDeviceHasMatchingCSR deviceCsrFilePath
               (udid target) appName csr ;;
  ret {| im_id := udid target; im_isMatch := isMatch |}.

Definition getTargetiOSDeviceId
  (appName deviceCsrFilePath csr : jsstring) : M jsstring :=
  match
    match regex_exec simulatorRegex deviceCsrFilePath with
    | Some matches =>
        if Nat.eqb (match_length matches) 2 then match_group 1 matches
        else None
    | None => None
    end
  with
  | Some simulatorId => ret simulatorId
  | None =>
      targets <- call EvIdbTargets
                   (iosUtil_targets C
                      (Some (idbPath (config this),
                             enablePhysicalIOS (config this)))) ;;
      if Nat.eqb (length targets) 0 then throw NoIOSDevicesFound
      else
        let deviceMatchList :=
          map (iOSDeviceMatch appName deviceCsrFilePath csr) targets in
        devices <- Promise_all deviceMatchList ;;
        let matchingIds := map im_id (filter im_isMatch devices) in
        if Nat.eqb (length matchingIds) 0 then throw (NoMatchingDevice appName)
        else
          (if Nat.ltb 1 (length matchingIds)
           then Common.console C LWarn (js "Multiple devices found for app: ")
           else ret tt) ;;;
          ret (Common.first_id matchingIds)
  end.

Definition getTargetDeviceId : jsstring -> jsstring -> jsstring -> jsstring -> M jsstring :=
  Common.getTargetDeviceId C getTargetAndroidDeviceId getTargetiOSDeviceId.

Definition pushFileToiOSDevice
  (udid bundleId destination filename contents : jsstring) : M unit :=
  dir <- Common.tmpDir C ;;
  let filePath := path_resolve C [dir; filename] in
  Common.writeFile C filePath contents ;;;
  call (EvIdbPush udid filePath bundleId destination)
    (iosUtil_push C udid filePath bundleId destination
       (idbPath (config this))).

Definition deployOrStageFileForMobileApp
  (destination filename contents csr os : jsstring)
  (medium : CertificateExchangeMedium) (certFolder : jsstring) : M unit :=
  if is_WWW medium then
    certPathExists <- Common.pathExists C certFolder ;;
    (if negb certPathExists then Common.mkdir C certFolder else ret tt) ;;;
    try_catch (Common.writeFile C (certFolder ++ filename) contents)
      (fun e => throw (FailedToWriteTemp filename e))
  else
    appName <- extractAppNameFromCSR csr ;;
    if str_eqb os (js "Android") then
      deviceId <- getTargetAndroidDeviceId appName destination csr ;;
      adbClient <- adb ;;
      call (EvAdbPush deviceId appName (destination ++ filename) contents)
        (androidUtil_push C deviceId appName (destination ++ filename) contents)
    else if str_eqb os (js "iOS") || str_eqb os (js "windows")
            || str_eqb os (js "MacOS") then
      try_catch (Common.writeFile C (destination ++ filename) contents)
        (fun err =>
           relativePathInsideApp <-
             Common.getRelativePathInAppContainer C destination ;;
           udid <- getTargetiOSDeviceId appName destination csr ;;
           pushFileToiOSDevice udid appName relativePathInsideApp
             filename contents)
    else throw (UnsupportedDeviceOS os).

Definition processCertificateSigningRequest
  (unsanitizedCsr os appDirectory : jsstring)
  (medium : CertificateExchangeMedium) : M jsstring :=
  let csr := santitizeString unsanitizedCsr in
  if str_eqb csr [] then throw (EmptyCSR os)
  else
    Common.ensureOpenSSLIsAvailable C ;;;
    rootFolder <- Common.tmpDir C ;;
    let certFolder := rootFolder ++ js "/FlipperCerts/" in
    let certsZipPath := rootFolder ++ js "/certs.zip" in
    await (certificateSetup this) ;;;
    caCert <- Common.getCACertificate C ;;
    deployOrStageFileForMobileApp appDirectory deviceCAcertFile caCert
      csr os medium certFolder ;;;
    clientCert <- Common.generateClientCertificate C csr ;;
    deployOrStageFileForMobileApp appDirectory deviceClientCertFile
      clientCert csr os medium certFolder ;;;
    appName <- extractAppNameFromCSR csr ;;
    deviceId <- (if is_FS_ACCESS medium
                 then getTargetDeviceId os appName appDirectory csr
                 else Common.uuid C) ;;
    (if is_WWW medium then
       Common.reportPlatformFailures C
         (call (EvZip certFolder certsZipPath)
            (archive_directory C certFolder certsZipPath))
         (js "www-certs-exchange-zipping-certs") ;;;
       Common.reportPlatformFailures C
         (uploadFiles certsZipPath deviceId)
         (js "www-certs-exchange-uploading-certs")
     else ret tt) ;;;
    ret deviceId.

Definition loadSecureServerConfig : M Common.SecureServerConfig :=
  await (certificateSetup this) ;;;
  key <- Common.readFile C (Common.serverKey C) ;;
  cert <- Common.readFile C (Common.serverCert C) ;;
  ca <- Common.readFile C (Common.caCert C) ;;
  ret {| Common.key := key; Common.cert := cert; Common.ca := ca;
         Common.requestCert := true; Common.rejectUnauthorized := true |}.
End Methods.
End WithCollab.
End Server.

(** ** [utils/CertificateProvider.tsx]

    The legacy provider uses the synchronous calls of [fs] where the server
    provider awaits; an exception of such a call is a rejection here. *)

Module Legacy.

Inductive CertificateExchangeMedium : Type := FS_ACCESS | WWW.

(** The fields of the class the methods read. *)
Record CertificateProvider : Type := {
  adb : Res unit;
  certificateSetup : Res unit;
  store_idbPath : jsstring
}.

Record DeviceMatch : Type := {
  dm_id : jsstring;
  dm_isMatch : bool;
  dm_error : option error
}.

Definition allowedAppNameRegex : regex := allowedAppNameRegex_legacy.

Section WithCollab.
Variable C : Collab.
Abbreviation M := (Promise.M C).

Definition checkCertIsValid (filename : jsstring) : M unit :=
  fileExists <- Common.pathExists C filename ;;
  if negb fileExists then throw (DoesNotExist filename)
  else
    try_catch
      (Common.openssl C (js "x509")
         [(js "checkend", ONum minCertExpiryWindowSeconds);
          (js "in", OStr filename)] ;;;
       ret tt)
      (fun e =>
         Common.console C LWarn (js "Certificate will expire soon: ") ;;;
         throw e) ;;;
    Common.checkEndDate C filename.

Definition ensureCertificateAuthorityExists : M unit :=
  Common.ensureCertificateAuthorityExists C checkCertIsValid.

Definition generateServerCertificate : M unit :=
  Common.generateServerCertificate C checkCertIsValid.

Definition ensureServerCertExists : M unit :=
  keyExists <- Common.pathExists C (Common.serverKey C) ;;
  allExist <- (if keyExists then
                 certExists <- Common.pathExists C (Common.serverCert C) ;;
                 if certExists then Common.pathExists C (Common.caCert C)
                 else ret false
               else ret false) ;;
  if negb allExist then generateServerCertificate
  else
    try_catch
      (checkCertIsValid (Common.serverCert C) ;;;
       Common.verifyServerCertWasIssuedByCA C)
      (fun _ => generateServerCertificate).

Section Methods.
Variable this : CertificateProvider.

Definition extractAppNameFromCSR (csr : jsstring) : M jsstring :=
  Common.extractAppNameFromCSR C allowedAppNameRegex csr.

Definition androidDeviceHasMatchingCSR
  (directory deviceId processName csr : jsstring) : M bool :=
  adbClient <- await (adb this) ;;
  deviceCsr <- call (EvAdbPull deviceId processName (directory ++ csrFileName))
                 (androidUtil_pull C deviceId processName (directory ++ csrFileName)) ;;
  ret (str_eqb (santitizeString deviceCsr) (santitizeString csr)).

Definition iOSDeviceHasMatchingCSR
  (directory deviceId bundleId csr : jsstring) : M bool :=
  originalFile <- Common.getRelativePathInAppContainer C
                    (path_resolve C [directory; csrFileName]) ;;
  dir <- Common.tmpDir C ;;
  call (EvIdbPull deviceId originalFile bundleId (path_join C [dir; csrFileName]))
    (iosUtil_pull C deviceId originalFile bundleId
       (path_join C [dir; csrFileName]) (store_idbPath this)) ;;;
  items <- Common.readdir C dir ;;
  fileName <- (if Nat.ltb 1 (length items) then throw ConflictInTempDir
               else match items with
                    | [] => throw FailedToPullCSR
                    | item :: _ => ret item
                    end) ;;
  let copiedFile := path_resolve C [dir; fileName] in
  data <- Common.readFile C copiedFile ;;
  let csrFromDevice := santitizeString data in
  ret (str_eqb csrFromDevice (santitizeString csr)).

Definition getTargetAndroidDeviceId
  (appName deviceCsrFilePath csr : jsstring) : M jsstring :=
  client <- await (adb this) ;;
  devices <- call EvAdbListDevices (adb_listDevices C) ;;
  if Nat.eqb (length devices) 0 then throw NoAndroidDevicesFound
  else
    let deviceMatchList :=
      map (fun device =>
             try_catch
               (isMatch <- androidDeviceHasMatchingCSR deviceCsrFilePath
                             (id device) appName csr ;;
                ret {| dm_id := id device; dm_isMatch := isMatch;
                       dm_error := None |})
               (fun e =>
                  Common.console C LError
                    (js "Unable to check for matching CSR in ") ;;;
                  ret {| dm_id := id device; dm_isMatch := false;
                         dm_error := Some e |}))
        devices in
    devices <- Promise_all deviceMatchList ;;
    let matchingIds := map dm_id (filter dm_isMatch devices) in
    if Nat.eqb (length matchingIds) 0 then
      match find (fun d => match dm_error d with Some _ => true | None => false end)
              devices with
      | Some {| dm_error := Some e |} => throw e
      | _ => throw (NoMatchingDevice appName)
      end
    else
      (if Nat.ltb 1 (length matchingIds)
       then Common.console C LError
              (js "More than one matching device found for CSR")
       else ret tt) ;;;
      ret (Common.first_id matchingIds).

Definition getTargetiOSDeviceId
  (appName deviceCsrFilePath csr : jsstring) : M jsstring :=
  match
    match regex_exec simulatorRegex deviceCsrFilePath with
    | Some matches =>
        if Nat.eqb (match_length matches) 2 then match_group 1 matches
        else None
    | None => None
    end
  with
  | Some simulatorId => ret simulatorId
  | None =>
      targets <- call EvIdbTargets (iosUtil_targets C None) ;;
      if Nat.eqb (length targets) 0 then throw NoIOSDevicesFound
      else
        let deviceMatchList :=
          map (fun target =>
                 isMatch <- iOSDeviceHasMatchingCSR deviceCsrFilePath
                              (udid target) appName csr ;;
                 ret (udid target, isMatch))
            targets in
        devices <- Promise_all deviceMatchList ;;
        let matchingIds := map fst (filter snd devices) in
        if Nat.eqb (length matchingIds) 0 then throw (NoMatchingDevice appName)
        else ret (Common.first_id matchingIds)
  end.

Definition getTargetDeviceId : jsstring -> jsstring -> jsstring -> jsstring -> M jsstring :=
  Common.getTargetDeviceId C getTargetAndroidDeviceId getTargetiOSDeviceId.

(** The promise of the write and the push is not returned: the method
    resolves once the temporary directory is there, whatever becomes of
    them. *)
Definition pushFileToiOSDevice
  (udid bundleId destination filename contents : jsstring) : M unit :=
  dir <- Common.tmpDir C ;;
  let filePath := path_resolve C [dir; filename] in
  settle (Common.writeFile C filePath contents ;;;
          call (EvIdbPush udid filePath bundleId destination)
            (iosUtil_push C udid filePath bundleId destination
               (store_idbPath this))) ;;;
  ret tt.

(** [appNamePromise] is started first, whatever the platform. *)
Definition deployFileToMobileApp
  (destination filename contents csr os : jsstring) : M unit :=
  appNamePromise <- settle (extractAppNameFromCSR csr) ;;
  if str_eqb os (js "Android") then
    deviceIdPromise <- settle (app <- await appNamePromise ;;
                               getTargetAndroidDeviceId app destination csr) ;;
    deviceId <- await deviceIdPromise ;;
    appName <- await appNamePromise ;;
    adbClient <- await (adb this) ;;
    call (EvAdbPush deviceId appName (destination ++ filename) contents)
      (androidUtil_push C deviceId appName (destination ++ filename) contents)
  else if str_eqb os (js "iOS") || str_eqb os (js "windows")
          || str_eqb os (js "MacOS") then
    try_catch (Common.writeFile C (destination ++ filename) contents)
      (fun err =>
         if str_eqb os (js "iOS") then
           relativePathInsideApp <-
             Common.getRelativePathInAppContainer C destination ;;
           udid <- (appName <- await appNamePromise ;;
                    getTargetiOSDeviceId appName destination csr) ;;
           appName <- await appNamePromise ;;
           pushFileToiOSDevice udid appName relativePathInsideApp
             filename contents
         else throw (InvalidAppDirectory os destination err))
  else throw (UnsupportedDeviceOs os).

Definition processCertificateSigningRequest
  (unsanitizedCsr os appDirectory : jsstring)
  (medium : CertificateExchangeMedium) : M jsstring :=
  let csr := santitizeString unsanitizedCsr in
  if str_eqb csr [] then throw (EmptyCSR os)
  else
    Common.ensureOpenSSLIsAvailable C ;;;
    await (certificateSetup this) ;;;
    caCert <- Common.getCACertificate C ;;
    deployFileToMobileApp appDirectory deviceCAcertFile caCert csr os ;;;
    clientCert <- Common.generateClientCertificate C csr ;;
    deployFileToMobileApp appDirectory deviceClientCertFile clientCert csr os ;;;
    appName <- extractAppNameFromCSR csr ;;
    deviceId <- getTargetDeviceId os appName appDirectory csr ;;
    ret deviceId.

(** The three [readFileSync] run inside the [then] of [certificateSetup],
    in the order of the object literal. *)
Definition loadSecureServerConfig : M Common.SecureServerConfig :=
  await (certificateSetup this) ;;;
  key <- Common.readFile C (Common.serverKey C) ;;
  cert <- Common.readFile C (Common.serverCert C) ;;
  ca <- Common.readFile C (Common.caCert C) ;;
  ret {| Common.key := key; Common.cert := cert; Common.ca := ca;
         Common.requestCert := true; Common.rejectUnauthorized := true |}.
End Methods.
End WithCollab.
End Legacy.

(** ** A laboratory world

    Concrete collaborators on which the providers can be run: a file system
    as a list of files, an OpenSSL whose answers are scripted, and scripted
    devices. *)

Module Lab.

Record world : Type := {
  files : list (jsstring * jsstring);
  counter : N;
  clock : Z;
  opensslThere : bool;
  quickCheck : Res jsstring;             (* x509 -checkend *)
  endDate : Res jsstring;                (* x509 -enddate -noout *)
  verifyOutput : Res jsstring;           (* verify -CAfile *)
  subjectOutput : Res jsstring;          (* req -subject -noout *)
  adbDevices : list (jsstring * Res jsstring);   (* id, its app.csr *)
  idbTargets : list (jsstring * Res jsstring);   (* udid, its app.csr *)
  uploadOutcome : option Z * Res unit
}.

Definition with_files (w : world) (fs : list (jsstring * jsstring)) : world :=
  {| files := fs; counter := counter w; clock := clock w;
     opensslThere := opensslThere w; quickCheck := quickCheck w;
     endDate := endDate w; verifyOutput := verifyOutput w;
     subjectOutput := subjectOutput w; adbDevices := adbDevices w;
     idbTargets := idbTargets w; uploadOutcome := uploadOutcome w |}.

Definition with_counter (w : world) (n : N) : world :=
  {| files := files w; counter := n; clock := clock w;
     opensslThere := opensslThere w; quickCheck := quickCheck w;
     endDate := endDate w; verifyOutput := verifyOutput w;
     subjectOutput := subjectOutput w; adbDevices := adbDevices w;
     idbTargets := idbTargets w; uploadOutcome := uploadOutcome w |}.

Definition with_toolkit (w : world) (quick endD verify : Res jsstring) : world :=
  {| files := files w; counter := counter w; clock := clock w;
     opensslThere := opensslThere w; quickCheck := quick;
     endDate := endD; verifyOutput := verify;
     subjectOutput := subjectOutput w; adbDevices := adbDevices w;
     idbTargets := idbTargets w; uploadOutcome := uploadOutcome w |}.

Definition with_devices (w : world) (adbs idbs : list (jsstring * Res jsstring))
  : world :=
  {| files := files w; counter := counter w; clock := clock w;
     opensslThere := opensslThere w; quickCheck := quickCheck w;
     endDate := endDate w; verifyOutput := verifyOutput w;
     subjectOutput := subjectOutput w; adbDevices := adbs;
     idbTargets := idbs; uploadOutcome := uploadOutcome w |}.

Definition with_upload (w : world) (u : option Z * Res unit) : world :=
  {| files := files w; counter := counter w; clock := clock w;
     opensslThere := opensslThere w; quickCheck := quickCheck w;
     endDate := endDate w; verifyOutput := verifyOutput w;
     subjectOutput := subjectOutput w; adbDevices := adbDevices w;
     idbTargets := idbTargets w; uploadOutcome := u |}.

Definition with_subject (w : world) (r : Res jsstring) : world :=
  {| files := files w; counter := counter w; clock := clock w;
     opensslThere := opensslThere w; quickCheck := quickCheck w;
     endDate := endDate w; verifyOutput := verifyOutput w;
     subjectOutput := r; adbDevices := adbDevices w;
     idbTargets := idbTargets w; uploadOutcome := uploadOutcome w |}.

Fixpoint lookup {A} (k : jsstring) (l : list (jsstring * A)) : option A :=
  match l with
  | [] => None
  | (k', v) :: t => if str_eqb k k' then Some v else lookup k t
  end.

Definition put (p c : jsstring) (w : world) : world :=
  with_files w ((p, c) :: filter (fun kv => negb (str_eqb (fst kv) p)) (files w)).

Fixpoint strip_prefix (pre s : jsstring) : option jsstring :=
  match pre, s with
  | [], _ => Some s
  | a :: pre', b :: s' => if (a =? b)%N then strip_prefix pre' s' else None
  | _ :: _, [] => None
  end.

Definition slash : N := ch "/".

Definition join2 (a b : jsstring) : jsstring :=
  match b with
  | c :: _ => if (c =? slash)%N then b
              else match rev a with
                   | d :: _ => if (d =? slash)%N then a ++ b else a ++ slash :: b
                   | [] => b
                   end
  | [] => a
  end.

Definition resolve (segments : list jsstring) : jsstring :=
  fold_left join2 segments [].

Definition has_opt (k : string) (opts : options) : bool :=
  existsb (fun kv => str_eqb (fst kv) (js k)) opts.

Definition out_of (opts : options) : option jsstring :=
  match lookup (js "out") opts with
  | Some (OStr p) => Some p
  | _ => None
  end.

Definition run_openssl (action : jsstring) (opts : options) (w : world)
  : Res jsstring * world :=
  if str_eqb action (js "verify") then (verifyOutput w, w)
  else if has_opt "checkend" opts then (quickCheck w, w)
  else if has_opt "enddate" opts then (endDate w, w)
  else if has_opt "subject" opts then (subjectOutput w, w)
  else match out_of opts with
       | Some p => (Ok [], put p (action ++ js " output") w)
       | None => (Ok (js "-----BEGIN CERTIFICATE-----"), w)
       end.

Fixpoint digits (fuel : nat) (acc : Z) (s : jsstring) : option Z :=
  match fuel, s with
  | _, [] => Some acc
  | O, _ => None
  | S f, c :: t =>
      if ((48 <=? c) && (c <=? 57))%N
      then digits f (acc * 10 + Z.of_N (c - 48))%Z t
      else None
  end.

(** The end date is written in milliseconds in this world. *)
Definition parse_date (s : jsstring) : option Z :=
  match s with
  | [] => None
  | _ => digits (length s) 0%Z s
  end.

Definition fresh (prefix : string) (w : world) : jsstring :=
  js prefix ++ [(97 + counter w)%N].

Definition entries_of (dir : jsstring) (w : world) : list jsstring :=
  flat_map (fun kv =>
              match strip_prefix (dir ++ [slash]) (fst kv) with
              | Some name => if existsb (fun c => (c =? slash)%N) name then [] else [name]
              | None => []
              end) (files w).

Definition collab : Collab := {|
  World := world;
  fs_pathExists := fun p w =>
    (match lookup p (files w) with Some _ => true | None => false end, w);
  fs_readFile := fun p w =>
    (match lookup p (files w) with
     | Some c => Ok c
     | None => Err (External (js "ENOENT"))
     end, w);
  fs_writeFile := fun p c w => (Ok tt, put p c w);
  fs_mkdir := fun p w => (Ok tt, put p [] w);
  fs_unlink := fun p w =>
    (Ok tt, with_files w (filter (fun kv => negb (str_eqb (fst kv) p)) (files w)));
  fs_readdir := fun p w => (Ok (entries_of p w), w);
  tmp_dir := fun w => (Ok (fresh "/tmp/d" w), with_counter w (counter w + 1));
  tmp_file := fun w =>
    (Ok (fresh "/tmp/f" w), put (fresh "/tmp/f" w) [] (with_counter w (counter w + 1)));
  path_resolve := resolve;
  path_join := resolve;
  os_homedir := js "/home/u";
  openssl_exec := run_openssl;
  opensslInstalled := fun w => (opensslThere w, w);
  Date_now := fun w => (clock w, w);
  Date_parse := parse_date;
  isTest := false;
  getAdbClient := fun settings w => (Ok tt, w);
  adb_listDevices := fun w =>
    (Ok (map (fun d => {| id := fst d; type := js "device" |}) (adbDevices w)), w);
  androidUtil_pull := fun deviceId app path w =>
    (match lookup deviceId (adbDevices w) with
     | Some r => r
     | None => Err (External (js "device not found"))
     end, w);
  androidUtil_push := fun deviceId app path contents w => (Ok tt, w);
  iosUtil_targets := fun arguments w =>
    (Ok (map (fun d => {| udid := fst d |}) (idbTargets w)), w);
  iosUtil_pull := fun udid src bundleId dst idb w =>
    match lookup udid (idbTargets w) with
    | Some (Ok c) => (Ok tt, put (resolve [dst; csrFileName]) c w)
    | Some (Err e) => (Err e, w)
    | None => (Err (External (js "target not found")), w)
    end;
  iosUtil_push := fun udid src bundleId dst idb w => (Ok tt, w);
  uuid_v4 := fun w => (fresh "uuid-" w, with_counter w (counter w + 1));
  archive_directory := fun folder zipPath w => (Ok tt, put zipPath (js "PK") w);
  internGraphPOSTAPIRequest := fun endpoint zip deviceId w => (uploadOutcome w, w)
|}.

Definition csr0 : jsstring := js "-----BEGIN CERTIFICATE REQUEST-----".

(** A host whose certificates are in place and in order, one Android device
    and no iOS target. *)
Definition w0 : world := {|
  files := [(Common.caKey collab, js "key"); (Common.caCert collab, js "ca");
            (Common.serverKey collab, js "key");
            (Common.serverCert collab, js "cert")];
  counter := 0;
  clock := 1000;
  opensslThere := true;
  quickCheck := Ok [];
  endDate := Ok (js "notAfter=900000000");
  verifyOutput := Ok (js "/home/u/.flipper/certs/server.crt: OK");
  subjectOutput := Ok (js "subject=CN=com.example.app,O=Example");
  adbDevices := [(js "emulator-5554", Ok (csr0 ++ [10%N]))];
  idbTargets := [];
  uploadOutcome := (Some 1200%Z, Ok tt)
|}.

Definition start (w : world) : St collab := mkSt (w : World collab) [].

Definition cfg : CertificateProviderConfig := {|
  idbPath := js "/usr/local/bin/idb";
  enableAndroid := true;
  enableIOS := true;
  androidHome := js "/opt/android";
  enablePhysicalIOS := true
|}.

Definition server : Server.CertificateProvider := {|
  Server._adb := Some tt;
  Server.certificateSetup := Ok tt;
  Server.config := cfg
|}.

Definition legacy : Legacy.CertificateProvider := {|
  Legacy.adb := Ok tt;
  Legacy.certificateSetup := Ok tt;
  Legacy.store_idbPath := js "/usr/local/bin/idb"
|}.

End Lab.

(** Devices of the laboratory: the directory of an app on a physical iOS
    device, a device whose pull fails and one that holds the request. *)
Module Bench.
Definition appDirectory : jsstring :=
  js "/var/mobile/Containers/Data/Application/ABCD/sonar/".
Definition appName : jsstring := js "com.example.app".
Definition pullFails : Res jsstring := Err (External (js "pull failed")).
Definition holdsRequest : Res jsstring := Ok (Lab.csr0 ++ [13; 10]%N).
Definition holdsOther : Res jsstring := Ok (js "-----BEGIN OTHER-----").

(** The first device cannot be read, the second holds the request. *)
Definition errorThenMatch : Lab.world :=
  Lab.with_devices Lab.w0
    [(js "A", pullFails); (js "B", holdsRequest)]
    [(js "A", pullFails); (js "B", holdsRequest)].

(** The first device holds the request, the second cannot be read. *)
Definition matchThenError : Lab.world :=
  Lab.with_devices Lab.w0
    [(js "A", holdsRequest); (js "B", pullFails)]
    [(js "A", holdsRequest); (js "B", pullFails)].

(** Both devices can be read, the first holds the request. *)
Definition matchAndOther : Lab.world :=
  Lab.with_devices Lab.w0
    [(js "A", holdsRequest); (js "B", holdsOther)]
    [(js "A", holdsRequest); (js "B", holdsOther)].
End Bench.

(** ** Observations used in the statements *)

(** The events a run added to the trace. *)
Definition events_since {C} (s s' : St C) : list Event :=
  skipn (length (trace s)) (trace s').

(** The first steps of [extractAppNameFromCSR], up to the removal of the
    temporary file: the subject the toolkit prints for a request. *)
Definition readSubject (C : Collab) (csr : jsstring) : M C jsstring :=
  path <- Common.writeToTempFile C csr ;;
  subject <- Common.openssl C (js "req")
    [(js "in", OStr path); (js "noout", OBool true);
     (js "subject", OBool true); (js "nameopt", OBool true);
     (js "RFC2253", OBool false)] ;;
  Common.unlink C path ;;;
  ret subject.

(** The Common Name of a subject line: group 1 of [x509SubjectCNRegex] on
    the trimmed line. *)
Definition subjectCN (subject : jsstring) : option jsstring :=
  match regex_exec x509SubjectCNRegex (trim subject) with
  | Some matches => match_group 1 matches
  | None => None
  end.

(** The end date, in milliseconds, read off the output of [-enddate]. *)
Definition parsedEndDate (C : Collab) (endDateOutput : jsstring) : option Z :=
  match nth_error (split_on (ch "=") (trim endDateOutput)) 1 with
  | Some part => Date_parse C (trim part)
  | None => None
  end.

(** A capture list records group [i]. *)
Definition has_key (i : nat) (c : caps) : Prop := cap_get i c <> None.

(** The verdict [verifyServerCertWasIssuedByCA] draws from what the toolkit
    answered to [verify]. *)
Definition issuedByCA (answer : Res jsstring) : bool :=
  match answer with
  | Ok output => regex_test verifiedRegex output
  | Err _ => false
  end.

Definition checkendOptions (filename : jsstring) : options :=
  [(js "checkend", ONum minCertExpiryWindowSeconds); (js "in", OStr filename)].

Definition enddateOptions (filename : jsstring) : options :=
  [(js "enddate", OBool true); (js "in", OStr filename); (js "noout", OBool true)].

Definition verifyOptions (C : Collab) : options :=
  [(js "CAfile", OStr (Common.caCert C)); (Common.serverCert C, OBool false)].

(** The call that signs a fresh server certificate with the CA on disk. *)
Definition signServerCert (C : Collab) : Event :=
  EvOpenssl (js "x509")
    [(js "req", OBool true); (js "in", OStr (Common.serverCsr C));
     (js "CA", OStr (Common.caCert C)); (js "CAkey", OStr (Common.caKey C));
     (js "CAcreateserial", OBool true); (js "CAserial", OStr (Common.serverSrl C));
     (js "out", OStr (Common.serverCert C))].

(** The state in which [ensureServerCertExists] starts to regenerate after a
    failed check. *)
Definition warned {C} (s : St C) : St C :=
  mkSt (world s)
    (trace s ++ [EvConsole LWarn (js "Not all certs are valid, generating new ones")]).

(** [before] occurs in [l], in this order. *)
Inductive Subseq : list Event -> list Event -> Prop :=
| sub_nil l : Subseq [] l
| sub_take x p l : Subseq p l -> Subseq (x :: p) (x :: l)
| sub_skip x p l : Subseq p l -> Subseq p (x :: l).

(** The first upload of a trace: what came before it, where it was posted
    and for which device, how the request settled, and what came after
    it. *)
Record Upload : Type := {
  before : list Event;
  endpoint : jsstring;
  device : jsstring;
  settled : option Z * Res unit;
  after : list Event
}.

Fixpoint split_upload (l : list Event) : option Upload :=
  match l with
  | [] => None
  | EvUpload endpoint deviceId settled outcome :: after =>
      Some {| before := []; endpoint := endpoint; device := deviceId;
              settled := (settled, outcome); after := after |}
  | e :: t =>
      match split_upload t with
      | Some u => Some {| before := e :: before u; endpoint := endpoint u;
                          device := device u; settled := settled u;
                          after := after u |}
      | None => None
      end
  end.

Definition zippingReport : jsstring := js "www-certs-exchange-zipping-certs".
Definition uploadingReport : jsstring := js "www-certs-exchange-uploading-certs".
Definition uploadReport : jsstring := js "uploadCertificates".
Definition certificatesEndpoint : jsstring := js "flipper/certificates".

(** What precedes an upload for the device [deviceId]: both certificates
    were written to the staging folder of a temporary folder and [deviceId]
    was generated; then, with nothing in between, the staging folder was
    archived to [certs.zip] in the temporary folder and that archive was
    read. *)
Definition staged_and_archived (deviceId : jsstring) (before : list Event) : Prop :=
  exists rootFolder caCert clientCert staged,
    let folder := rootFolder ++ js "/FlipperCerts/" in
    let zipPath := rootFolder ++ js "/certs.zip" in
    before = staged ++ [EvUuid deviceId; EvZip folder zipPath;
                        EvMetric zippingReport true; EvReadFile zipPath]
    /\ Subseq [EvWriteFile (folder ++ deviceCAcertFile) caCert;
               EvWriteFile (folder ++ deviceClientCertFile) clientCert] staged.

Definition uploadTimeoutMessage : jsstring :=
  js "Timed out uploading Flipper certificates to WWW.".

(** The outcome of an exchange for the device [deviceId] whose upload ended
    as [outcome]. *)
Definition exchanged (deviceId : jsstring) (outcome : Res unit) : Res jsstring :=
  match outcome with
  | Ok _ => Ok deviceId
  | Err e => Err e
  end.

(** What a run of the server provider's exchange over the WWW medium looks
    like: its outcome [r] and the events [new] it added. *)
Definition WWW_exchange (r : Res jsstring) (new : list Event) : Prop :=
  forallb (fun e => negb (isDeviceEvent e)) new = true
  /\ (forall deviceId, r = Ok deviceId -> In (EvUuid deviceId) new)
  /\ match split_upload new with
     | None => is_ok r = false
     | Some u =>
         staged_and_archived (device u) (before u)
         /\ endpoint u = certificatesEndpoint
         /\ r = exchanged (device u)
                  (Common.timeout (5 * 60 * 1000) (settled u) uploadTimeoutMessage)
         /\ after u = [EvMetric uploadReport (is_ok r);
                       EvMetric uploadingReport (is_ok r)]
     end.

(** Whenever the matcher [m] succeeds from captures satisfying [Q], it has
    called its continuation with captures satisfying [Q]. *)
Definition reaches {X} (Q : caps -> Prop) (m : matcher X) : Prop :=
  forall rest c (k : cont X) x,
    Q c -> m rest c k = Some x ->
    exists rest' c', Q c' /\ k rest' c' = Some x.


(** The id resolved for a platform under FS_ACCESS, for either provider:
    the answer of the platform's resolver for Android and iOS, the empty
    string for MacOS and "unknown" for every other platform. *)
Definition resolved_by_os {C}
  (android ios : jsstring -> jsstring -> jsstring -> M C jsstring)
  (os appDirectory csr deviceId : jsstring) (s' : St C) : Prop :=
  if str_eqb os (js "Android") then
    exists appName s1, android appName appDirectory csr s1 = (Ok deviceId, s')
  else if str_eqb os (js "iOS") then
    exists appName s1, ios appName appDirectory csr s1 = (Ok deviceId, s')
  else if str_eqb os (js "MacOS") then deviceId = []
  else deviceId = js "unknown".

(** The entry [getTargetAndroidDeviceId] gathers for a device from what the
    pull of its copy of the request gave: a match, no match, or the error. *)
Definition android_entry (deviceId csr : jsstring) (pulled : Res jsstring)
  : Server.AndroidMatch :=
  match pulled with
  | Ok deviceCsr =>
      {| Server.am_id := deviceId;
         Server.am_isMatch :=
           str_eqb (santitizeString deviceCsr) (santitizeString csr);
         Server.am_foundCsr := Some (santitizeString deviceCsr);
         Server.am_error := None |}
  | Err e =>
      {| Server.am_id := deviceId; Server.am_isMatch := false;
         Server.am_foundCsr := None; Server.am_error := Some e |}
  end.

Definition errored (d : Server.AndroidMatch) : bool :=
  match Server.am_error d with Some _ => true | None => false end.

(** The resolution policy in the words of the specification: with no match,
    the first error met if there is one and no-matching-device otherwise;
    with matches, the first of them. *)
Definition resolution_policy (appName : jsstring)
  (entries : list Server.AndroidMatch) : Res jsstring :=
  match filter Server.am_isMatch entries with
  | [] =>
      match find errored entries with
      | Some {| Server.am_error := Some e |} => Err e
      | _ => Err (NoMatchingDevice appName)
      end
  | first :: _ => Ok (Server.am_id first)
  end.

(** What the Android path does with no match and no error: the texts found
    on the devices and the sanitized request are URL-encoded for a warning,
    in this order, before the no-matching-device error; a text that cannot
    be encoded is the outcome. *)
Definition no_match_outcome (appName csr : jsstring)
  (entries : list Server.AndroidMatch) : Res jsstring :=
  match collect (map Server.encodeFoundCsr (filter Server.hasFoundCsr entries)) with
  | Err e => Err e
  | Ok _ =>
      match encodeURI (santitizeString csr) with
      | Err e => Err e
      | Ok _ => Err (NoMatchingDevice appName)
      end
  end.

(** The outcome of the Android path on the entries it gathered. *)
Definition resolution_outcome (appName csr : jsstring)
  (entries : list Server.AndroidMatch) : Res jsstring :=
  match filter Server.am_isMatch entries with
  | [] =>
      match find errored entries with
      | Some {| Server.am_error := Some e |} => Err e
      | _ => no_match_outcome appName csr entries
      end
  | first :: _ => Ok (Server.am_id first)
  end.

Definition noSurrogate (c : N) : bool :=
  negb (isHighSurrogate c || isLowSurrogate c).

(** Neither the sanitized request nor a text found on a device has a
    surrogate: all of them can be URL-encoded. *)
Definition encodable (csr : jsstring) (entries : list Server.AndroidMatch) : Prop :=
  forallb noSurrogate (santitizeString csr) = true
  /\ forall d found,
       In d entries -> Server.am_foundCsr d = Some found ->
       forallb noSurrogate found = true.

Definition ambiguityWarning : Event :=
  EvConsole LWarn (js "[conn] More than one matching device found for CSR").

(** The Android path: with a ready adb client an empty pool is rejected;
    over a non-empty pool one entry is gathered per device, in order, each
    from what the pull of that device's copy of the request gave, and none of
    the checks rejects; the outcome is [resolution_outcome], which is the
    policy of the specification whenever the texts can be URL-encoded; and a
    warning is logged when more than one device matches. *)
Definition AndroidPathFollowsPolicy : Prop :=
  forall (C : Collab) (this : Server.CertificateProvider)
         (appName path csr : jsstring) (s : St C),
    (forall s0 : St C, Server.adb C this s0 = (Ok tt, s0)) ->
    (forall w1,
        adb_listDevices C (world s) = (Ok [], w1) ->
        fst (Server.getTargetAndroidDeviceId C this appName path csr s)
        = Err NoAndroidDevicesFound)
    /\ (forall device devices w1,
          adb_listDevices C (world s) = (Ok (device :: devices), w1) ->
          exists entries s2,
            Promise_all
              (map (Server.androidDeviceMatch C this appName path csr)
                 (device :: devices))
              (mkSt w1 (trace s ++ [EvAdbListDevices])) = (Ok entries, s2)
            /\ map Server.am_id entries = map id (device :: devices)
            /\ (forall entry, In entry entries ->
                  exists d st pulled w,
                    In d (device :: devices)
                    /\ androidUtil_pull C (id d) appName (path ++ csrFileName)
                         (world st) = (pulled, w)
                    /\ entry = android_entry (id d) csr pulled)
            /\ fst (Server.getTargetAndroidDeviceId C this appName path csr s)
               = resolution_outcome appName csr entries
            /\ (encodable csr entries ->
                fst (Server.getTargetAndroidDeviceId C this appName path csr s)
                = resolution_policy appName entries)
            /\ (1 < length (filter Server.am_isMatch entries) ->
                trace (snd (Server.getTargetAndroidDeviceId C this appName path csr s))
                = trace s2 ++ [ambiguityWarning])).

(** On the iOS path a rejected check rejects the resolution: when the path
    names no simulator and the pool is not empty, an error among the settled
    checks of the targets is the outcome, whatever the other checks found. *)
Definition IOSPathRejectsOnAnyError : Prop :=
  forall (C : Collab) (this : Server.CertificateProvider)
         (appName path csr : jsstring) (s s2 : St C)
         (target : Target) (targets : list Target) (w1 : World C)
         (settled : list (Res Server.IOSMatch)),
    regex_exec simulatorRegex path = None ->
    iosUtil_targets C
      (Some (idbPath (Server.config this), enablePhysicalIOS (Server.config this)))
      (world s) = (Ok (target :: targets), w1) ->
    settle_all (map (Server.iOSDeviceMatch C this appName path csr)
                  (target :: targets))
      (mkSt w1 (trace s ++ [EvIdbTargets])) = (Ok settled, s2) ->
    (exists e, In (Err e) settled) ->
    exists e, In (Err e) settled
              /\ Server.getTargetiOSDeviceId C this appName path csr s = (Err e, s2).

(** *** The Common Name, read off the subject line without the matcher *)

Definition comma : N := ch ",".
Definition equals : N := ch "=".

Definition isSeparator (c : N) : bool := (c =? equals)%N || (c =? comma)%N.
Definition notComma (c : N) : bool := negb (c =? comma)%N.
Definition notLineTerminator (c : N) : bool := negb (isLineTerminator c).

Fixpoint takeWhile (p : N -> bool) (s : jsstring) : jsstring :=
  match s with
  | [] => []
  | c :: t => if p c then c :: takeWhile p t else []
  end.

(** What follows a separator gives a Common Name: after any whitespace comes
    [CN=], then the name up to the next comma, and the rest of the line, if
    any, has no line terminator. *)
Definition cn_attempt (tail : jsstring) : option jsstring :=
  match dropWhile isTrimmable tail with
  | a :: b :: c :: after =>
      if ((a =? ch "C") && (b =? ch "N") && (c =? equals))%N then
        match dropWhile notComma after with
        | [] => Some (takeWhile notComma after)
        | _ :: rest =>
            if forallb notLineTerminator rest
            then Some (takeWhile notComma after) else None
        end
      else None
  | _ => None
  end.

(** The first separator of the line after which there is a Common Name. *)
Fixpoint cn_scan (line : jsstring) : option jsstring :=
  match line with
  | [] => None
  | c :: tail =>
      if isSeparator c then
        match cn_attempt tail with
        | Some cn => Some cn
        | None => cn_scan tail
        end
      else cn_scan tail
  end.

(** A subject line as the toolkit prints it in the RFC 2253 format:
    [subject=] and then the attributes [KEY=value], separated by commas. *)
Record Attribute : Type := { key : jsstring; value : jsstring }.

Definition render_attribute (a : Attribute) : jsstring :=
  key a ++ equals :: value a.

Fixpoint render_attributes (attrs : list Attribute) : jsstring :=
  match attrs with
  | [] => []
  | a :: rest =>
      render_attribute a ++
      match rest with
      | [] => []
      | _ :: _ => comma :: render_attributes rest
      end
  end.

Definition subject_line (attrs : list Attribute) : jsstring :=
  js "subject=" ++ render_attributes attrs.

(** Keys without separators and whitespace; values without separators and
    line terminators, and not ending in whitespace. *)
Definition plain_key_unit (c : N) : bool :=
  negb (isSeparator c) && negb (isTrimmable c).
Definition plain_value_unit (c : N) : bool :=
  negb (isSeparator c) && negb (isLineTerminator c).
Definition ends_plain (v : jsstring) : bool :=
  match rev v with
  | c :: _ => negb (isTrimmable c)
  | [] => true
  end.
Definition plain_attribute (a : Attribute) : bool :=
  forallb plain_key_unit (key a) && forallb plain_value_unit (value a)
  && ends_plain (value a).

(** The value of the first attribute whose key is CN. *)
Definition commonName (attrs : list Attribute) : option jsstring :=
  match find (fun a => str_eqb (key a) (js "CN")) attrs with
  | Some a => Some (value a)
  | None => None
  end.

(** The continuation with which [exec] starts a match. *)
Definition k0 : cont (jsstring * caps) := fun rest c => Some (rest, c).

(** The part of [x509SubjectCNRegex] after [CN=]. *)
Definition afterCN : regex :=
  Seq (Group 1 (Star (NotSet [CChar (ch ",")])))
    (Seq (Opt (Group 2 (Seq (Chr (ch ",")) (Star Dot)))) Eol).

Definition notSeparator (c : N) : bool := negb (isSeparator c).

(** What may follow an attribute: nothing, or a comma and a rest without
    line terminators. *)
Definition closes (post : jsstring) : Prop :=
  post = [] \/ exists t, post = comma :: t /\ forallb notLineTerminator t = true.

(** ** Further observations *)

(** The first unit of a string is not one that [trim] strips. *)
Definition starts_plain (v : jsstring) : bool :=
  match v with
  | c :: _ => negb (isTrimmable c)
  | [] => true
  end.

Definition LF : N := 10%N.

(** A text in which every line feed comes after a carriage return. *)
Fixpoint toCRLF (s : jsstring) : jsstring :=
  match s with
  | [] => []
  | c :: t => if (c =? LF)%N then CR :: LF :: toCRLF t else c :: toCRLF t
  end.

Definition slash : N := ch "/".
Definition colon : N := ch ":".
Definition notSlash (c : N) : bool := negb (c =? slash)%N.
Definition notColon (c : N) : bool := negb (c =? colon)%N.
Definition notEquals (c : N) : bool := negb (c =? equals)%N.

(** [s.startsWith(lit)], with what follows the literal. *)
Fixpoint after_literal (lit s : jsstring) : option jsstring :=
  match lit, s with
  | [], _ => Some s
  | a :: lit', b :: s' => if (b =? a)%N then after_literal lit' s' else None
  | _ :: _, [] => None
  end.

(** [s.indexOf(lit)] *)
Fixpoint indexOf (lit s : jsstring) {struct s} : option nat :=
  match after_literal lit s with
  | Some _ => Some 0
  | None =>
      match s with
      | [] => None
      | _ :: t =>
          match indexOf lit t with
          | Some i => Some (S i)
          | None => None
          end
      end
  end.

(** The toolkit's answer to [verify] has [: OK] after a unit other than a
    colon. *)
Definition says_OK (output : jsstring) : Prop :=
  exists pre c post, output = pre ++ c :: js ": OK" ++ post /\ c <> colon.

(** The options with which [extractAppNameFromCSR] asks for the subject of
    the request in the file [path]. *)
Definition subjectOptions (path : jsstring) : options :=
  [(js "in", OStr path); (js "noout", OBool true);
   (js "subject", OBool true); (js "nameopt", OBool true);
   (js "RFC2253", OBool false)].

(** After the quick check, in the world [w2]: the toolkit prints an end
    date that [Date.parse] reads and that lies more than the guard window
    after the current time. *)
Definition beyond_window (C : Collab) (filename : jsstring) (w2 : World C) : Prop :=
  exists out w3 expiry t w4,
    openssl_exec C (js "x509") (enddateOptions filename) w2 = (Ok out, w3)
    /\ parsedEndDate C out = Some expiry
    /\ Date_now C w3 = (t, w4)
    /\ (t + 86400 * 1000 < expiry)%Z.

(** A call of the toolkit that writes a key, a request or a certificate. *)
Definition writesCredential (e : Event) : bool :=
  match e with
  | EvOpenssl _ opts => existsb (fun kv => str_eqb (fst kv) (js "out")) opts
  | _ => false
  end.

(** What [ensureOpenSSLIsAvailable] leaves in the trace: the probe, and the
    error event when the toolkit is not installed. *)
Definition opensslProbe (installed : bool) : list Event :=
  EvOpensslInstalled :: (if installed then [] else [EvEmit (js "error")]).

(** What the initialisation of adb leaves in the trace of the constructor:
    nothing when Android is disabled, the request for a client otherwise,
    with a notification when the request is rejected. *)
Definition adbInitialisation (enabled : bool) (client : Res unit) : list Event :=
  if enabled then
    EvGetAdbClient :: (if is_ok client then [] else [EvEmit (js "notification")])
  else [].

(** The platforms [deployOrStageFileForMobileApp] and
    [deployFileToMobileApp] know. *)
Definition supported (os : jsstring) : bool :=
  str_eqb os (js "Android") || str_eqb os (js "iOS")
  || str_eqb os (js "windows") || str_eqb os (js "MacOS").

(** What staging a file may do: look for the staging folder, make it, and
    write the file with its contents into it. *)
Definition stagingEvent (certFolder filename contents : jsstring) (e : Event) : bool :=
  match e with
  | EvPathExists p | EvMkdir p => str_eqb p certFolder
  | EvWriteFile p c => str_eqb p (certFolder ++ filename) && str_eqb c contents
  | _ => false
  end.

(** The calls of the toolkit that make the certificate authority and the
    server's key and request. *)
Definition generateCAKey (C : Collab) : Event :=
  EvOpenssl (js "genrsa") [(js "out", OStr (Common.caKey C)); (js "2048", OBool false)].

Definition selfSignCA (C : Collab) : Event :=
  EvOpenssl (js "req")
    [(js "new", OBool true); (js "x509", OBool true);
     (js "subj", OStr caSubject); (js "key", OStr (Common.caKey C));
     (js "out", OStr (Common.caCert C))].

Definition generateServerKey (C : Collab) : Event :=
  EvOpenssl (js "genrsa")
    [(js "out", OStr (Common.serverKey C)); (js "2048", OBool false)].

Definition requestServerCert (C : Collab) : Event :=
  EvOpenssl (js "req")
    [(js "new", OBool true); (js "key", OStr (Common.serverKey C));
     (js "out", OStr (Common.serverCsr C)); (js "subj", OStr serverSubject)].

(** The folder of the desktop certificates. *)
Definition certsFolder (C : Collab) : jsstring := Common.getFilePath C [].

(** A world in which nothing is rejected but the push to an iOS device. *)
Definition lockedDevice : Collab := {|
  World := unit;
  fs_pathExists := fun _ w => (true, w);
  fs_readFile := fun _ w => (Ok [], w);
  fs_writeFile := fun _ _ w => (Ok tt, w);
  fs_mkdir := fun _ w => (Ok tt, w);
  fs_unlink := fun _ w => (Ok tt, w);
  fs_readdir := fun _ w => (Ok [], w);
  tmp_dir := fun w => (Ok (js "/tmp/d"), w);
  tmp_file := fun w => (Ok (js "/tmp/f"), w);
  path_resolve := Lab.resolve;
  path_join := Lab.resolve;
  os_homedir := js "/home/u";
  openssl_exec := fun _ _ w => (Ok [], w);
  opensslInstalled := fun w => (true, w);
  Date_now := fun w => (0%Z, w);
  Date_parse := fun _ => None;
  isTest := false;
  getAdbClient := fun _ w => (Ok tt, w);
  adb_listDevices := fun w => (Ok [], w);
  androidUtil_pull := fun _ _ _ w => (Ok [], w);
  androidUtil_push := fun _ _ _ _ w => (Ok tt, w);
  iosUtil_targets := fun _ w => (Ok [], w);
  iosUtil_pull := fun _ _ _ _ _ w => (Ok tt, w);
  iosUtil_push := fun _ _ _ _ _ w => (Err (External (js "device locked")), w);
  uuid_v4 := fun w => ([], w);
  archive_directory := fun _ _ w => (Ok tt, w);
  internGraphPOSTAPIRequest := fun _ _ _ w => ((None, Ok tt), w)
|}.

(** What the toolkit answers, in the world [w], to the call recorded as
    [e]. *)
Definition toolkit (C : Collab) (e : Event) (w : World C) : Res jsstring * World C :=
  match e with
  | EvOpenssl action opts => openssl_exec C action opts w
  | _ => (Err TypeError, w)
  end.

Definition creatingServerCert : Event :=
  EvConsole LWarn (js "Creating new server cert").

(** What [generateServerCertificate] does once the certificate authority is
    ensured, from the state [s1]: it makes the server key, then a request
    with it, then signs the request with the CA on disk, and stops at the
    first of these calls that the toolkit rejects. *)
Definition regenerated (C : Collab) (s1 : St C) : Res unit * St C :=
  let (key, w1) := toolkit C (generateServerKey C) (world s1) in
  match key with
  | Err e => (Err e, mkSt w1 (trace s1 ++ [creatingServerCert; generateServerKey C]))
  | Ok _ =>
      let (request, w2) := toolkit C (requestServerCert C) w1 in
      match request with
      | Err e =>
          (Err e, mkSt w2 (trace s1 ++ [creatingServerCert; generateServerKey C;
                                        requestServerCert C]))
      | Ok _ =>
          let (signed, w3) := toolkit C (signServerCert C) w2 in
          (match signed with Ok _ => Ok tt | Err e => Err e end,
           mkSt w3 (trace s1 ++ [creatingServerCert; generateServerKey C;
                                 requestServerCert C; signServerCert C]))
      end
  end.

(** The end of an exchange over the WWW medium, from the state [s7] its
    earlier steps have reached with the temporary folder [rootFolder]. *)
Definition archived_and_uploaded (C : Collab) (rootFolder : jsstring) (s7 : St C)
  : Res jsstring * St C :=
  let certFolder := rootFolder ++ js "/FlipperCerts/" in
  let zipPath := rootFolder ++ js "/certs.zip" in
  let (deviceId, w8) := uuid_v4 C (world s7) in
  let (zipped, w9) := archive_directory C certFolder zipPath w8 in
  let archived := trace s7 ++ [EvUuid deviceId; EvZip certFolder zipPath;
                               EvMetric zippingReport (is_ok zipped)] in
  match zipped with
  | Err e => (Err e, mkSt w9 archived)
  | Ok _ =>
      let (read, w10) := fs_readFile C zipPath w9 in
      match read with
      | Err e =>
          (Err e, mkSt w10 (archived ++ [EvReadFile zipPath;
                                         EvMetric uploadingReport false]))
      | Ok buff =>
          let (p, w11) :=
            internGraphPOSTAPIRequest C certificatesEndpoint buff deviceId w10 in
          let outcome := Common.timeout (5 * 60 * 1000) p uploadTimeoutMessage in
          (exchanged deviceId outcome,
           mkSt w11 (archived ++ [EvReadFile zipPath;
                                  EvUpload certificatesEndpoint deviceId (fst p) (snd p);
                                  EvMetric uploadReport (is_ok outcome);
                                  EvMetric uploadingReport (is_ok outcome)]))
      end
  end.

(** *** Locating the device of an exchange *)

(** The bridge adb locates [deviceId] for a request: it is a device of the
    pool adb lists in the world [w], and the pull of that device's copy of
    the request, for the app [appName], answered a text that is the request
    once both are sanitized. *)
Definition locatedOnAndroid (C : Collab)
  (appName appDirectory csr deviceId : jsstring) (w : World C) : Prop :=
  exists pool w1 d w2 copy w3,
    adb_listDevices C w = (Ok pool, w1)
    /\ In d pool /\ id d = deviceId
    /\ androidUtil_pull C deviceId appName (appDirectory ++ csrFileName) w2
       = (Ok copy, w3)
    /\ santitizeString copy = santitizeString csr.

(** The path names the simulator [deviceId]: it is what stands between an
    occurrence of [/Devices/] and the next [/]. *)
Definition simulatorInPath (path deviceId : jsstring) : Prop :=
  exists pre rest,
    path = pre ++ js "/Devices/" ++ deviceId ++ slash :: rest
    /\ deviceId <> [] /\ forallb notSlash deviceId = true.

(** The bridge idb locates [deviceId] for a request: it is a target of the
    pool idb lists in the world [w]; the request file of the app was pulled
    from it into a fresh temporary folder, which then held one file, and
    the text of that file is the request once both are sanitized. [pull] is
    the pull of the provider, from the target, the file, the app and the
    temporary folder. *)
Definition locatedOnIOS (C : Collab) (listed : option (jsstring * bool))
  (pull : jsstring -> jsstring -> jsstring -> jsstring ->
          World C -> Res unit * World C)
  (appName appDirectory csr deviceId : jsstring) (w : World C) : Prop :=
  exists targets w1 t originalFile w2 dir w3 w4 fileName w5 data w6,
    iosUtil_targets C listed w = (Ok targets, w1)
    /\ In t targets /\ udid t = deviceId
    /\ (forall s0 : St C,
          Common.getRelativePathInAppContainer C
            (path_resolve C [appDirectory; csrFileName]) s0 = (Ok originalFile, s0))
    /\ tmp_dir C w2 = (Ok dir, w3)
    /\ pull deviceId originalFile appName dir w3 = (Ok tt, w4)
    /\ fs_readdir C dir w4 = (Ok [fileName], w5)
    /\ fs_readFile C (path_resolve C [dir; fileName]) w5 = (Ok data, w6)
    /\ santitizeString data = santitizeString csr.

(** The device id of an exchange that resolves by platform, from the world
    [w]: a located device for Android and iOS (for iOS also the simulator
    the path names), the empty string for MacOS and "unknown" for every
    other platform. *)
Definition located (C : Collab) (listed : option (jsstring * bool))
  (pull : jsstring -> jsstring -> jsstring -> jsstring ->
          World C -> Res unit * World C)
  (os appName appDirectory csr deviceId : jsstring) (w : World C) : Prop :=
  if str_eqb os (js "Android") then
    locatedOnAndroid C appName appDirectory csr deviceId w
  else if str_eqb os (js "iOS") then
    simulatorInPath appDirectory deviceId
    \/ locatedOnIOS C listed pull appName appDirectory csr deviceId w
  else if str_eqb os (js "MacOS") then deviceId = []
  else deviceId = js "unknown".

(** The pull of the server provider and of the legacy provider. *)
Definition serverPull (C : Collab) (this : Server.CertificateProvider)
  (udid originalFile bundleId dir : jsstring) : World C -> Res unit * World C :=
  iosUtil_pull C udid originalFile bundleId dir (idbPath (Server.config this)).

Definition legacyPull (C : Collab) (this : Legacy.CertificateProvider)
  (udid originalFile bundleId dir : jsstring) : World C -> Res unit * World C :=
  iosUtil_pull C udid originalFile bundleId (path_join C [dir; csrFileName])
    (Legacy.store_idbPath this).

Definition serverTargets (this : Server.CertificateProvider)
  : option (jsstring * bool) :=
  Some (idbPath (Server.config this), enablePhysicalIOS (Server.config this)).

(** * Properties *)

(** ** Strings *)

Section StringFacts.
Variable p : N -> bool.

Lemma dropWhile_app (x y : jsstring) :
  dropWhile p (x ++ y) =
  if forallb p x then dropWhile p y else dropWhile p x ++ y.
Proof.
  induction x as [|c t IH]; simpl; [reflexivity|].
  destruct (p c); simpl; [exact IH | reflexivity].
Qed.

Lemma dropWhile_all (x : jsstring) : forallb p x = true -> dropWhile p x = [].
Proof.
  induction x as [|c t IH]; simpl; [reflexivity|].
  destruct (p c); simpl; [exact IH | discriminate].
Qed.

Lemma forallb_rev (x : jsstring) : forallb p (rev x) = forallb p x.
Proof.
  induction x as [|c t IH]; simpl; [reflexivity|].
  rewrite forallb_app, IH. simpl. rewrite andb_true_r. apply andb_comm.
Qed.

Lemma forallb_dropWhile (q : N -> bool) (x : jsstring) :
  forallb q x = true -> forallb q (dropWhile p x) = true.
Proof.
  induction x as [|c t IH]; simpl; [reflexivity|].
  intros H. apply andb_true_iff in H as [Hc Ht].
  destruct (p c); [auto|]. simpl. now rewrite Hc, Ht.
Qed.
End StringFacts.

Lemma str_eqb_eq a b : str_eqb a b = true <-> a = b.
Proof.
  unfold str_eqb. destruct (list_eq_dec N.eq_dec a b); split; congruence.
Qed.

Lemma str_eqb_refl a : str_eqb a a = true.
Proof. now apply str_eqb_eq. Qed.

Lemma str_eqb_neq a b : a <> b -> str_eqb a b = false.
Proof.
  intros H. unfold str_eqb. destruct (list_eq_dec N.eq_dec a b); congruence.
Qed.

Example santitizeString_sample :
  santitizeString ([32; 13; 10]%N ++ js "MIIC" ++ [13; 10]%N ++ js "fzCC" ++ [13; 10; 9]%N)
  = js "MIIC" ++ [10%N] ++ js "fzCC".
Proof. reflexivity. Qed.

Example simulator_path_sample :
  regex_exec simulatorRegex
    (js "/Users/u/Library/Developer/CoreSimulator/Devices/ABC-1/data/Containers/Data/Application/XYZ/sonar/")
  = Some (MatchArray (js "/Devices/ABC-1/") [Some (js "ABC-1")]).
Proof. vm_compute. reflexivity. Qed.

Example verified_sample :
  regex_test verifiedRegex (js "/home/u/.flipper/certs/server.crt: OK") = true
  /\ regex_test verifiedRegex (js "error 20 at 0 depth lookup: unable to get local issuer certificate") = false.
Proof. vm_compute. split; reflexivity. Qed.

Lemma trimEnd_cons c t :
  trimEnd (c :: t) = if forallb isTrimmable (c :: t) then [] else c :: trimEnd t.
Proof.
  unfold trimEnd. simpl rev. rewrite dropWhile_app, forallb_rev.
  destruct (forallb isTrimmable t) eqn:Ht.
  - simpl. rewrite Ht, andb_true_r.
    rewrite (dropWhile_all isTrimmable (rev t)) by now rewrite forallb_rev.
    destruct (isTrimmable c); reflexivity.
  - simpl forallb. rewrite Ht, andb_false_r. now rewrite rev_app_distr.
Qed.

Lemma trimEnd_all x : forallb isTrimmable x = true -> trimEnd x = [].
Proof.
  intros H. unfold trimEnd. rewrite dropWhile_all; [reflexivity|].
  now rewrite forallb_rev.
Qed.

Lemma trimEnd_app x post :
  forallb isTrimmable post = true -> trimEnd (x ++ post) = trimEnd x.
Proof.
  intros H. unfold trimEnd. rewrite rev_app_distr, dropWhile_app.
  now rewrite forallb_rev, H.
Qed.

Lemma trim_pad pre x post :
  forallb isTrimmable pre = true -> forallb isTrimmable post = true ->
  trim (pre ++ x ++ post) = trim x.
Proof.
  intros Hpre Hpost. unfold trim, trimStart.
  rewrite dropWhile_app, Hpre, dropWhile_app.
  destruct (forallb isTrimmable x) eqn:Hx.
  - rewrite (dropWhile_all _ x Hx), (dropWhile_all _ post Hpost). reflexivity.
  - now apply trimEnd_app.
Qed.

Lemma trimStart_fixed x : trimStart (trimStart x) = trimStart x.
Proof.
  unfold trimStart. induction x as [|c t IH]; simpl; [reflexivity|].
  destruct (isTrimmable c) eqn:E; [exact IH|]. simpl. now rewrite E.
Qed.

Lemma trimStart_trimEnd z :
  trimStart z = z -> trimStart (trimEnd z) = trimEnd z.
Proof.
  destruct z as [|c t]; [reflexivity|].
  intros Hz. rewrite trimEnd_cons.
  destruct (forallb isTrimmable (c :: t)) eqn:Hall; [reflexivity|].
  unfold trimStart in *. simpl in *.
  destruct (isTrimmable c) eqn:Ec; [|reflexivity].
  exfalso.
  assert (Hlen : length (dropWhile isTrimmable t) <= length t).
  { clear. induction t as [|d t IH]; simpl; [lia|].
    destruct (isTrimmable d); simpl; lia. }
  rewrite Hz in Hlen. simpl in Hlen. lia.
Qed.

Lemma trimEnd_fixed z : trimEnd (trimEnd z) = trimEnd z.
Proof.
  unfold trimEnd. rewrite rev_involutive. f_equal.
  induction (rev z) as [|c t IH]; simpl; [reflexivity|].
  destruct (isTrimmable c) eqn:E; [exact IH|]. simpl. now rewrite E.
Qed.

Lemma trim_fixed x : trim (trim x) = trim x.
Proof.
  unfold trim.
  rewrite (trimStart_trimEnd (trimStart x) (trimStart_fixed x)).
  apply trimEnd_fixed.
Qed.

Lemma removeCR_app x y : removeCR (x ++ y) = removeCR x ++ removeCR y.
Proof. apply filter_app. Qed.

Lemma removeCR_free x : forallb noCR x = true -> removeCR x = x.
Proof.
  induction x as [|c t IH]; simpl; [reflexivity|].
  intros H. apply andb_true_iff in H as [Hc Ht].
  unfold noCR in Hc. rewrite Hc, IH by exact Ht. reflexivity.
Qed.

Lemma removeCR_noCR x : forallb noCR (removeCR x) = true.
Proof.
  induction x as [|c t IH]; simpl; [reflexivity|].
  destruct (negb (c =? CR)%N) eqn:E; simpl; [|exact IH].
  unfold noCR at 1. now rewrite E, IH.
Qed.

Lemma removeCR_trimmable x :
  forallb isTrimmable x = true -> forallb isTrimmable (removeCR x) = true.
Proof.
  induction x as [|c t IH]; simpl; [reflexivity|].
  intros H. apply andb_true_iff in H as [Hc Ht].
  destruct (negb (c =? CR)%N); simpl; [rewrite Hc|]; auto.
Qed.

Lemma trim_noCR x : forallb noCR x = true -> forallb noCR (trim x) = true.
Proof.
  intros H. unfold trim, trimEnd, trimStart.
  rewrite forallb_rev. apply forallb_dropWhile. rewrite forallb_rev.
  now apply forallb_dropWhile.
Qed.

Lemma santitizeString_fixed x : santitizeString (santitizeString x) = santitizeString x.
Proof.
  unfold santitizeString.
  rewrite removeCR_free by (apply trim_noCR, removeCR_noCR).
  apply trim_fixed.
Qed.

Lemma santitizeString_pad pre x post :
  forallb isTrimmable pre = true -> forallb isTrimmable post = true ->
  santitizeString (pre ++ x ++ post) = santitizeString x.
Proof.
  intros Hpre Hpost. unfold santitizeString.
  rewrite !removeCR_app. apply trim_pad; now apply removeCR_trimmable.
Qed.

Lemma santitizeString_CR a b :
  santitizeString (a ++ CR :: b) = santitizeString (a ++ b).
Proof.
  unfold santitizeString. rewrite !removeCR_app. simpl. reflexivity.
Qed.

(** C9. Sanitization is idempotent, and its result does not change when
    whitespace (anything [trim] strips) is added in front of or behind the
    input, or a carriage return anywhere inside it. *)
Theorem santitizeString_idempotent_invariant
  (x pre post a b : jsstring)
  (Hpre : forallb isTrimmable pre = true)
  (Hpost : forallb isTrimmable post = true) :
  santitizeString (santitizeString x) = santitizeString x
  /\ santitizeString (pre ++ x ++ post) = santitizeString x
  /\ santitizeString (a ++ CR :: b) = santitizeString (a ++ b).
Proof.
  split; [apply santitizeString_fixed|].
  split; [now apply santitizeString_pad | apply santitizeString_CR].
Qed.

Lemma santitizeString_idempotent_invariant_witness :
  let x := js "-----BEGIN CERTIFICATE REQUEST-----" in
  let pre := [32; 9; 13; 10; 160; 8232]%N in
  let post := [13; 10; 12288; 65279]%N in
  santitizeString (santitizeString x) = santitizeString x
  /\ santitizeString (pre ++ x ++ post) = santitizeString x
  /\ santitizeString (js "MIIC" ++ CR :: js "fzCC") = santitizeString (js "MIIC" ++ js "fzCC").
Proof.
  intros x pre post.
  apply (santitizeString_idempotent_invariant x pre post (js "MIIC") (js "fzCC"));
    reflexivity.
Defined.

(** ** Regular expressions *)

Section MatcherFacts.
Variable X : Type.

Lemma star_class_until_end (p : N -> bool) (k : cont X) :
  (forall x t c, k (x :: t) c = None) ->
  forall fuel rest c, length rest < fuel ->
    star_loop fuel (one (X:=X) p) rest c k =
    if forallb p rest then k [] c else None.
Proof.
  intros Hk fuel rest. revert fuel.
  induction rest as [|x t IH]; intros fuel c Hlen;
    (destruct fuel as [|f]; [simpl in Hlen; lia|]).
  - reflexivity.
  - simpl in Hlen. simpl star_loop. unfold one at 1. simpl forallb.
    destruct (p x); simpl.
    + replace (length t <? S (length t)) with true
        by (symmetry; apply Nat.ltb_lt; lia).
      rewrite IH by lia.
      destruct (forallb p t); [|apply Hk].
      destruct (k [] c); [reflexivity | apply Hk].
    + apply Hk.
Qed.
End MatcherFacts.

Lemma exec_from_unfold n r rest :
  exec_from n r rest =
  match rmatch n r rest [] (fun rest' c => Some (rest', c)) with
  | Some (rest', c) =>
      Some (MatchArray (firstn (length rest - length rest') rest)
              (map (fun i => cap_get i c) (seq 1 (ngroups r))))
  | None =>
      match rest with
      | [] => None
      | _ :: t => exec_from n r t
      end
  end.
Proof. destruct rest; reflexivity. Qed.

Lemma exec_from_bol_later n r rest :
  length rest < n -> exec_from n (Seq Bol r) rest = None.
Proof.
  induction rest as [|x t IH]; intros Hlen; rewrite exec_from_unfold.
  - simpl. destruct n; [simpl in Hlen; lia | reflexivity].
  - cbn [rmatch].
    replace (Nat.eqb (length (x :: t)) n) with false
      by (symmetry; apply Nat.eqb_neq; lia).
    apply IH. simpl in Hlen. lia.
Qed.

Lemma rmatch_seq X n a b rest c (k : cont X) :
  rmatch n (Seq a b) rest c k =
  rmatch n a rest c (fun rest' c' => rmatch n b rest' c' k).
Proof. reflexivity. Qed.

Lemma rmatch_set X n items rest c (k : cont X) :
  rmatch n (Set_ items) rest c k = one (in_items items) rest c k.
Proof. reflexivity. Qed.

Lemma rmatch_star_class X n items rest c (k : cont X) :
  (forall x t c, k (x :: t) c = None) ->
  rmatch n (Star (Set_ items)) rest c k =
  if forallb (in_items items) rest then k [] c else None.
Proof.
  intros Hk. cbn [rmatch].
  change (fun rest c k => one (in_items items) rest c k)
    with (one (X:=X) (in_items items)).
  apply star_class_until_end; [exact Hk | lia].
Qed.

(** A name passes [^[...]+$] when it is not empty and all of its units are
    in the class. *)
Lemma anchored_class_plus_test items s :
  regex_test (Seq Bol (Seq (Plus (Set_ items)) Eol)) s =
  negb (Nat.eqb (length s) 0) && forallb (in_items items) s.
Proof.
  unfold regex_test, regex_exec. rewrite exec_from_unfold.
  destruct s as [|x t]; [reflexivity|].
  rewrite rmatch_seq. cbn [rmatch]. rewrite Nat.eqb_refl.
  unfold Plus. rewrite !rmatch_seq, rmatch_set.
  cbn [one forallb length Nat.eqb negb andb].
  destruct (in_items items x) eqn:Hx.
  - rewrite rmatch_star_class by reflexivity.
    destruct (forallb (in_items items) t); [reflexivity|].
    rewrite exec_from_bol_later by (simpl; lia). reflexivity.
  - rewrite exec_from_bol_later by (simpl; lia). reflexivity.
Qed.

Ltac split_comparisons :=
  repeat match goal with
         | |- context [(?a =? ?b)%N] => destruct (a =? b)%N
         | |- context [(?a <=? ?b)%N] => destruct (a <=? b)%N
         end.

Lemma allowed_items_server c :
  in_items [CWord; CChar (ch "."); CChar (ch "-")] c = isAllowedAppNameChar c.
Proof.
  unfold in_items, isAllowedAppNameChar, isWordChar. cbn [existsb in_item].
  change (ch ".") with 46%N. change (ch "-") with 45%N.
  unfold isWordChar. split_comparisons; reflexivity.
Qed.

Lemma allowed_items_legacy c :
  in_items [CWord; CChar (ch "."); CChar (ch "_"); CChar (ch "-")] c =
  isAllowedAppNameChar c.
Proof.
  unfold in_items, isAllowedAppNameChar, isWordChar. cbn [existsb in_item].
  change (ch ".") with 46%N. change (ch "-") with 45%N.
  change (ch "_") with 95%N.
  unfold isWordChar. split_comparisons; reflexivity.
Qed.

Lemma forallb_pointwise (f g : N -> bool) (l : list N) :
  (forall c, f c = g c) -> forallb f l = forallb g l.
Proof.
  intros H. induction l as [|c t IH]; simpl; [reflexivity|].
  now rewrite H, IH.
Qed.

Lemma allowedAppNameRegex_server_test s :
  regex_test allowedAppNameRegex_server s =
  negb (Nat.eqb (length s) 0) && forallb isAllowedAppNameChar s.
Proof.
  unfold allowedAppNameRegex_server. rewrite anchored_class_plus_test.
  f_equal. apply forallb_pointwise, allowed_items_server.
Qed.

Lemma allowedAppNameRegex_legacy_test s :
  regex_test allowedAppNameRegex_legacy s =
  negb (Nat.eqb (length s) 0) && forallb isAllowedAppNameChar s.
Proof.
  unfold allowedAppNameRegex_legacy. rewrite anchored_class_plus_test.
  f_equal. apply forallb_pointwise, allowed_items_legacy.
Qed.

(** ** Running the providers symbolically *)

Lemma events_since_app {C} (s : St C) (w : World C) (new : list Event) :
  events_since s (mkSt w (trace s ++ new)) = new.
Proof.
  unfold events_since. simpl.
  rewrite skipn_app, Nat.sub_diag, skipn_all. reflexivity.
Qed.

Lemma events_since_refl {C} (s : St C) : events_since s s = [].
Proof. unfold events_since. apply skipn_all. Qed.

(** One step of a run: name the answer of the next collaborator call, or
    split on the outcome it gave. *)
Ltac is_next X :=
  lazymatch X with
  | (_, _) => fail
  | context [match _ with (_, _) => _ end] => fail
  | context [match _ with Ok _ => _ | Err _ => _ end] => fail
  | context [if _ then _ else _] => fail
  | context [match _ with Some _ => _ | None => _ end] => fail
  | _ => idtac
  end.

Ltac run_step :=
  cbv beta iota zeta in *; cbn [world trace] in *;
  match goal with
  | |- context [match ?X with (_, _) => _ end] =>
      is_next X; destruct X as [? ?] eqn:?
  | |- context [match ?X with Ok _ => _ | Err _ => _ end] =>
      is_next X; destruct X eqn:?
  | H : context [match ?X with (_, _) => _ end] |- _ =>
      is_next X; destruct X as [? ?] eqn:?
  | H : context [match ?X with Ok _ => _ | Err _ => _ end] |- _ =>
      is_next X; destruct X eqn:?
  end.

Ltac case_match :=
  match goal with
  | |- context [match ?X with _ => _ end] => destruct X eqn:?
  end.

Ltac unfold_calls :=
  unfold Common.getCACertificate in *;
  unfold Common.writeToTempFile, Common.tmpFile, Common.tmpDir,
    Common.writeFile, Common.readFile, Common.openssl, Common.unlink,
    Common.mkdir, Common.readdir, Common.pathExists, Common.now,
    Common.uuid, Common.console, Common.getCACertificate,
    bind, call, ask, ask_rec, emit, ret, throw, try_catch, await, settle in *.

(** C8. A request whose sanitized form is empty is rejected with the
    empty-CSR error by both providers, and nothing has happened by then: the
    world and the trace are the ones the call started from. *)
Theorem empty_request_rejected_first
  (C : Collab) (this : Server.CertificateProvider)
  (lthis : Legacy.CertificateProvider)
  (raw os appDirectory : jsstring)
  (medium : Server.CertificateExchangeMedium)
  (lmedium : Legacy.CertificateExchangeMedium) (s : St C)
  (Hempty : santitizeString raw = []) :
  Server.processCertificateSigningRequest C this raw os appDirectory medium s
    = (Err (EmptyCSR os), s)
  /\ Legacy.processCertificateSigningRequest C lthis raw os appDirectory lmedium s
    = (Err (EmptyCSR os), s).
Proof.
  unfold Server.processCertificateSigningRequest,
    Legacy.processCertificateSigningRequest.
  rewrite Hempty. split; reflexivity.
Qed.

Lemma empty_request_rejected_first_witness :
  let raw := [32; 13; 10; 9; 13]%N in
  Server.processCertificateSigningRequest Lab.collab Lab.server raw
    (js "Android") (js "/data/data/app/") Server.FS_ACCESS (Lab.start Lab.w0)
    = (Err (EmptyCSR (js "Android")), Lab.start Lab.w0)
  /\ Legacy.processCertificateSigningRequest Lab.collab Lab.legacy raw
    (js "Android") (js "/data/data/app/") Legacy.FS_ACCESS (Lab.start Lab.w0)
    = (Err (EmptyCSR (js "Android")), Lab.start Lab.w0).
Proof.
  intros raw.
  apply (empty_request_rejected_first Lab.collab Lab.server Lab.legacy raw
           (js "Android") (js "/data/data/app/") Server.FS_ACCESS
           Legacy.FS_ACCESS (Lab.start Lab.w0)).
  reflexivity.
Defined.

Lemma extractAppNameFromCSR_regex_ext (C : Collab) (r1 r2 : regex) :
  (forall name, regex_test r1 name = regex_test r2 name) ->
  forall csr s,
    Common.extractAppNameFromCSR C r1 csr s = Common.extractAppNameFromCSR C r2 csr s.
Proof.
  intros H csr s. unfold Common.extractAppNameFromCSR. unfold_calls.
  repeat run_step; try reflexivity.
  repeat (rewrite ?H; try reflexivity; case_match).
Qed.

(** C10. The allow-lists of the two providers accept the same names, and so
    [extractAppNameFromCSR] gives the same answer in both. *)
Theorem allowedAppNameRegex_variants_agree :
  (forall name : jsstring,
      regex_test allowedAppNameRegex_legacy name =
      regex_test allowedAppNameRegex_server name)
  /\ (forall (C : Collab) (csr : jsstring) (s : St C),
         Legacy.extractAppNameFromCSR C csr s = Server.extractAppNameFromCSR C csr s).
Proof.
  assert (H : forall name, regex_test allowedAppNameRegex_legacy name =
                           regex_test allowedAppNameRegex_server name).
  { intros name.
    now rewrite allowedAppNameRegex_legacy_test, allowedAppNameRegex_server_test. }
  split; [exact H|].
  intros C csr s. unfold Legacy.extractAppNameFromCSR, Server.extractAppNameFromCSR.
  apply extractAppNameFromCSR_regex_ext. exact H.
Qed.

(** ** The Common Name of a request *)

Section CaptureFacts.
Variable X : Type.
Variable Q : caps -> Prop.
Hypothesis Q_cons : forall e c, Q c -> Q (e :: c).

Lemma one_reaches p : reaches Q (one (X:=X) p).
Proof.
  intros rest c k x Hc H. unfold one in H.
  destruct rest as [|y t]; [discriminate|].
  destruct (p y); [eauto | discriminate].
Qed.

Lemma star_loop_reaches (step : matcher X) fuel :
  reaches Q step -> reaches Q (star_loop fuel step).
Proof.
  intros Hstep. induction fuel as [|f IH]; intros rest c k x Hc H.
  - simpl in H. eauto.
  - simpl in H.
    destruct (step rest c _) as [x'|] eqn:E.
    + injection H as ->.
      apply Hstep in E; [|exact Hc].
      destruct E as (rest' & c' & Hc' & E).
      destruct (Nat.ltb _ _); [|discriminate].
      eapply IH; eauto.
    + eauto.
Qed.

Lemma rmatch_reaches n r : reaches Q (rmatch (X:=X) n r).
Proof.
  induction r as [|items|items| |r1 IH1 r2 IH2|r1 IH1|r1 IH1|i r1 IH1| |];
    intros rest c k x Hc H; cbn [rmatch] in H.
  - eauto.
  - eapply one_reaches; eauto.
  - eapply one_reaches; eauto.
  - eapply one_reaches; eauto.
  - apply IH1 in H; [|exact Hc]. destruct H as (rest1 & c1 & Hc1 & H).
    eapply IH2; eauto.
  - destruct (rmatch n r1 rest c k) as [x'|] eqn:E.
    + injection H as ->. eapply IH1; eauto.
    + eauto.
  - eapply (star_loop_reaches (rmatch n r1)); eauto.
  - apply IH1 in H; [|exact Hc]. destruct H as (rest1 & c1 & Hc1 & H). eauto.
  - destruct (Nat.eqb _ _); [eauto | discriminate].
  - destruct rest; [eauto | discriminate].
Qed.
End CaptureFacts.

Lemma has_key_cons i e c : has_key i c -> has_key i (e :: c).
Proof.
  unfold has_key. destruct e as [j v]. simpl.
  destruct (Nat.eqb i j); [discriminate | auto].
Qed.

Lemma rmatch_group_key X n i r rest c (k : cont X) x :
  rmatch n (Group i r) rest c k = Some x ->
  exists rest' c', has_key i c' /\ k rest' c' = Some x.
Proof.
  intros H. cbn [rmatch] in H.
  apply (rmatch_reaches X (fun _ => True) (fun _ _ _ => I)) in H; auto.
  destruct H as (rest' & c' & _ & H).
  exists rest', ((i, firstn (length rest - length rest') rest) :: c').
  split; [|exact H]. unfold has_key. simpl. now rewrite Nat.eqb_refl.
Qed.

Lemma x509SubjectCNRegex_group1 n rest rest' c :
  rmatch n x509SubjectCNRegex rest [] (fun r c' => Some (r, c')) = Some (rest', c) ->
  has_key 1 c.
Proof.
  unfold x509SubjectCNRegex. intros H.
  do 3 (rewrite rmatch_seq in H;
        apply (rmatch_reaches _ (fun _ => True) (fun _ _ _ => I)) in H; auto;
        destruct H as (? & ? & _ & H)).
  rewrite rmatch_seq in H.
  apply rmatch_group_key in H. destruct H as (r1 & c1 & Hkey & H).
  apply (rmatch_reaches _ (has_key 1) (has_key_cons 1)) in H; auto.
  destruct H as (r2 & c2 & Hkey2 & H). now injection H as _ <-.
Qed.

Lemma exec_from_inv n r rest m :
  exec_from n r rest = Some m ->
  exists rest0 rest' c,
    rmatch n r rest0 [] (fun r' c' => Some (r', c')) = Some (rest', c)
    /\ groups m = map (fun i => cap_get i c) (seq 1 (ngroups r)).
Proof.
  induction rest as [|y t IH]; rewrite exec_from_unfold;
    destruct (rmatch n r _ [] _) as [[rest' c]|] eqn:E; intros H;
    try discriminate; try (injection H as <-; eauto 6).
  now apply IH.
Qed.

(** When the subject matches, group 1 took part and the array has three
    entries. *)
Lemma x509SubjectCNRegex_match subject m :
  regex_exec x509SubjectCNRegex subject = Some m ->
  match_length m = 3 /\ exists cn, match_group 1 m = Some cn.
Proof.
  intros H. apply exec_from_inv in H as (rest0 & rest' & c & H & Hg).
  apply x509SubjectCNRegex_group1 in H.
  unfold match_length, match_group. rewrite Hg. simpl. split; [reflexivity|].
  destruct (cap_get 1 c) as [cn|] eqn:E; [eauto|].
  now elim H.
Qed.

Example subjectCN_first : subjectCN (js "subject=CN=com.example.app,O=Example")
                          = Some (js "com.example.app").
Proof. vm_compute. reflexivity. Qed.

Example subjectCN_last : subjectCN (js "subject= O=Example,CN=com.example.app  ")
                         = Some (js "com.example.app").
Proof. vm_compute. reflexivity. Qed.

Example subjectCN_hostile : subjectCN (js "subject=CN=evil;rm -rf")
                            = Some (js "evil;rm -rf").
Proof. vm_compute. reflexivity. Qed.

Example subjectCN_absent : subjectCN (js "subject=O=Example,C=US") = None.
Proof. vm_compute. reflexivity. Qed.

Example subjectCN_empty : subjectCN (js "subject=CN=") = Some [].
Proof. vm_compute. reflexivity. Qed.

Example hostile_name_disallowed :
  regex_test allowedAppNameRegex_server (js "evil;rm -rf") = false
  /\ regex_test allowedAppNameRegex_legacy (js "evil;rm -rf") = false
  /\ regex_test allowedAppNameRegex_server (js "com.example_app-1") = true
  /\ regex_test allowedAppNameRegex_legacy (js "com.example_app-1") = true.
Proof. vm_compute. repeat split. Qed.

Lemma extractAppNameFromCSR_after_subject
  (C : Collab) (r : regex) (csr subject : jsstring) (s s1 : St C) :
  readSubject C csr s = (Ok subject, s1) ->
  Common.extractAppNameFromCSR C r csr s =
  match subjectCN subject with
  | None => (Err (CannotExtractCN subject), s1)
  | Some cn =>
      if regex_test r cn then (Ok cn, s1) else (Err (DisallowedAppName cn), s1)
  end.
Proof.
  unfold readSubject, Common.extractAppNameFromCSR, subjectCN. unfold_calls.
  intros H. repeat run_step; try discriminate.
  injection H as E1 E2. subst subject s1. cbn [world trace].
  match goal with
  | |- context [regex_exec x509SubjectCNRegex (trim ?j)] => rename j into subject
  end.
  destruct (regex_exec x509SubjectCNRegex (trim subject)) as [m|] eqn:E;
    [|reflexivity].
  apply x509SubjectCNRegex_match in E as [Hlen [cn Hcn]].
  rewrite Hlen, Hcn. simpl. destruct (regex_test r cn); reflexivity.
Qed.

(** ** The subject line *)

Section GreedyStar.
Variable X : Type.

(** A greedy iteration of a class before a continuation that cannot start
    with a unit of the class takes the longest run. *)
Lemma star_class_greedy (p : N -> bool) (k : cont X) :
  (forall x t c, p x = true -> k (x :: t) c = None) ->
  forall fuel rest c, length rest < fuel ->
    star_loop fuel (one (X:=X) p) rest c k = k (dropWhile p rest) c.
Proof.
  intros Hk fuel rest. revert fuel.
  induction rest as [|x t IH]; intros fuel c Hlen;
    (destruct fuel as [|f]; [simpl in Hlen; lia|]).
  - reflexivity.
  - simpl in Hlen. simpl star_loop. unfold one at 1. simpl dropWhile.
    destruct (p x) eqn:Hx.
    + replace (length t <? S (length t)) with true
        by (symmetry; apply Nat.ltb_lt; lia).
      rewrite IH by lia.
      destruct (k (dropWhile p t) c); [reflexivity | now apply Hk].
    + reflexivity.
Qed.
End GreedyStar.

Lemma firstn_takeWhile (p : N -> bool) (x : jsstring) :
  firstn (length x - length (dropWhile p x)) x = takeWhile p x.
Proof.
  induction x as [|c t IH]; [reflexivity|].
  simpl dropWhile. simpl takeWhile. destruct (p c).
  - assert (Hlen : length (dropWhile p t) <= length t).
    { clear. induction t as [|d t IH]; simpl; [lia|].
      destruct (p d); simpl; lia. }
    replace (length (c :: t) - length (dropWhile p t))
      with (S (length t - length (dropWhile p t))) by (cbn [length]; lia).
    cbn [firstn]. now rewrite IH.
  - now rewrite Nat.sub_diag.
Qed.

Lemma in_comma_set c : in_items [CChar (ch ",")] c = negb (notComma c).
Proof.
  unfold in_items, notComma, comma. simpl. now rewrite orb_false_r, negb_involutive.
Qed.

Lemma rmatch_tail n (post : jsstring) (c : caps) :
  rmatch n (Seq (Opt (Group 2 (Seq (Chr (ch ",")) (Star Dot)))) Eol) post c k0 =
  match post with
  | [] => Some ([], c)
  | x :: rest =>
      if notComma x then None
      else if forallb notLineTerminator rest
           then Some ([], (2, post) :: c) else None
  end.
Proof.
  unfold Chr. rewrite rmatch_seq. cbn [rmatch].
  destruct post as [|x rest]; [reflexivity|].
  cbn [one]. rewrite in_comma_set.
  destruct (notComma x); [reflexivity|]. cbn [negb].
  change (fun rest c k => one (fun x0 => negb (isLineTerminator x0)) rest c k)
    with (one (X:=jsstring * caps) notLineTerminator).
  rewrite star_class_until_end; [|intros; reflexivity|lia].
  destruct (forallb notLineTerminator rest); [|reflexivity].
  unfold k0. cbn [length Nat.sub firstn]. now rewrite firstn_all.
Qed.

Lemma rmatch_group X n i r rest c (k : cont X) :
  rmatch n (Group i r) rest c k =
  rmatch n r rest c
    (fun rest' c' => k rest' ((i, firstn (length rest - length rest') rest) :: c')).
Proof. reflexivity. Qed.

Lemma rmatch_star_notset X n items rest c (k : cont X) :
  rmatch n (Star (NotSet items)) rest c k =
  star_loop (S (length rest)) (one (fun x => negb (in_items items x))) rest c k.
Proof. reflexivity. Qed.

Lemma rmatch_afterCN n (after : jsstring) :
  rmatch n afterCN after [] k0 =
  match dropWhile notComma after with
  | [] => Some ([], [(1, takeWhile notComma after)])
  | x :: rest =>
      if forallb notLineTerminator rest
      then Some ([], [(2, x :: rest); (1, takeWhile notComma after)])
      else None
  end.
Proof.
  unfold afterCN. rewrite rmatch_seq, rmatch_group, rmatch_star_notset.
  assert (Hp : forall l, dropWhile (fun x => negb (in_items [CChar (ch ",")] x)) l
                         = dropWhile notComma l).
  { induction l as [|y l IH]; cbn [dropWhile]; [reflexivity|].
    rewrite in_comma_set, negb_involutive, IH. reflexivity. }
  rewrite star_class_greedy.
  - rewrite Hp, firstn_takeWhile, rmatch_tail.
    destruct (dropWhile notComma after) as [|x rest] eqn:E; [reflexivity|].
    assert (Hx : notComma x = false).
    { clear - E. induction after as [|y l IH]; simpl in E; [discriminate|].
      destruct (notComma y) eqn:Ey; [auto|]. now injection E as <- _. }
    now rewrite Hx.
  - intros x t c Hx. rewrite rmatch_tail.
    rewrite in_comma_set, negb_involutive in Hx. now rewrite Hx.
  - lia.
Qed.

Lemma rmatch_lit3 X n (x y z : N) (R : regex) (line : jsstring) (c : caps)
  (k : cont X) :
  rmatch n (Seq (Lit [x; y; z]) R) line c k =
  match line with
  | a :: b :: d :: after =>
      if ((a =? x) && (b =? y) && (d =? z))%N then rmatch n R after c k else None
  | _ => None
  end.
Proof.
  cbn [Lit]. unfold Chr. rewrite !rmatch_seq.
  destruct line as [|a line]; [reflexivity|].
  rewrite rmatch_set. cbn [one in_items existsb in_item]. rewrite orb_false_r.
  destruct (a =? x)%N; [|destruct line as [|? [|? ?]]; reflexivity].
  rewrite rmatch_seq.
  destruct line as [|b line]; [reflexivity|].
  rewrite rmatch_set. cbn [one in_items existsb in_item]. rewrite orb_false_r.
  destruct (b =? y)%N; [|destruct line as [|? ?]; reflexivity].
  rewrite rmatch_seq.
  destruct line as [|d line]; [reflexivity|].
  rewrite rmatch_set. cbn [one in_items existsb in_item]. rewrite orb_false_r.
  destruct (d =? z)%N; reflexivity.
Qed.

Lemma trimmable_not_C x : isTrimmable x = true -> (x =? ch "C")%N = false.
Proof.
  intros H. destruct (N.eqb_spec x (ch "C")) as [->|]; [discriminate H | reflexivity].
Qed.

Lemma separator_items c :
  in_items [CChar (ch "="); CChar (ch ",")] c = isSeparator c.
Proof.
  unfold in_items, isSeparator, equals, comma. simpl. now rewrite orb_false_r.
Qed.

Lemma dropWhile_pointwise (p q : N -> bool) (l : jsstring) :
  (forall c, p c = q c) -> dropWhile p l = dropWhile q l.
Proof.
  intros H. induction l as [|c t IH]; simpl; [reflexivity|].
  now rewrite H, IH.
Qed.

Lemma rmatch_star_set X n items rest c (k : cont X) :
  rmatch n (Star (Set_ items)) rest c k =
  star_loop (S (length rest)) (one (in_items items)) rest c k.
Proof. reflexivity. Qed.

(** One attempt of [x509SubjectCNRegex] at a position of the line. *)
Lemma x509SubjectCNRegex_attempt n (c0 : N) (tail : jsstring) :
  if isSeparator c0 then
    match cn_attempt tail with
    | Some cn =>
        exists rest' caps,
          rmatch n x509SubjectCNRegex (c0 :: tail) [] k0 = Some (rest', caps)
          /\ cap_get 1 caps = Some cn
    | None => rmatch n x509SubjectCNRegex (c0 :: tail) [] k0 = None
    end
  else rmatch n x509SubjectCNRegex (c0 :: tail) [] k0 = None.
Proof.
  unfold x509SubjectCNRegex. rewrite rmatch_seq, rmatch_set. cbn [one].
  rewrite separator_items. destruct (isSeparator c0); [|reflexivity].
  rewrite rmatch_seq, rmatch_star_set.
  change (js "CN=") with [ch "C"; ch "N"; equals].
  rewrite star_class_greedy.
  - rewrite (dropWhile_pointwise (in_items [CSpace]) isTrimmable)
      by (intros x; unfold in_items; simpl; apply orb_false_r).
    rewrite rmatch_lit3. unfold cn_attempt.
    destruct (dropWhile isTrimmable tail) as [|a [|b [|d after]]]; try reflexivity.
    destruct ((a =? ch "C") && (b =? ch "N") && (d =? equals))%N; [|reflexivity].
    fold afterCN. rewrite rmatch_afterCN.
    destruct (dropWhile notComma after) as [|x rest]; [eauto|].
    destruct (forallb notLineTerminator rest); [|reflexivity].
    eexists _, _. split; reflexivity.
  - intros x t c Hx. rewrite rmatch_lit3.
    assert (Hws : isTrimmable x = true).
    { unfold in_items in Hx. simpl in Hx. now rewrite orb_false_r in Hx. }
    rewrite (trimmable_not_C x Hws). destruct t as [|? [|? ?]]; reflexivity.
  - lia.
Qed.

Lemma x509SubjectCNRegex_none n :
  rmatch n x509SubjectCNRegex [] [] k0 = None.
Proof. reflexivity. Qed.

(** The matcher and the scan of the line find the same Common Name. *)
Lemma x509SubjectCNRegex_scan n (line : jsstring) :
  match exec_from n x509SubjectCNRegex line with
  | Some matches => match_group 1 matches
  | None => None
  end = cn_scan line.
Proof.
  induction line as [|c0 tail IH]; rewrite exec_from_unfold; fold k0.
  - rewrite x509SubjectCNRegex_none. reflexivity.
  - pose proof (x509SubjectCNRegex_attempt n c0 tail) as H. cbn [cn_scan].
    destruct (isSeparator c0).
    + destruct (cn_attempt tail) as [cn|].
      * destruct H as (rest' & caps & -> & Hcap).
        unfold match_group. cbn [groups]. simpl. exact Hcap.
      * rewrite H. exact IH.
    + rewrite H. exact IH.
Qed.

Lemma subjectCN_scan (subject : jsstring) :
  subjectCN subject = cn_scan (trim subject).
Proof. unfold subjectCN, regex_exec. apply x509SubjectCNRegex_scan. Qed.

(** *** Subject lines of plain attributes *)

Lemma cn_scan_skip (l rest : jsstring) :
  forallb notSeparator l = true -> cn_scan (l ++ rest) = cn_scan rest.
Proof.
  induction l as [|c t IH]; [reflexivity|].
  cbn [forallb app cn_scan]. unfold notSeparator at 1.
  intros H. apply andb_true_iff in H as [Hc Ht].
  destruct (isSeparator c); [discriminate|]. now apply IH.
Qed.

Lemma forallb_weaken (p q : N -> bool) (l : jsstring) :
  (forall c, p c = true -> q c = true) -> forallb p l = true -> forallb q l = true.
Proof.
  intros H. induction l as [|c t IH]; [reflexivity|].
  cbn [forallb]. intros Hl. apply andb_true_iff in Hl as [Hc Ht].
  now rewrite (H c Hc), IH.
Qed.

Lemma plain_key_unit_inv c :
  plain_key_unit c = true -> isSeparator c = false /\ isTrimmable c = false.
Proof.
  unfold plain_key_unit. intros H. apply andb_true_iff in H as [H1 H2].
  split; now apply negb_true_iff.
Qed.

Lemma plain_value_unit_inv c :
  plain_value_unit c = true -> isSeparator c = false /\ isLineTerminator c = false.
Proof.
  unfold plain_value_unit. intros H. apply andb_true_iff in H as [H1 H2].
  split; now apply negb_true_iff.
Qed.

Lemma not_separator_inv c :
  isSeparator c = false -> (c =? equals)%N = false /\ (c =? comma)%N = false.
Proof. unfold isSeparator. intros H. now apply orb_false_iff in H. Qed.

Lemma takeWhile_app (p : N -> bool) (v post : jsstring) :
  forallb p v = true ->
  takeWhile p (v ++ post) = v ++ takeWhile p post.
Proof.
  induction v as [|c t IH]; [reflexivity|].
  cbn [forallb app takeWhile]. intros H. apply andb_true_iff in H as [Hc Ht].
  now rewrite Hc, IH.
Qed.

Lemma after_value (v post : jsstring) :
  forallb plain_value_unit v = true -> closes post ->
  dropWhile notComma (v ++ post) = post
  /\ takeWhile notComma (v ++ post) = v.
Proof.
  intros Hv Hpost.
  assert (Hc : forallb notComma v = true).
  { revert Hv. apply forallb_weaken. intros c Hc.
    apply plain_value_unit_inv in Hc as [Hs _].
    apply not_separator_inv in Hs as [_ Hs]. unfold notComma. now rewrite Hs. }
  rewrite dropWhile_app, Hc, takeWhile_app by exact Hc.
  destruct Hpost as [->|(t & -> & _)].
  - now rewrite app_nil_r.
  - cbn [dropWhile takeWhile]. unfold notComma at 1 3. rewrite N.eqb_refl.
    cbn [negb]. now rewrite app_nil_r.
Qed.

Lemma cn_attempt_at_key (k v post : jsstring) :
  forallb plain_key_unit k = true ->
  forallb plain_value_unit v = true ->
  closes post ->
  cn_attempt (k ++ equals :: v ++ post) =
  if str_eqb k (js "CN") then Some v else None.
Proof.
  intros Hk Hv Hpost. unfold cn_attempt.
  assert (Hdrop : dropWhile isTrimmable (k ++ equals :: v ++ post)
                  = k ++ equals :: v ++ post).
  { destruct k as [|a k']; [reflexivity|].
    cbn [forallb] in Hk. apply andb_true_iff in Hk as [Ha _].
    apply plain_key_unit_inv in Ha as [_ Ha]. cbn [app dropWhile]. now rewrite Ha. }
  rewrite Hdrop. clear Hdrop.
  destruct k as [|a [|b [|c k']]]; cbn [app].
  - destruct (v ++ post) as [|? [|? ?]]; reflexivity.
  - rewrite str_eqb_neq by discriminate.
    destruct (v ++ post) as [|? ?]; [reflexivity|].
    change (equals =? ch "N")%N with false. now rewrite andb_false_r.
  - rewrite N.eqb_refl, andb_true_r.
    destruct (N.eqb_spec a (ch "C")) as [->|Ha];
      [destruct (N.eqb_spec b (ch "N")) as [->|Hb]|]; cbn [andb].
    + change (str_eqb [ch "C"; ch "N"] (js "CN")) with true. cbv iota.
      destruct (after_value v post Hv Hpost) as [-> ->].
      destruct Hpost as [->|(t & -> & Ht)]; [reflexivity|]. now rewrite Ht.
    + rewrite str_eqb_neq; [reflexivity|]. intros [= E]. now elim Hb.
    + rewrite str_eqb_neq; [reflexivity|]. intros [= E]. now elim Ha.
  - rewrite str_eqb_neq by discriminate.
    cbn [forallb] in Hk. apply andb_true_iff in Hk as [_ Hk].
    apply andb_true_iff in Hk as [_ Hk]. apply andb_true_iff in Hk as [Hc _].
    apply plain_key_unit_inv in Hc as [Hc _].
    apply not_separator_inv in Hc as [Hc _]. now rewrite Hc, andb_false_r.
Qed.

Lemma ends_plain_not_all (v : jsstring) :
  ends_plain v = true -> forallb isTrimmable v = true -> v = [].
Proof.
  unfold ends_plain. intros He Hall. rewrite <- (forallb_rev isTrimmable) in Hall.
  destruct (rev v) as [|c l] eqn:E.
  - apply (f_equal (@rev N)) in E. now rewrite rev_involutive in E.
  - cbn [forallb] in Hall. apply andb_true_iff in Hall as [Hc _].
    rewrite Hc in He. discriminate.
Qed.

Lemma cn_attempt_at_value (v post : jsstring) :
  forallb plain_value_unit v = true -> ends_plain v = true -> closes post ->
  cn_attempt (v ++ post) = None.
Proof.
  intros Hv He Hpost. unfold cn_attempt. rewrite dropWhile_app.
  destruct (forallb isTrimmable v) eqn:Hall.
  - destruct Hpost as [->|(t & -> & _)]; [reflexivity|].
    cbn [dropWhile]. change (isTrimmable comma) with false. cbv iota.
    destruct t as [|? [|? ?]]; reflexivity.
  - pose proof (forallb_dropWhile isTrimmable plain_value_unit v Hv) as Hu.
    destruct (dropWhile isTrimmable v) as [|a [|b [|c u]]] eqn:E; cbn [app].
    + exfalso. clear - Hall E.
      induction v as [|x v IH]; [discriminate|].
      cbn [forallb dropWhile] in *. destruct (isTrimmable x); [auto | discriminate].
    + destruct Hpost as [->|(t & -> & _)]; [reflexivity|].
      destruct t as [|? ?]; [reflexivity|].
      change (comma =? ch "N")%N with false. now rewrite andb_false_r.
    + destruct Hpost as [->|(t & -> & _)]; [reflexivity|].
      change (comma =? equals)%N with false. now rewrite andb_false_r.
    + cbn [forallb] in Hu. apply andb_true_iff in Hu as [_ Hu].
      apply andb_true_iff in Hu as [_ Hu]. apply andb_true_iff in Hu as [Hc _].
      apply plain_value_unit_inv in Hc as [Hc _].
      apply not_separator_inv in Hc as [Hc _]. now rewrite Hc, andb_false_r.
Qed.

Lemma plain_attribute_inv a :
  plain_attribute a = true ->
  forallb plain_key_unit (key a) = true
  /\ forallb plain_value_unit (value a) = true
  /\ ends_plain (value a) = true.
Proof.
  unfold plain_attribute. intros H.
  apply andb_true_iff in H as [H H3]. apply andb_true_iff in H as [H1 H2]. auto.
Qed.

Lemma render_no_line_terminator (attrs : list Attribute) :
  forallb plain_attribute attrs = true ->
  forallb notLineTerminator (render_attributes attrs) = true.
Proof.
  induction attrs as [|a rest IH]; [reflexivity|].
  cbn [forallb render_attributes]. intros H.
  apply andb_true_iff in H as [Ha Hrest].
  apply plain_attribute_inv in Ha as (Hk & Hv & _).
  unfold render_attribute. rewrite <- app_assoc. cbn [app].
  rewrite forallb_app. cbn [forallb]. rewrite forallb_app.
  assert (Hk' : forallb notLineTerminator (key a) = true).
  { revert Hk. apply forallb_weaken. intros c Hc.
    apply plain_key_unit_inv in Hc as [_ Hc]. unfold notLineTerminator.
    unfold isTrimmable in Hc. apply orb_false_iff in Hc as [_ Hc]. now rewrite Hc. }
  assert (Hv' : forallb notLineTerminator (value a) = true).
  { revert Hv. apply forallb_weaken. intros c Hc.
    apply plain_value_unit_inv in Hc as [_ Hc]. unfold notLineTerminator.
    now rewrite Hc. }
  rewrite Hk', Hv'. change (notLineTerminator equals) with true. cbn [andb].
  destruct rest as [|b rest]; [reflexivity|].
  cbn [forallb]. change (notLineTerminator comma) with true. cbn [andb].
  exact (IH Hrest).
Qed.

Lemma plain_key_no_separator k :
  forallb plain_key_unit k = true -> forallb notSeparator k = true.
Proof.
  apply forallb_weaken. intros c Hc. apply plain_key_unit_inv in Hc as [Hc _].
  unfold notSeparator. now rewrite Hc.
Qed.

Lemma plain_value_no_separator v :
  forallb plain_value_unit v = true -> forallb notSeparator v = true.
Proof.
  apply forallb_weaken. intros c Hc. apply plain_value_unit_inv in Hc as [Hc _].
  unfold notSeparator. now rewrite Hc.
Qed.

(** Scanning from a separator in front of the attributes finds the value of
    the first attribute whose key is CN. *)
Lemma cn_scan_attributes (attrs : list Attribute) :
  forallb plain_attribute attrs = true ->
  forall sep, isSeparator sep = true ->
    cn_scan (sep :: render_attributes attrs) = commonName attrs.
Proof.
  induction attrs as [|a rest IH]; intros Hplain sep Hsep.
  - cbn [cn_scan render_attributes]. rewrite Hsep. reflexivity.
  - cbn [forallb] in Hplain. apply andb_true_iff in Hplain as [Ha Hrest].
    apply plain_attribute_inv in Ha as (Hk & Hv & He).
    cbn [render_attributes]. unfold render_attribute.
    rewrite <- app_assoc. cbn [app].
    set (post := match rest with
                 | [] => []
                 | _ :: _ => comma :: render_attributes rest
                 end).
    assert (Hpost : closes post).
    { subst post. destruct rest as [|b rest]; [now left|]. right.
      eexists. split; [reflexivity|]. now apply render_no_line_terminator. }
    cbn [cn_scan]. rewrite Hsep.
    rewrite (cn_attempt_at_key (key a) (value a) post Hk Hv Hpost).
    unfold commonName. cbn [find].
    destruct (str_eqb (key a) (js "CN")); [reflexivity|].
    rewrite cn_scan_skip by now apply plain_key_no_separator.
    cbn [cn_scan]. unfold isSeparator at 1. rewrite N.eqb_refl. cbn [orb].
    rewrite (cn_attempt_at_value (value a) post Hv He Hpost).
    rewrite cn_scan_skip by now apply plain_value_no_separator.
    subst post. destruct rest as [|b rest]; [reflexivity|].
    apply (IH Hrest). unfold isSeparator. rewrite N.eqb_refl. apply orb_true_r.
Qed.

Lemma ends_plain_app (x y : jsstring) :
  ends_plain (x ++ y) = match y with [] => ends_plain x | _ :: _ => ends_plain y end.
Proof.
  destruct y as [|c y]; [now rewrite app_nil_r|].
  unfold ends_plain. rewrite rev_app_distr.
  destruct (rev (c :: y)) as [|d l] eqn:E; [|reflexivity].
  apply (f_equal (@length N)) in E. rewrite length_rev in E. discriminate.
Qed.

Lemma render_ends_plain (attrs : list Attribute) :
  forallb plain_attribute attrs = true -> ends_plain (render_attributes attrs) = true.
Proof.
  induction attrs as [|a rest IH]; [reflexivity|].
  cbn [forallb render_attributes]. intros H.
  apply andb_true_iff in H as [Ha Hrest].
  apply plain_attribute_inv in Ha as (_ & _ & He).
  destruct rest as [|b rest].
  - rewrite app_nil_r. unfold render_attribute.
    change (key a ++ equals :: value a) with (key a ++ [equals] ++ value a).
    rewrite app_assoc, ends_plain_app.
    destruct (value a); [|exact He].
    rewrite ends_plain_app. reflexivity.
  - rewrite ends_plain_app.
    change (comma :: render_attributes (b :: rest))
      with ([comma] ++ render_attributes (b :: rest)).
    rewrite ends_plain_app.
    specialize (IH Hrest).
    destruct (render_attributes (b :: rest)) eqn:E; [|exact IH]. reflexivity.
Qed.

Lemma trimEnd_ends_plain (x : jsstring) : ends_plain x = true -> trimEnd x = x.
Proof.
  unfold ends_plain, trimEnd. intros H.
  destruct (rev x) as [|c l] eqn:E.
  - apply (f_equal (@rev N)) in E. now rewrite rev_involutive in E.
  - cbn [dropWhile]. apply negb_true_iff in H. rewrite H.
    rewrite <- E. apply rev_involutive.
Qed.

Lemma trim_subject_line (attrs : list Attribute) :
  forallb plain_attribute attrs = true ->
  trim (subject_line attrs) = subject_line attrs.
Proof.
  intros H. unfold trim, subject_line.
  change (js "subject=") with ([115%N] ++ js "ubject=").
  rewrite <- app_assoc. cbn [app trimStart dropWhile]. 
  change (isTrimmable 115) with false. cbv iota.
  apply trimEnd_ends_plain.
  change (115%N :: js "ubject=" ++ render_attributes attrs)
    with (js "subject=" ++ render_attributes attrs).
  rewrite ends_plain_app.
  pose proof (render_ends_plain attrs H) as He.
  destruct (render_attributes attrs); [reflexivity | exact He].
Qed.

(** For a subject line of plain attributes, the Common Name the providers
    extract is the value of the first attribute whose key is CN. *)
Lemma subjectCN_subject_line (attrs : list Attribute) :
  forallb plain_attribute attrs = true ->
  subjectCN (subject_line attrs) = commonName attrs.
Proof.
  intros H. rewrite subjectCN_scan, trim_subject_line by exact H.
  unfold subject_line.
  change (js "subject=") with (js "subject" ++ [equals]).
  rewrite <- app_assoc. rewrite cn_scan_skip by reflexivity.
  apply cn_scan_attributes; [exact H | reflexivity].
Qed.

Example commonName_sample :
  subjectCN (subject_line [ {| key := js "O"; value := js "Menlo Park" |};
                            {| key := js "CN"; value := js "com.example.app" |};
                            {| key := js "C"; value := js "US" |} ])
  = Some (js "com.example.app").
Proof. now rewrite subjectCN_subject_line. Qed.




(** ** The authority manager *)

Ltac use_calls :=
  repeat (cbv beta iota zeta; cbn [world trace fst snd];
          match goal with
          | H : ?f = (_, _) |- context [?f] => rewrite H
          end);
  cbv beta iota zeta; cbn [world trace fst snd].

Lemma checkEndDate_run
  (C : Collab) (filename out : jsstring) (w2 w3 w4 : World C) (tr : list Event)
  (expiry t : Z) :
  openssl_exec C (js "x509") (enddateOptions filename) w2 = (Ok out, w3) ->
  parsedEndDate C out = Some expiry ->
  Date_now C w3 = (t, w4) ->
  Common.checkEndDate C filename (mkSt w2 tr) =
  (if (t + 86400 * 1000 <? expiry)%Z then Ok tt else Err CertExpired,
   mkSt w4 (tr ++ [EvOpenssl (js "x509") (enddateOptions filename); EvDateNow])).
Proof.
  unfold enddateOptions, parsedEndDate, Common.checkEndDate. unfold_calls.
  intros Hend Hparse Hnow. use_calls.
  destruct (nth_error _ 1) as [part|]; [|discriminate].
  rewrite Hparse. use_calls. rewrite <- app_assoc. cbn [app].
  change (minCertExpiryWindowSeconds * 1000)%Z with (86400 * 1000)%Z.
  destruct (Z.leb_spec expiry (t + 86400 * 1000)), (Z.ltb_spec (t + 86400 * 1000) expiry);
    try reflexivity; lia.
Qed.

(** C3 (amended). Both providers look for the certificate file first and
    reject a file that is absent, with nothing else done. For a file that is
    there, the quick check is run. Server provider: when the quick check
    passes the certificate is accepted, and that is the end of the run: the
    end date is not read; when the quick check fails a warning is logged and
    the end date is read, and for an end date that can be parsed the
    certificate is rejected exactly when expiry <= now + 86400 s; so with a
    quick check that only passes certificates outside the window it is
    rejected exactly when expiry <= now + 86400 s. Legacy provider: there is
    no fallback; a failing quick check is logged and rethrown, and the end
    date is not read; after a passing quick check the end date is read and
    the certificate is rejected exactly when expiry <= now + 86400 s. *)
Theorem checkCertIsValid_decision
  (C : Collab) (filename : jsstring) (s : St C) (present : bool) (w1 : World C)
  (Hexists : fs_pathExists C filename (world s) = (present, w1)) :
  let probe := EvPathExists filename in
  let quickCall := EvOpenssl (js "x509") (checkendOptions filename) in
  let dateCall := EvOpenssl (js "x509") (enddateOptions filename) in
  let serverWarning := EvConsole LWarn (js "Checking if certificate expire soon: ") in
  let legacyWarning := EvConsole LWarn (js "Certificate will expire soon: ") in
  let server := Server.checkCertIsValid C filename s in
  let legacy := Legacy.checkCertIsValid C filename s in
  if present then
    forall quick w2,
      openssl_exec C (js "x509") (checkendOptions filename) w1 = (quick, w2) ->
      (is_ok quick = true ->
       server = (Ok tt, mkSt w2 (trace s ++ [probe; quickCall])))
      /\ (forall e, quick = Err e ->
            legacy = (Err e, mkSt w2 (trace s ++ [probe; quickCall; legacyWarning])))
      /\ (forall out w3 expiry t w4,
            openssl_exec C (js "x509") (enddateOptions filename) w2 = (Ok out, w3) ->
            parsedEndDate C out = Some expiry ->
            Date_now C w3 = (t, w4) ->
            let outside := (t + 86400 * 1000 <? expiry)%Z in
            let verdict := if outside then Ok tt else Err CertExpired in
            (is_ok quick = false ->
             server = (verdict,
                       mkSt w4 (trace s ++ [probe; quickCall; serverWarning;
                                            dateCall; EvDateNow])))
            /\ (is_ok quick = true ->
                legacy = (verdict,
                          mkSt w4 (trace s ++ [probe; quickCall; dateCall;
                                               EvDateNow])))
            /\ is_ok (fst server) = is_ok quick || outside
            /\ ((is_ok quick = true -> outside = true) ->
                is_ok (fst server) = outside)
            /\ is_ok (fst legacy) = is_ok quick && outside)
  else
    server = (Err (DoesNotExist filename), mkSt w1 (trace s ++ [probe]))
    /\ legacy = (Err (DoesNotExist filename), mkSt w1 (trace s ++ [probe])).
Proof.
  intros probe quickCall dateCall serverWarning legacyWarning server legacy.
  subst probe quickCall dateCall serverWarning legacyWarning server legacy.
  unfold Server.checkCertIsValid, Legacy.checkCertIsValid, checkendOptions in *.
  unfold_calls. use_calls.
  destruct present; cbn [negb]; [|split; reflexivity].
  intros quick w2 Hquick. use_calls.
  destruct quick as [q|e]; cbn [is_ok orb andb world trace].
  - split; [intros _; now rewrite <- app_assoc|].
    split; [discriminate|].
    intros out w3 expiry t w4 Hend Hparse Hnow.
    rewrite (checkEndDate_run C filename out w2 w3 w4 _ expiry t Hend Hparse Hnow).
    cbn [fst].
    split; [discriminate|].
    split; [intros _; now rewrite <- !app_assoc|].
    split; [reflexivity|].
    split; [intros H; symmetry; now apply H|].
    destruct (t + 86400 * 1000 <? expiry)%Z; reflexivity.
  - split; [discriminate|].
    split; [intros e' [= ->]; now rewrite <- !app_assoc|].
    intros out w3 expiry t w4 Hend Hparse Hnow.
    rewrite (checkEndDate_run C filename out w2 w3 w4 _ expiry t Hend Hparse Hnow).
    cbn [fst].
    split; [intros _; now rewrite <- !app_assoc|].
    split; [discriminate|].
    split; [destruct (t + 86400 * 1000 <? expiry)%Z; reflexivity|].
    split; [intros _; destruct (t + 86400 * 1000 <? expiry)%Z; reflexivity|].
    reflexivity.
Qed.

Lemma checkCertIsValid_decision_witness :
  let quick := Err (External (js "Certificate will expire")) in
  let w := Lab.with_toolkit Lab.w0 quick (Ok (js "notAfter=900000000"))
             (Ok (js "server.crt: OK")) in
  let cert := Common.serverCert Lab.collab in
  fst (Server.checkCertIsValid Lab.collab cert (Lab.start w)) = Ok tt
  /\ fst (Legacy.checkCertIsValid Lab.collab cert (Lab.start w))
     = Err (External (js "Certificate will expire")).
Proof.
  intros quick w cert.
  pose proof (checkCertIsValid_decision Lab.collab cert (Lab.start w) true
                w eq_refl) as H.
  cbv beta iota zeta in H.
  destruct (H quick w eq_refl) as (_ & Hlegacy & Hdate).
  destruct (Hdate (js "notAfter=900000000") w 900000000%Z 1000%Z w
              eq_refl eq_refl eq_refl) as (Hserver & _).
  split.
  - rewrite (Hserver eq_refl). reflexivity.
  - rewrite (Hlegacy _ eq_refl). reflexivity.
Defined.

(** C3, as stated, fails on the legacy provider: a certificate whose parsed
    end date is beyond the guard window does not pass when the quick check
    failed. *)
Lemma legacy_checkCertIsValid_has_no_fallback :
  ~ (forall (C : Collab) (filename out : jsstring) (s : St C)
            (w1 w2 w3 w4 : World C) (e : error) (expiry t : Z),
        fs_pathExists C filename (world s) = (true, w1) ->
        openssl_exec C (js "x509") (checkendOptions filename) w1 = (Err e, w2) ->
        openssl_exec C (js "x509") (enddateOptions filename) w2 = (Ok out, w3) ->
        parsedEndDate C out = Some expiry ->
        Date_now C w3 = (t, w4) ->
        (t + 86400 * 1000 < expiry)%Z ->
        fst (Legacy.checkCertIsValid C filename s) = Ok tt).
Proof.
  intros H.
  pose (w := Lab.with_toolkit Lab.w0 (Err (External (js "Certificate will expire")))
               (Ok (js "notAfter=900000000")) (Ok (js "server.crt: OK"))).
  specialize (H Lab.collab (Common.serverCert Lab.collab)
                (js "notAfter=900000000") (Lab.start w) w w w w
                (External (js "Certificate will expire")) 900000000%Z 1000%Z
                eq_refl eq_refl eq_refl eq_refl eq_refl eq_refl).
  vm_compute in H. discriminate H.
Qed.

(** How [generateServerCertificate] runs, for either provider. *)
Lemma generateServerCertificate_run
  (C : Collab) (check : jsstring -> M C unit) (st : St C) :
  Common.generateServerCertificate C check st =
  match Common.ensureCertificateAuthorityExists C check st with
  | (Ok _, s1) => regenerated C s1
  | (Err e, s1) => (Err e, s1)
  end.
Proof.
  unfold Common.generateServerCertificate, regenerated, toolkit,
    generateServerKey, requestServerCert, signServerCert, creatingServerCert.
  unfold_calls.
  destruct (Common.ensureCertificateAuthorityExists C check st) as [[[]|e] s1];
    [|reflexivity].
  repeat run_step; rewrite <- ?app_assoc; reflexivity.
Qed.

Lemma regenerated_signs (C : Collab) (s1 st' : St C) :
  regenerated C s1 = (Ok tt, st') ->
  exists w,
    st' = mkSt w (trace s1 ++ [creatingServerCert; generateServerKey C;
                               requestServerCert C; signServerCert C]).
Proof.
  unfold regenerated. intros H. repeat run_step; try discriminate.
  injection H as <-. eauto.
Qed.

(** The expiry check of the server provider when the quick check passes. *)
Lemma server_checkCertIsValid_quick
  (C : Collab) (filename q : jsstring) (s : St C) (w1 w2 : World C) :
  fs_pathExists C filename (world s) = (true, w1) ->
  openssl_exec C (js "x509") (checkendOptions filename) w1 = (Ok q, w2) ->
  Server.checkCertIsValid C filename s
  = (Ok tt, mkSt w2 (trace s ++ [EvPathExists filename;
                                 EvOpenssl (js "x509") (checkendOptions filename)])).
Proof.
  intros Hthere Hquick. unfold Server.checkCertIsValid, checkendOptions in *.
  unfold_calls. use_calls. cbn [negb]. use_calls. now rewrite <- app_assoc.
Qed.

(** The same when the quick check fails and the end date can be parsed. *)
Lemma server_checkCertIsValid_fallback
  (C : Collab) (filename out : jsstring) (s : St C) (e : error)
  (w1 w2 w3 w4 : World C) (expiry t : Z) :
  fs_pathExists C filename (world s) = (true, w1) ->
  openssl_exec C (js "x509") (checkendOptions filename) w1 = (Err e, w2) ->
  openssl_exec C (js "x509") (enddateOptions filename) w2 = (Ok out, w3) ->
  parsedEndDate C out = Some expiry ->
  Date_now C w3 = (t, w4) ->
  Server.checkCertIsValid C filename s
  = (if (t + 86400 * 1000 <? expiry)%Z then Ok tt else Err CertExpired,
     mkSt w4 (trace s ++ [EvPathExists filename;
                          EvOpenssl (js "x509") (checkendOptions filename);
                          EvConsole LWarn (js "Checking if certificate expire soon: ");
                          EvOpenssl (js "x509") (enddateOptions filename);
                          EvDateNow])).
Proof.
  intros Hthere Hquick Hend Hparse Hnow.
  unfold Server.checkCertIsValid, checkendOptions in *.
  unfold_calls. use_calls. cbn [negb]. use_calls.
  rewrite (checkEndDate_run C filename out w2 w3 w4 _ expiry t Hend Hparse Hnow).
  now rewrite <- !app_assoc.
Qed.

Lemma server_ensureServerCertExists_run
  (C : Collab) (s : St C) (w1 w2 w3 w4 : World C)
  (valid : Res unit) (s2 : St C) (answer : Res jsstring) :
  fs_pathExists C (Common.serverKey C) (world s) = (true, w1) ->
  fs_pathExists C (Common.serverCert C) w1 = (true, w2) ->
  fs_pathExists C (Common.caCert C) w2 = (true, w3) ->
  Server.checkCertIsValid C (Common.serverCert C)
    (mkSt w3 (trace s ++ [EvPathExists (Common.serverKey C);
                          EvPathExists (Common.serverCert C);
                          EvPathExists (Common.caCert C)]))
  = (valid, s2) ->
  openssl_exec C (js "verify") (verifyOptions C) (world s2) = (answer, w4) ->
  Server.ensureServerCertExists C s =
    (if is_ok valid
     then if issuedByCA answer
          then (Ok tt, mkSt w4 (trace s2 ++ [EvOpenssl (js "verify") (verifyOptions C)]))
          else Server.generateServerCertificate C
                 (warned (mkSt w4 (trace s2 ++ [EvOpenssl (js "verify")
                                                  (verifyOptions C)])))
     else Server.generateServerCertificate C (warned s2)).
Proof.
  intros Hkey Hcert Hca Hvalid Hverify.
  unfold Server.ensureServerCertExists, Promise_all. cbn [settle_all map].
  unfold Common.verifyServerCertWasIssuedByCA, verifyOptions, warned in *.
  unfold_calls. use_calls. cbn [collect forallb negb andb].
  rewrite <- !app_assoc. cbn [app]. rewrite Hvalid.
  destruct valid as [[]|e]; cbn [is_ok];
    [|cbn [world trace]; rewrite <- ?app_assoc; reflexivity].
  use_calls.
  destruct answer as [output|e]; cbn [issuedByCA world trace];
    [|rewrite <- ?app_assoc; reflexivity].
  unfold regex_test.
  destruct (regex_exec verifiedRegex output);
    cbn [world trace]; rewrite <- ?app_assoc; reflexivity.
Qed.

(** C1. When the server key, the server certificate and the CA certificate
    are all there, [ensureServerCertExists] runs the expiry check on the
    server certificate and then the chain verification against the CA on
    disk, and regenerates the server certificate if either fails.
    The expiry check is the real one: a certificate whose quick check passes
    goes on to the verification, and one whose quick check fails and whose
    end date lies within 86400 s of the current time is regenerated without
    verification. The verification is the toolkit's, against the CA
    certificate on disk: the certificate is kept, with nothing else done,
    exactly when the answer says OK; in particular a certificate that passes
    the expiry check and is not verified is regenerated. To regenerate is to
    ensure the certificate authority and then to make a server key, a
    request with it and a certificate signed with the CA on disk: when the
    certificate authority is ensured and the toolkit does not reject these
    three calls, the regeneration resolves and they are its last calls. *)
Theorem ensureServerCertExists_checks_expiry_and_chain
  (C : Collab) (s : St C) (w1 w2 w3 : World C)
  (Hkey : fs_pathExists C (Common.serverKey C) (world s) = (true, w1))
  (Hcert : fs_pathExists C (Common.serverCert C) w1 = (true, w2))
  (Hca : fs_pathExists C (Common.caCert C) w2 = (true, w3)) :
  let cert := Common.serverCert C in
  let s0 := mkSt w3 (trace s ++ [EvPathExists (Common.serverKey C);
                                 EvPathExists cert;
                                 EvPathExists (Common.caCert C)]) in
  let verify := EvOpenssl (js "verify") (verifyOptions C) in
  let chain (st : St C) : Res unit * St C :=
    let (answer, w) := toolkit C verify (world st) in
    if issuedByCA answer then (Ok tt, mkSt w (trace st ++ [verify]))
    else Server.generateServerCertificate C (warned (mkSt w (trace st ++ [verify]))) in
  let run := Server.ensureServerCertExists C s in
  (forall valid s2,
      Server.checkCertIsValid C cert s0 = (valid, s2) ->
      run = if is_ok valid then chain s2
            else Server.generateServerCertificate C (warned s2))
  /\ (forall w4 quick w5,
        fs_pathExists C cert w3 = (true, w4) ->
        openssl_exec C (js "x509") (checkendOptions cert) w4 = (quick, w5) ->
        let checked := trace s0 ++ [EvPathExists cert;
                                    EvOpenssl (js "x509") (checkendOptions cert)] in
        (is_ok quick = true -> run = chain (mkSt w5 checked))
        /\ (forall out w6 expiry t w7,
              is_ok quick = false ->
              openssl_exec C (js "x509") (enddateOptions cert) w5 = (Ok out, w6) ->
              parsedEndDate C out = Some expiry ->
              Date_now C w6 = (t, w7) ->
              let dated :=
                mkSt w7 (checked
                         ++ [EvConsole LWarn (js "Checking if certificate expire soon: ");
                             EvOpenssl (js "x509") (enddateOptions cert);
                             EvDateNow]) in
              run = if (t + 86400 * 1000 <? expiry)%Z then chain dated
                    else Server.generateServerCertificate C (warned dated)))
  /\ (forall st : St C,
        Server.generateServerCertificate C st =
        match Server.ensureCertificateAuthorityExists C st with
        | (Ok _, s1) => regenerated C s1
        | (Err e, s1) => (Err e, s1)
        end)
  /\ (forall (s1 : St C) key w4 request w5 signed w6,
        toolkit C (generateServerKey C) (world s1) = (Ok key, w4) ->
        toolkit C (requestServerCert C) w4 = (Ok request, w5) ->
        toolkit C (signServerCert C) w5 = (Ok signed, w6) ->
        regenerated C s1
        = (Ok tt, mkSt w6 (trace s1 ++ [creatingServerCert; generateServerKey C;
                                        requestServerCert C; signServerCert C])))
  /\ (forall st st' : St C,
        Server.generateServerCertificate C st = (Ok tt, st') ->
        exists tr,
          trace st' = tr ++ [generateServerKey C; requestServerCert C;
                             signServerCert C]).
Proof.
  intros cert s0 verify chain run.
  assert (Hrun : forall valid s2,
             Server.checkCertIsValid C cert s0 = (valid, s2) ->
             run = if is_ok valid then chain s2
                   else Server.generateServerCertificate C (warned s2)).
  { intros valid s2 Hvalid. subst run chain verify. cbv beta.
    unfold toolkit.
    destruct (openssl_exec C (js "verify") (verifyOptions C) (world s2))
      as [answer w4] eqn:Hverify.
    exact (server_ensureServerCertExists_run C s w1 w2 w3 w4 valid s2 answer
             Hkey Hcert Hca Hvalid Hverify). }
  split; [exact Hrun|]. split; [|split; [|split]].
  - intros w4 quick w5 Hthere Hquick checked. split.
    + destruct quick as [q|e]; [intros _|discriminate].
      exact (Hrun _ _ (server_checkCertIsValid_quick C cert q s0 w4 w5 Hthere Hquick)).
    + intros out w6 expiry t w7 Hfail Hend Hparse Hnow dated.
      destruct quick as [q|e]; [discriminate|].
      pose proof (Hrun _ _ (server_checkCertIsValid_fallback C cert out s0 e
                              w4 w5 w6 w7 expiry t Hthere Hquick Hend Hparse Hnow))
        as H.
      subst dated checked. rewrite <- app_assoc. cbn [app].
      destruct (t + 86400 * 1000 <? expiry)%Z; exact H.
  - intros st. apply generateServerCertificate_run.
  - intros s1 key w4 request w5 signed w6 H1 H2 H3. unfold regenerated.
    now rewrite H1, H2, H3.
  - intros st st' H.
    unfold Server.generateServerCertificate in H.
    rewrite generateServerCertificate_run in H.
    destruct (Common.ensureCertificateAuthorityExists C _ st) as [[[]|e] s1];
      [|discriminate].
    apply regenerated_signs in H as (w & ->). cbn [trace].
    exists (trace s1 ++ [creatingServerCert]). now rewrite <- app_assoc.
Qed.

Lemma ensureServerCertExists_checks_expiry_and_chain_witness :
  let w := Lab.with_toolkit Lab.w0 (Ok []) (Ok (js "notAfter=900000000"))
             (Ok (js "error 20 at 0 depth lookup: unable to get local issuer certificate")) in
  let C := Lab.collab in
  let run := Server.ensureServerCertExists C (Lab.start w) in
  fst run = Ok tt
  /\ exists tr,
       trace (snd run) = tr ++ [generateServerKey C; requestServerCert C;
                                signServerCert C].
Proof.
  intros w C run.
  destruct (ensureServerCertExists_checks_expiry_and_chain C (Lab.start w)
              w w w eq_refl eq_refl eq_refl) as (_ & Hcheck & _ & _ & Hsigned).
  cbv beta zeta in Hcheck.
  pose proof (proj1 (Hcheck w (Ok []) w eq_refl eq_refl) eq_refl) as Hrun.
  assert (Hok : run = (Ok tt, snd run)) by (vm_compute; reflexivity).
  split; [now rewrite Hok|].
  eapply Hsigned. rewrite <- Hok. unfold run. rewrite Hrun.
  reflexivity.
Defined.

(** ** Device identity *)

Lemma Promise_all_map_caught
  (C : Collab) (A B K : Type) (f : A -> M C B) (g : B -> K) (h : A -> K) :
  (forall a s, exists b s', f a s = (Ok b, s') /\ g b = h a) ->
  forall (l : list A) (s : St C),
    exists bs s', Promise_all (map f l) s = (Ok bs, s') /\ map g bs = map h l.
Proof.
  intros Hf l. unfold Promise_all.
  induction l as [|a l IH]; intros s.
  - exists [], s. split; reflexivity.
  - destruct (Hf a s) as (b & s1 & Ef & Eg).
    destruct (IH s1) as (bs & s2 & El & Egs).
    exists (b :: bs), s2. cbn [map settle_all]. unfold bind, settle, ret, await in *.
    rewrite Ef.
    destruct (settle_all (map f l) s1) as [[rs|e] s3] eqn:E; [|discriminate].
    destruct (collect rs) as [bs'|e] eqn:Ec; [|discriminate].
    injection El as -> ->. cbn [collect]. rewrite Ec.
    split; [reflexivity|]. cbn [map]. now rewrite Eg, Egs.
Qed.

(** The check of one Android device never rejects: its outcome is an entry
    of the array, with the error kept in it. *)
Lemma androidDeviceMatch_caught
  (C : Collab) (this : Server.CertificateProvider)
  (appName path csr : jsstring) (device : Device) (s : St C) :
  exists entry s',
    Server.androidDeviceMatch C this appName path csr device s = (Ok entry, s')
    /\ Server.am_id entry = id device.
Proof.
  unfold Server.androidDeviceMatch, try_catch, bind, ret.
  destruct (Server.androidDeviceHasMatchingCSR C this path (id device) appName csr s)
    as [[result|e] s1].
  - eauto.
  - unfold Common.console, emit. eauto.
Qed.

(** What the check of one Android device gathers, from what the pull gave. *)
Lemma androidDeviceMatch_outcome
  (C : Collab) (this : Server.CertificateProvider)
  (appName path csr : jsstring) (device : Device) (s : St C)
  (pulled : Res jsstring) (w : World C) :
  Server.adb C this s = (Ok tt, s) ->
  androidUtil_pull C (id device) appName (path ++ csrFileName) (world s) = (pulled, w) ->
  fst (Server.androidDeviceMatch C this appName path csr device s)
  = Ok (android_entry (id device) csr pulled).
Proof.
  intros Hadb Hpull.
  unfold Server.androidDeviceMatch, Server.androidDeviceHasMatchingCSR,
    android_entry, Common.console, try_catch, bind, ret, call, emit.
  rewrite Hadb, Hpull. destruct pulled; reflexivity.
Qed.

Lemma getTargetAndroidDeviceId_run
  (C : Collab) (this : Server.CertificateProvider)
  (appName path csr : jsstring) (s s2 : St C)
  (devices : list Device) (w1 : World C) (entries : list Server.AndroidMatch) :
  Server.adb C this s = (Ok tt, s) ->
  adb_listDevices C (world s) = (Ok devices, w1) ->
  Promise_all (map (Server.androidDeviceMatch C this appName path csr) devices)
    (mkSt w1 (trace s ++ [EvAdbListDevices])) = (Ok entries, s2) ->
  Server.getTargetAndroidDeviceId C this appName path csr s =
  match devices with
  | [] => (Err NoAndroidDevicesFound, mkSt w1 (trace s ++ [EvAdbListDevices]))
  | _ :: _ =>
      match filter Server.am_isMatch entries with
      | [] =>
          match find errored entries with
          | Some {| Server.am_error := Some e |} => (Err e, s2)
          | _ =>
              match collect (map Server.encodeFoundCsr
                               (filter Server.hasFoundCsr entries)) with
              | Err e => (Err e, s2)
              | Ok foundCsrs =>
                  match encodeURI (santitizeString csr) with
                  | Err e => (Err e, s2)
                  | Ok looking =>
                      (Err (NoMatchingDevice appName),
                       mkSt (world s2)
                         (trace s2 ++ [EvConsole LWarn
                                         (Server.lookingForCsr looking foundCsrs)]))
                  end
              end
          end
      | [m] => (Ok (Server.am_id m), s2)
      | m :: _ => (Ok (Server.am_id m), mkSt (world s2) (trace s2 ++ [ambiguityWarning]))
      end
  end.
Proof.
  intros Hadb Hlist Hall.
  unfold Server.getTargetAndroidDeviceId, ambiguityWarning.
  unfold bind at 1. unfold bind at 1. rewrite Hadb.
  unfold call. rewrite Hlist.
  destruct devices as [|device devices]; [reflexivity|].
  cbn [length Nat.eqb]. unfold bind at 1. rewrite Hall.
  change (fun d => match Server.am_error d with
                   | Some _ => true | None => false end) with errored.
  destruct (filter Server.am_isMatch entries) as [|m [|m' ms]];
    cbn [map length Nat.eqb]; try reflexivity.
  assert (Hnone :
            (foundCsrs <- await (collect (map Server.encodeFoundCsr
                                            (filter Server.hasFoundCsr entries))) ;;
             looking <- await (encodeURI (santitizeString csr)) ;;
             Common.console C LWarn (Server.lookingForCsr looking foundCsrs) ;;;
             throw (NoMatchingDevice appName)) s2
            = match collect (map Server.encodeFoundCsr
                               (filter Server.hasFoundCsr entries)) with
              | Err e => (Err e, s2)
              | Ok foundCsrs =>
                  match encodeURI (santitizeString csr) with
                  | Err e => (Err e, s2)
                  | Ok looking =>
                      (Err (NoMatchingDevice appName),
                       mkSt (world s2)
                         (trace s2 ++ [EvConsole LWarn
                                         (Server.lookingForCsr looking foundCsrs)]))
                  end
              end :> Res jsstring * St C).
  { unfold bind, await, throw, Common.console, emit.
    destruct (collect _) as [foundCsrs|e]; [|reflexivity].
    destruct (encodeURI _) as [looking|e]; reflexivity. }
  destruct (find errored entries) as [[i b f [e|]]|]; [reflexivity| |];
    exact Hnone.
Qed.

Lemma Promise_all_In
  (C : Collab) (A B : Type) (f : A -> M C B) :
  forall (l : list A) (s s' : St C) (bs : list B),
    Promise_all (map f l) s = (Ok bs, s') ->
    forall b, In b bs -> exists a st st', In a l /\ f a st = (Ok b, st').
Proof.
  unfold Promise_all, bind, await.
  induction l as [|a l IH]; intros s s' bs H b Hb.
  - cbn in H. injection H as <- _. destruct Hb.
  - cbn [map settle_all] in H. unfold bind, settle, ret in H.
    destruct (f a s) as [r s1] eqn:Ef.
    destruct (settle_all (map f l) s1) as [[rs|e] s2] eqn:E; [|discriminate].
    destruct r as [b0|e]; cbn [collect] in H; [|discriminate].
    destruct (collect rs) as [bs'|e] eqn:Ec; [|discriminate].
    injection H as <- <-. destruct Hb as [<-|Hb].
    + exists a, s, s1. split; [now left | exact Ef].
    + assert (Hrest : (let (r, s'0) := settle_all (map f l) s1 in
                       match r with
                       | Ok a0 => (collect a0, s'0)
                       | Err e => (Err e, s'0)
                       end) = (Ok bs', s2)) by now rewrite E, Ec.
      destruct (IH s1 s2 bs' Hrest b Hb) as (a' & st & st' & Hin & Hf).
      exists a', st, st'. split; [now right | exact Hf].
Qed.

(** The entry gathered for a device comes from the pull of its copy. *)
Lemma androidDeviceMatch_from_pull
  (C : Collab) (this : Server.CertificateProvider)
  (appName path csr : jsstring) (device : Device) (st st' : St C)
  (entry : Server.AndroidMatch) :
  (forall s0 : St C, Server.adb C this s0 = (Ok tt, s0)) ->
  Server.androidDeviceMatch C this appName path csr device st = (Ok entry, st') ->
  exists pulled w,
    androidUtil_pull C (id device) appName (path ++ csrFileName) (world st)
    = (pulled, w)
    /\ entry = android_entry (id device) csr pulled.
Proof.
  intros Hadb H.
  destruct (androidUtil_pull C (id device) appName (path ++ csrFileName) (world st))
    as [pulled w] eqn:Hpull.
  exists pulled, w. split; [reflexivity|].
  pose proof (androidDeviceMatch_outcome C this appName path csr device st
                pulled w (Hadb st) Hpull) as Hout.
  rewrite H in Hout. cbn [fst] in Hout. now injection Hout.
Qed.

Lemma noSurrogate_inv (c : N) :
  noSurrogate c = true -> isLowSurrogate c = false /\ isHighSurrogate c = false.
Proof.
  unfold noSurrogate. intros H. apply negb_true_iff, orb_false_iff in H.
  tauto.
Qed.

(** A text without surrogates can be URL-encoded. *)
Lemma encodeURI_ok (text : jsstring) :
  forallb noSurrogate text = true -> exists r, encodeURI text = Ok r.
Proof.
  induction text as [|c t IH]; [now exists []|].
  cbn [forallb]. intros H. apply andb_true_iff in H as [Hc Ht].
  destruct (IH Ht) as (r & Hr). apply noSurrogate_inv in Hc as [Hlow Hhigh].
  cbn [encodeURI]. rewrite Hr, Hlow, Hhigh.
  destruct (isURIUnescaped c); eauto.
Qed.

Lemma collect_all_ok {A B} (f : A -> Res B) (l : list A) :
  (forall a, In a l -> exists b, f a = Ok b) ->
  exists bs, collect (map f l) = Ok bs.
Proof.
  induction l as [|a l IH]; intros H; [now exists []|].
  destruct (H a) as (b & Hb); [now left|].
  destruct IH as (bs & Hbs); [intros a' Ha'; apply H; now right|].
  exists (b :: bs). cbn [map collect]. now rewrite Hb, Hbs.
Qed.

Lemma no_match_outcome_encodable (appName csr : jsstring)
  (entries : list Server.AndroidMatch) :
  encodable csr entries ->
  no_match_outcome appName csr entries = Err (NoMatchingDevice appName).
Proof.
  intros [Hcsr Hfound]. unfold no_match_outcome.
  destruct (collect_all_ok Server.encodeFoundCsr
              (filter Server.hasFoundCsr entries)) as (bs & ->).
  - intros d Hd. apply filter_In in Hd as [Hd _]. unfold Server.encodeFoundCsr.
    destruct (Server.am_foundCsr d) as [[|c t]|] eqn:E; eauto.
    apply encodeURI_ok. exact (Hfound d (c :: t) Hd E).
  - destruct (encodeURI_ok _ Hcsr) as (r & ->). reflexivity.
Qed.

Lemma getTargetAndroidDeviceId_follows_policy : AndroidPathFollowsPolicy.
Proof.
  intros C this appName path csr s Hadb. split.
  - intros w1 Hlist.
    rewrite (getTargetAndroidDeviceId_run C this appName path csr s
               (mkSt w1 (trace s ++ [EvAdbListDevices])) [] w1 []
               (Hadb s) Hlist eq_refl).
    reflexivity.
  - intros device devices w1 Hlist.
    destruct (Promise_all_map_caught C _ _ _
                (Server.androidDeviceMatch C this appName path csr)
                Server.am_id id
                (androidDeviceMatch_caught C this appName path csr)
                (device :: devices) (mkSt w1 (trace s ++ [EvAdbListDevices])))
      as (entries & s2 & Hall & Hids).
    exists entries, s2. split; [exact Hall|]. split; [exact Hids|].
    split.
    { intros entry Hentry.
      destruct (Promise_all_In C _ _ _ _ _ _ _ Hall entry Hentry)
        as (d & st & st' & Hd & Hrun).
      destruct (androidDeviceMatch_from_pull C this appName path csr d st st'
                  entry Hadb Hrun) as (pulled & w & Hpull & ->).
      exists d, st, pulled, w. auto. }
    rewrite (getTargetAndroidDeviceId_run C this appName path csr s s2
               (device :: devices) w1 entries (Hadb s) Hlist Hall).
    unfold resolution_policy, resolution_outcome.
    destruct (filter Server.am_isMatch entries) as [|m [|m' ms]].
    + assert (Hrun :
                fst (match find errored entries with
                     | Some {| Server.am_error := Some e |} => (Err e, s2)
                     | _ =>
                         match collect (map Server.encodeFoundCsr
                                          (filter Server.hasFoundCsr entries)) with
                         | Err e => (Err e, s2)
                         | Ok foundCsrs =>
                             match encodeURI (santitizeString csr) with
                             | Err e => (Err e, s2)
                             | Ok looking =>
                                 (Err (NoMatchingDevice appName),
                                  mkSt (world s2)
                                    (trace s2 ++
                                     [EvConsole LWarn
                                        (Server.lookingForCsr looking foundCsrs)]))
                             end
                         end
                     end)
                = match find errored entries with
                  | Some {| Server.am_error := Some e |} => Err e
                  | _ => no_match_outcome appName csr entries
                  end).
      { unfold no_match_outcome.
        destruct (find errored entries) as [[i b f [e|]]|]; try reflexivity;
          (destruct (collect _); [|reflexivity]);
          destruct (encodeURI _); reflexivity. }
      split; [exact Hrun|]. split; [|intros H; inversion H].
      intros Henc. rewrite Hrun, (no_match_outcome_encodable _ _ _ Henc).
      reflexivity.
    + split; [reflexivity|]. split; [reflexivity|]. simpl. intros H. lia.
    + split; [reflexivity|]. split; [reflexivity|]. intros _. reflexivity.
Qed.

Lemma collect_rejects {A} (rs : list (Res A)) :
  (exists e, In (Err e) rs) -> exists e, In (Err e) rs /\ collect rs = Err e.
Proof.
  induction rs as [|r rs IH]; intros [e He]; [destruct He|].
  destruct r as [a|e0].
  - destruct He as [He|He]; [discriminate|].
    destruct IH as (e' & Hin & Hc); [eauto|].
    exists e'. split; [now right|]. cbn [collect]. now rewrite Hc.
  - exists e0. split; [now left | reflexivity].
Qed.

Lemma getTargetiOSDeviceId_rejects_on_any_error : IOSPathRejectsOnAnyError.
Proof.
  intros C this appName path csr s s2 target targets w1 settled Hsim Htargets
    Hsettled Herr.
  destruct (collect_rejects settled Herr) as (e & Hin & Hc).
  exists e. split; [exact Hin|].
  unfold Server.getTargetiOSDeviceId. rewrite Hsim.
  unfold bind at 1. unfold call. rewrite Htargets. cbn [length Nat.eqb].
  unfold bind at 1. unfold Promise_all, bind, await. rewrite Hsettled, Hc.
  reflexivity.
Qed.

(** C4 (the code at the failing input). The Android path follows the
    claimed policy whenever the texts it logs can be URL-encoded, each entry
    coming from the pull of a device's copy of the request. The iOS path does
    not: exactly one iOS target holds the request and another target cannot
    be read, and the iOS resolution rejects with the pull error instead of
    returning the matching target. With both targets readable the same
    target is returned, and the Android resolution returns the matching
    device on the same devices. On the Android path a request with a lone
    surrogate that no device matches is rejected with the URI error of the
    warning instead of the no-matching-device error. *)
Theorem iOS_single_match_lost_to_pull_error :
  AndroidPathFollowsPolicy
  /\ (let C := Lab.collab in
      fst (Server.getTargetiOSDeviceId C Lab.server Bench.appName
             Bench.appDirectory Lab.csr0 (Lab.start Bench.matchThenError))
        = Err (External (js "pull failed"))
      /\ fst (Server.getTargetiOSDeviceId C Lab.server Bench.appName
                Bench.appDirectory Lab.csr0 (Lab.start Bench.matchAndOther))
        = Ok (js "A")
      /\ fst (Server.getTargetAndroidDeviceId C Lab.server Bench.appName
                Bench.appDirectory Lab.csr0 (Lab.start Bench.matchThenError))
        = Ok (js "A")
      /\ fst (Server.getTargetAndroidDeviceId C Lab.server Bench.appName
                Bench.appDirectory (js "-----BEGIN" ++ [55296%N])
                (Lab.start Bench.matchAndOther))
        = Err URIError
      /\ fst (Server.getTargetAndroidDeviceId C Lab.server Bench.appName
                Bench.appDirectory (js "-----BEGIN")
                (Lab.start Bench.matchAndOther))
        = Err (NoMatchingDevice Bench.appName)).
Proof.
  split; [exact getTargetAndroidDeviceId_follows_policy|].
  vm_compute. repeat split.
Qed.

(** C5 (the code at the failing input). On the Android path the check of
    every device is caught on its own and becomes an entry of the array. On
    the iOS path it is not, and a rejected check rejects the resolution: with
    a first target that cannot be read and a second that holds the request,
    the check of the second target does find the match, the Android
    resolution returns the second device, and the iOS resolution rejects
    with the error of the first. *)
Theorem iOS_fanout_is_not_isolated :
  (forall (C : Collab) (this : Server.CertificateProvider)
          (appName path csr : jsstring) (device : Device) (s : St C),
      exists entry s',
        Server.androidDeviceMatch C this appName path csr device s = (Ok entry, s')
        /\ Server.am_id entry = id device)
  /\ IOSPathRejectsOnAnyError
  /\ (let C := Lab.collab in
      let s := Lab.start Bench.errorThenMatch in
      fst (Server.iOSDeviceMatch C Lab.server Bench.appName Bench.appDirectory
             Lab.csr0 {| udid := js "B" |} s)
        = Ok {| Server.im_id := js "B"; Server.im_isMatch := true |}
      /\ fst (Server.getTargetAndroidDeviceId C Lab.server Bench.appName
                Bench.appDirectory Lab.csr0 s)
        = Ok (js "B")
      /\ fst (Server.getTargetiOSDeviceId C Lab.server Bench.appName
                Bench.appDirectory Lab.csr0 s)
        = Err (External (js "pull failed"))).
Proof.
  split; [exact androidDeviceMatch_caught|].
  split; [exact getTargetiOSDeviceId_rejects_on_any_error|].
  vm_compute. repeat split.
Qed.

(** ** The exchange *)

Ltac run_test :=
  cbv beta iota zeta in *; cbn [world trace] in *;
  match goal with
  | H : context [if ?b then _ else _] |- _ => is_next b; destruct b eqn:?
  | H : context [match ?X with Some _ => _ | None => _ end] |- _ =>
      is_next X; destruct X eqn:?
  end.

Lemma extends_snoc (tr base new : list Event) (e : Event) :
  tr = base ++ new -> tr ++ [e] = base ++ (new ++ [e]).
Proof. intros ->. now rewrite app_assoc. Qed.

Lemma extends_refl (base : list Event) : base = base ++ [].
Proof. now rewrite app_nil_r. Qed.

Lemma events_since_extends {C} (s : St C) (w : World C) (tr new : list Event) :
  tr = trace s ++ new -> events_since s (mkSt w tr) = new.
Proof. intros ->. apply events_since_app. Qed.

(** Read the events a run added off its final trace. *)
Ltac normalize_trace :=
  match goal with
  | |- context [events_since ?s (mkSt ?w ?T)] =>
      let H := fresh "Htrace" in
      eassert (H : T = trace s ++ _)
        by (repeat apply extends_snoc; apply extends_refl);
      rewrite (events_since_extends s w T _ H); clear H; cbn [app]
  | _ => rewrite ?events_since_refl
  end.

Ltac run_goal_test :=
  cbv beta iota zeta; cbn [world trace];
  match goal with
  | |- context [if ?b then _ else _] => is_next b; destruct b eqn:?
  | |- context [match ?X with Some _ => _ | None => _ end] =>
      is_next X; destruct X eqn:?
  end.

Ltac in_events := cbn [In]; repeat first [left; reflexivity | right].

Ltac find_subseq :=
  repeat first [apply sub_nil | apply sub_take | apply sub_skip].

Lemma ends_here (tail : list Event) : tail = [] ++ tail.
Proof. reflexivity. Qed.

Lemma ends_later (e : Event) (l staged tail : list Event) :
  l = staged ++ tail -> e :: l = (e :: staged) ++ tail.
Proof. now intros ->. Qed.

(** Cut a list of events before its last four. *)
Ltac cut_tail :=
  repeat first [ apply (ends_here [_; _; _; _]) | apply ends_later ].

Lemma processCertificateSigningRequest_WWW
  (C : Collab) (this : Server.CertificateProvider)
  (raw os appDirectory : jsstring) (s : St C) :
  let (r, s') :=
    Server.processCertificateSigningRequest C this raw os appDirectory Server.WWW s in
  WWW_exchange r (events_since s s').
Proof.
  unfold Server.processCertificateSigningRequest,
    Server.deployOrStageFileForMobileApp, Server.extractAppNameFromCSR,
    Common.extractAppNameFromCSR, Common.generateClientCertificate,
    Common.ensureOpenSSLIsAvailable, Server.uploadFiles,
    Common.reportPlatformFailures.
  cbn [Server.is_WWW Server.is_FS_ACCESS]. unfold_calls.
  repeat first [run_step | run_goal_test].
  all: normalize_trace.
  all: unfold WWW_exchange;
    cbn [split_upload forallb isDeviceEvent negb andb is_ok
           before endpoint device settled after].
  all: split; [reflexivity|]; split; [intros deviceId [= <-]; in_events|].
  all: try reflexivity.
  all: split; [unfold staged_and_archived; do 4 eexists; cbv zeta;
               split; [cut_tail|find_subseq]|].
  all: split; [reflexivity|].
  all: unfold uploadTimeoutMessage, exchanged;
    match goal with
    | H : Common.timeout _ ?p _ = _ |- _ => destruct p; cbn [fst snd]; rewrite H
    end;
    cbn [is_ok]; split; reflexivity.
Qed.

(** An exchange over the WWW medium whose earlier steps resolve ends with
    the archive and the upload. *)
Lemma processCertificateSigningRequest_upload
  (C : Collab) (this : Server.CertificateProvider)
  (raw os appDirectory rootFolder caCert clientCert appName : jsstring)
  (s s1 s2 s3 s4 s5 s6 s7 : St C) :
  let csr := santitizeString raw in
  let certFolder := rootFolder ++ js "/FlipperCerts/" in
  str_eqb csr [] = false ->
  Common.ensureOpenSSLIsAvailable C s = (Ok tt, s1) ->
  Common.tmpDir C s1 = (Ok rootFolder, s2) ->
  Server.certificateSetup this = Ok tt ->
  Common.getCACertificate C s2 = (Ok caCert, s3) ->
  Server.deployOrStageFileForMobileApp C this appDirectory deviceCAcertFile
    caCert csr os Server.WWW certFolder s3 = (Ok tt, s4) ->
  Common.generateClientCertificate C csr s4 = (Ok clientCert, s5) ->
  Server.deployOrStageFileForMobileApp C this appDirectory deviceClientCertFile
    clientCert csr os Server.WWW certFolder s5 = (Ok tt, s6) ->
  Server.extractAppNameFromCSR C csr s6 = (Ok appName, s7) ->
  Server.processCertificateSigningRequest C this raw os appDirectory Server.WWW s
  = archived_and_uploaded C rootFolder s7.
Proof.
  intros csr certFolder Hcsr Hssl Htmp Hsetup Hca Hstage1 Hclient Hstage2 Hname.
  subst csr certFolder.
  unfold Server.processCertificateSigningRequest, archived_and_uploaded.
  rewrite Hcsr. cbn [Server.is_WWW Server.is_FS_ACCESS].
  unfold bind at 1. rewrite Hssl.
  unfold bind at 1. rewrite Htmp.
  unfold bind at 1. rewrite Hsetup. unfold await at 1.
  unfold bind at 1. rewrite Hca.
  unfold bind at 1. rewrite Hstage1.
  unfold bind at 1. rewrite Hclient.
  unfold bind at 1. rewrite Hstage2.
  unfold bind at 1. rewrite Hname.
  unfold Server.uploadFiles, Common.reportPlatformFailures,
    zippingReport, uploadingReport, uploadReport, certificatesEndpoint,
    uploadTimeoutMessage, exchanged.
  unfold_calls.
  repeat first [progress cbn [fst snd is_ok world trace] | run_step | run_goal_test];
    rewrite <- ?app_assoc; cbn [app is_ok];
    repeat match goal with
           | H : Common.timeout _ ?p _ = _ |- _ => rewrite H
           end;
    cbn [is_ok]; try reflexivity.
Qed.

(** C7. Over the WWW medium an exchange whose earlier steps resolved
    generates the device id, archives the staging folder to [certs.zip],
    reads that archive and posts it, for that device id, to
    [flipper/certificates]; it ends as the request does under a hard timeout
    of 5 * 60 * 1000 milliseconds, so a failed or late upload is a failed
    exchange. In every run the exchange cannot succeed without the upload;
    when the upload is made, both certificates have been written to the
    staging folder before the archive; and after the upload nothing happens
    but the two reports of its outcome, the world being left as the request
    left it: nothing that was written before is removed or rolled back. *)
Theorem upload_follows_staging_and_undoes_nothing
  (C : Collab) (this : Server.CertificateProvider)
  (raw os appDirectory : jsstring) (s : St C) :
  let run :=
    Server.processCertificateSigningRequest C this raw os appDirectory Server.WWW s in
  let hard (p : option Z * Res unit) : Res unit :=
    Common.timeout (5 * 60 * 1000) p uploadTimeoutMessage in
  match split_upload (events_since s (snd run)) with
  | None => is_ok (fst run) = false
  | Some u =>
      staged_and_archived (device u) (before u)
      /\ endpoint u = certificatesEndpoint
      /\ fst run = exchanged (device u) (hard (settled u))
      /\ after u = [EvMetric uploadReport (is_ok (fst run));
                    EvMetric uploadingReport (is_ok (fst run))]
      /\ forallb (fun e => negb (isRemovalEvent e || isDeviceEvent e)) (after u) = true
  end
  /\ (forall rootFolder caCert clientCert appName s1 s2 s3 s4 s5 s6 s7,
        let csr := santitizeString raw in
        let certFolder := rootFolder ++ js "/FlipperCerts/" in
        str_eqb csr [] = false ->
        Common.ensureOpenSSLIsAvailable C s = (Ok tt, s1) ->
        Common.tmpDir C s1 = (Ok rootFolder, s2) ->
        Server.certificateSetup this = Ok tt ->
        Common.getCACertificate C s2 = (Ok caCert, s3) ->
        Server.deployOrStageFileForMobileApp C this appDirectory deviceCAcertFile
          caCert csr os Server.WWW certFolder s3 = (Ok tt, s4) ->
        Common.generateClientCertificate C csr s4 = (Ok clientCert, s5) ->
        Server.deployOrStageFileForMobileApp C this appDirectory deviceClientCertFile
          clientCert csr os Server.WWW certFolder s5 = (Ok tt, s6) ->
        Server.extractAppNameFromCSR C csr s6 = (Ok appName, s7) ->
        run = archived_and_uploaded C rootFolder s7)
  /\ (forall rootFolder (s7 : St C) deviceId w8 zipped w9 buff w10 p w11,
        let certFolder := rootFolder ++ js "/FlipperCerts/" in
        let zipPath := rootFolder ++ js "/certs.zip" in
        uuid_v4 C (world s7) = (deviceId, w8) ->
        archive_directory C certFolder zipPath w8 = (Ok zipped, w9) ->
        fs_readFile C zipPath w9 = (Ok buff, w10) ->
        internGraphPOSTAPIRequest C (js "flipper/certificates") buff deviceId w10
        = (p, w11) ->
        archived_and_uploaded C rootFolder s7
        = (exchanged deviceId (hard p),
           mkSt w11
             (trace s7
              ++ [EvUuid deviceId; EvZip certFolder zipPath;
                  EvMetric (js "www-certs-exchange-zipping-certs") true;
                  EvReadFile zipPath;
                  EvUpload (js "flipper/certificates") deviceId (fst p) (snd p);
                  EvMetric (js "uploadCertificates") (is_ok (hard p));
                  EvMetric (js "www-certs-exchange-uploading-certs")
                    (is_ok (hard p))])))
  /\ (forall (outcome : Res unit) (elapsed : Z),
        (elapsed < 300000)%Z -> hard (Some elapsed, outcome) = outcome)
  /\ (forall (outcome : Res unit) (elapsed : Z),
        (300000 <= elapsed)%Z ->
        hard (Some elapsed, outcome) = Err (TimedOut uploadTimeoutMessage))
  /\ (forall outcome : Res unit,
        hard (None, outcome) = Err (TimedOut uploadTimeoutMessage)).
Proof.
  intros run hard. split; [|split; [|split]].
  - pose proof (processCertificateSigningRequest_WWW C this raw os appDirectory s) as H.
    subst run.
    destruct (Server.processCertificateSigningRequest C this raw os appDirectory
                Server.WWW s) as [r s'].
    cbn [fst snd]. destruct H as (_ & _ & H).
    destruct (split_upload (events_since s s')) as [u|]; [|exact H].
    destruct H as (H1 & H2 & H3 & H4). repeat split; try assumption.
    rewrite H4. reflexivity.
  - intros. subst run.
    eapply processCertificateSigningRequest_upload; eassumption.
  - intros rootFolder s7 deviceId w8 zipped w9 buff w10 p w11 certFolder zipPath
      Hid Hzip Hread Hpost.
    subst certFolder zipPath.
    unfold archived_and_uploaded, certificatesEndpoint, zippingReport,
      uploadReport, uploadingReport.
    rewrite Hid, Hzip, Hread, Hpost. cbn [is_ok].
    rewrite <- app_assoc. reflexivity.
  - subst hard. unfold Common.timeout. cbn [fst snd].
    repeat split; intros outcome; try reflexivity; intros elapsed H.
    + replace (elapsed <? 5 * 60 * 1000)%Z with true; [reflexivity|].
      symmetry. apply Z.ltb_lt. lia.
    + replace (elapsed <? 5 * 60 * 1000)%Z with false; [reflexivity|].
      symmetry. apply Z.ltb_ge. lia.
Qed.

Lemma upload_follows_staging_and_undoes_nothing_witness :
  let w := Lab.with_upload Lab.w0 (Some 1200%Z, Err (External (js "HTTP 500"))) in
  let run := Server.processCertificateSigningRequest Lab.collab Lab.server
               Lab.csr0 (js "iOS") Bench.appDirectory Server.WWW (Lab.start w) in
  fst run = Err (External (js "HTTP 500"))
  /\ skipn 16 (events_since (Lab.start w) (snd run))
     = [EvUuid (js "uuid-d");
        EvZip (js "/tmp/da/FlipperCerts/") (js "/tmp/da/certs.zip");
        EvMetric (js "www-certs-exchange-zipping-certs") true;
        EvReadFile (js "/tmp/da/certs.zip");
        EvUpload (js "flipper/certificates") (js "uuid-d") (Some 1200%Z)
          (Err (External (js "HTTP 500")));
        EvMetric (js "uploadCertificates") false;
        EvMetric (js "www-certs-exchange-uploading-certs") false].
Proof.
  intros w run.
  pose (C := Lab.collab).
  pose (csr := santitizeString Lab.csr0).
  pose (folder := js "/tmp/da/FlipperCerts/").
  pose (stage := fun name contents =>
          Server.deployOrStageFileForMobileApp C Lab.server Bench.appDirectory
            name contents csr (js "iOS") Server.WWW folder).
  pose (s1 := snd (Common.ensureOpenSSLIsAvailable C (Lab.start w))).
  pose (s2 := snd (Common.tmpDir C s1)).
  pose (s3 := snd (Common.getCACertificate C s2)).
  pose (s4 := snd (stage deviceCAcertFile (js "ca") s3)).
  pose (s5 := snd (Common.generateClientCertificate C csr s4)).
  pose (s6 := snd (stage deviceClientCertFile (js "-----BEGIN CERTIFICATE-----") s5)).
  pose (s7 := snd (Server.extractAppNameFromCSR C csr s6)).
  pose (w8 := snd (uuid_v4 C (world s7))).
  pose (w9 := snd (archive_directory C folder (js "/tmp/da/certs.zip") w8)).
  pose (buff := match fst (fs_readFile C (js "/tmp/da/certs.zip") w9) with
                | Ok b => b
                | Err _ => []
                end).
  destruct (upload_follows_staging_and_undoes_nothing C Lab.server Lab.csr0
              (js "iOS") Bench.appDirectory (Lab.start w))
    as (_ & Hfront & Htail & _).
  assert (Hrun : run = archived_and_uploaded C (js "/tmp/da") s7).
  { apply (Hfront (js "/tmp/da") (js "ca") (js "-----BEGIN CERTIFICATE-----")
             Bench.appName s1 s2 s3 s4 s5 s6 s7); vm_compute; reflexivity. }
  rewrite (Htail (js "/tmp/da") s7 (js "uuid-d") w8 tt w9 buff w9
             (Some 1200%Z, Err (External (js "HTTP 500"))) w9) in Hrun
    by (vm_compute; reflexivity).
  rewrite Hrun. split; vm_compute; reflexivity.
Defined.

(** In the laboratory: the upload is refused by the endpoint; the exchange
    fails, and both staged certificates are still in the staging folder. *)
Example refused_upload_leaves_staged_files :
  let w := Lab.with_upload Lab.w0 (Some 1200%Z, Err (External (js "HTTP 500"))) in
  let run := Server.processCertificateSigningRequest Lab.collab Lab.server
               Lab.csr0 (js "iOS") Bench.appDirectory Server.WWW (Lab.start w) in
  fst run = Err (External (js "HTTP 500"))
  /\ Lab.lookup (js "/tmp/da/FlipperCerts/sonarCA.crt") (Lab.files (world (snd run)))
     = Some (js "ca")
  /\ Lab.lookup (js "/tmp/da/FlipperCerts/device.crt") (Lab.files (world (snd run)))
     = Some (js "-----BEGIN CERTIFICATE-----").
Proof. vm_compute. repeat split. Qed.

(** ** Which device id the exchange returns *)

Ltac run_folded :=
  repeat first
    [ run_step
    | cbv beta iota zeta in *; cbn [world trace] in *;
      match goal with
      | H : context [if ?b then _ else _] |- _ => is_next b; destruct b eqn:?
      end ].

Lemma processCertificateSigningRequest_FS_ACCESS
  (C : Collab) (this : Server.CertificateProvider)
  (raw os appDirectory deviceId : jsstring) (s s' : St C) :
  Server.processCertificateSigningRequest C this raw os appDirectory
    Server.FS_ACCESS s = (Ok deviceId, s') ->
  resolved_by_os (Server.getTargetAndroidDeviceId C this)
    (Server.getTargetiOSDeviceId C this)
    os appDirectory (santitizeString raw) deviceId s'.
Proof.
  unfold Server.processCertificateSigningRequest, Server.getTargetDeviceId,
    Common.getTargetDeviceId, resolved_by_os.
  cbn [Server.is_WWW Server.is_FS_ACCESS]. unfold bind, ret, throw, await.
  intros H. run_folded; try discriminate.
  all: injection H as <- <-; eauto.
Qed.

Lemma processCertificateSigningRequest_NONE
  (C : Collab) (this : Server.CertificateProvider)
  (raw os appDirectory deviceId : jsstring) (s s' : St C) :
  Server.processCertificateSigningRequest C this raw os appDirectory
    Server.NONE s = (Ok deviceId, s') ->
  exists tr, trace s' = tr ++ [EvUuid deviceId].
Proof.
  unfold Server.processCertificateSigningRequest.
  cbn [Server.is_WWW Server.is_FS_ACCESS].
  unfold Common.uuid, ask_rec, bind, ret, throw, await.
  intros H. run_folded; try discriminate.
  all: injection H as <- <-; cbn [trace]; eauto.
Qed.

Lemma legacy_processCertificateSigningRequest_by_os
  (C : Collab) (this : Legacy.CertificateProvider)
  (raw os appDirectory deviceId : jsstring)
  (medium : Legacy.CertificateExchangeMedium) (s s' : St C) :
  Legacy.processCertificateSigningRequest C this raw os appDirectory medium s
    = (Ok deviceId, s') ->
  resolved_by_os (Legacy.getTargetAndroidDeviceId C this)
    (Legacy.getTargetiOSDeviceId C this)
    os appDirectory (santitizeString raw) deviceId s'.
Proof.
  unfold Legacy.processCertificateSigningRequest, Legacy.getTargetDeviceId,
    Common.getTargetDeviceId, resolved_by_os.
  unfold bind, ret, throw, await.
  intros H. run_folded; try discriminate.
  all: injection H as <- <-; eauto.
Qed.

(** * Further properties *)

(** ** Sanitization *)

Lemma takeWhile_dropWhile (p : N -> bool) (l : jsstring) :
  takeWhile p l ++ dropWhile p l = l.
Proof.
  induction l as [|c t IH]; [reflexivity|].
  cbn [takeWhile dropWhile]. destruct (p c); [cbn [app]; now rewrite IH | reflexivity].
Qed.

Lemma forallb_takeWhile (p : N -> bool) (l : jsstring) :
  forallb p (takeWhile p l) = true.
Proof.
  induction l as [|c t IH]; [reflexivity|].
  cbn [takeWhile]. destruct (p c) eqn:E; [cbn [forallb]; now rewrite E | reflexivity].
Qed.

Lemma dropWhile_starts (p : N -> bool) (l : jsstring) :
  match dropWhile p l with
  | c :: _ => p c = false
  | [] => True
  end.
Proof.
  induction l as [|c t IH]; [exact I|].
  cbn [dropWhile]. destruct (p c) eqn:E; [exact IH | exact E].
Qed.

(** What [trim] leaves is the text between a run of whitespace in front and
    a run of whitespace behind. *)
Lemma trim_split (y : jsstring) :
  exists pre post,
    y = pre ++ trim y ++ post
    /\ forallb isTrimmable pre = true /\ forallb isTrimmable post = true.
Proof.
  exists (takeWhile isTrimmable y),
         (rev (takeWhile isTrimmable (rev (trimStart y)))).
  split; [|split].
  - unfold trim, trimEnd.
    rewrite <- rev_app_distr, takeWhile_dropWhile, rev_involutive.
    unfold trimStart. now rewrite takeWhile_dropWhile.
  - apply forallb_takeWhile.
  - rewrite forallb_rev. apply forallb_takeWhile.
Qed.

Lemma trim_starts_plain (y : jsstring) : starts_plain (trim y) = true.
Proof.
  unfold trim. pose proof (dropWhile_starts isTrimmable y) as H.
  fold (trimStart y) in H.
  destruct (trimStart y) as [|c t]; [reflexivity|].
  rewrite trimEnd_cons. cbn [forallb]. rewrite H. cbn [andb starts_plain].
  now rewrite H.
Qed.

Lemma trim_ends_plain (y : jsstring) : ends_plain (trim y) = true.
Proof.
  unfold trim, trimEnd, ends_plain. rewrite rev_involutive.
  pose proof (dropWhile_starts isTrimmable (rev (trimStart y))) as H.
  destruct (dropWhile isTrimmable (rev (trimStart y))); [reflexivity|].
  now rewrite H.
Qed.

Lemma removeCR_keeps_trimmable (x : jsstring) :
  forallb isTrimmable (removeCR x) = forallb isTrimmable x.
Proof.
  induction x as [|c t IH]; [reflexivity|].
  cbn [removeCR filter forallb]. fold (removeCR t).
  destruct (N.eqb_spec c CR) as [->|Hc]; cbn [negb forallb].
  - now rewrite IH.
  - now rewrite IH.
Qed.

Lemma trim_empty (y : jsstring) : trim y = [] <-> forallb isTrimmable y = true.
Proof.
  split.
  - intros H. destruct (trim_split y) as (pre & post & E & Hpre & Hpost).
    rewrite H in E. rewrite E, forallb_app. cbn [app]. now rewrite Hpre, Hpost.
  - intros H. unfold trim, trimStart. now rewrite dropWhile_all.
Qed.

(** X1. What [santitizeString] returns has no carriage return and neither
    starts nor ends with a unit that [trim] strips; it is the request without
    its carriage returns, less a run of whitespace in front and one behind;
    and it is empty exactly when the request consists of whitespace and line
    terminators only. *)
Theorem santitizeString_result (x : jsstring) :
  let r := santitizeString x in
  forallb noCR r = true
  /\ starts_plain r = true
  /\ ends_plain r = true
  /\ (exists pre post,
        removeCR x = pre ++ r ++ post
        /\ forallb isTrimmable pre = true /\ forallb isTrimmable post = true)
  /\ (r = [] <-> forallb isTrimmable x = true).
Proof.
  intros r. subst r. unfold santitizeString.
  split; [apply trim_noCR, removeCR_noCR|].
  split; [apply trim_starts_plain|].
  split; [apply trim_ends_plain|].
  split; [apply trim_split|].
  rewrite trim_empty. now rewrite removeCR_keeps_trimmable.
Qed.

Lemma removeCR_toCRLF (s : jsstring) : removeCR (toCRLF s) = removeCR s.
Proof.
  induction s as [|c t IH]; [reflexivity|].
  cbn [toCRLF]. destruct (N.eqb_spec c LF) as [->|Hc].
  - change (removeCR (CR :: LF :: toCRLF t)) with (LF :: removeCR (toCRLF t)).
    change (removeCR (LF :: t)) with (LF :: removeCR t). now rewrite IH.
  - unfold removeCR in *. cbn [filter]. now rewrite IH.
Qed.

Lemma santitizeString_toCRLF (pre s post : jsstring) :
  forallb isTrimmable pre = true -> forallb isTrimmable post = true ->
  santitizeString (pre ++ toCRLF s ++ post) = santitizeString s.
Proof.
  intros Hpre Hpost. rewrite santitizeString_pad by assumption.
  unfold santitizeString. now rewrite removeCR_toCRLF.
Qed.

(** X2. The check of an Android device compares the device's copy of the
    request with the request after sanitizing both: with a ready adb client
    and a pull that gives [deviceCsr], both providers report a match exactly
    when the two sanitized texts are equal. So a copy that differs from the
    request by carriage returns before its line feeds and by whitespace
    around it is a match. *)
Theorem androidDeviceHasMatchingCSR_up_to_sanitization
  (C : Collab) (this : Server.CertificateProvider)
  (lthis : Legacy.CertificateProvider)
  (directory deviceId processName csr deviceCsr : jsstring)
  (s : St C) (w : World C)
  (Henabled : enableAndroid (Server.config this) = true)
  (Hclient : Server._adb this = Some tt)
  (Hlegacy : Legacy.adb lthis = Ok tt)
  (Hpull : androidUtil_pull C deviceId processName (directory ++ csrFileName)
             (world s) = (Ok deviceCsr, w)) :
  let s' := mkSt w (trace s ++ [EvAdbPull deviceId processName
                                  (directory ++ csrFileName)]) in
  exists isMatch : bool,
    Server.androidDeviceHasMatchingCSR C this directory deviceId processName csr s
      = (Ok (isMatch, santitizeString deviceCsr), s')
    /\ Legacy.androidDeviceHasMatchingCSR C lthis directory deviceId processName csr s
      = (Ok isMatch, s')
    /\ (isMatch = true <-> santitizeString deviceCsr = santitizeString csr)
    /\ (forall pre post,
          forallb isTrimmable pre = true -> forallb isTrimmable post = true ->
          deviceCsr = pre ++ toCRLF csr ++ post -> isMatch = true).
Proof.
  intros s'. exists (str_eqb (santitizeString deviceCsr) (santitizeString csr)).
  unfold Server.androidDeviceHasMatchingCSR, Legacy.androidDeviceHasMatchingCSR,
    Server.adb, bind, ret, call, await.
  rewrite Henabled, Hclient, Hlegacy, Hpull.
  split; [reflexivity|]. split; [reflexivity|].
  split; [apply str_eqb_eq|].
  intros pre post Hpre Hpost ->. apply str_eqb_eq.
  now apply santitizeString_toCRLF.
Qed.

Lemma androidDeviceHasMatchingCSR_up_to_sanitization_witness :
  let s := Lab.start Lab.w0 in
  exists isMatch : bool,
    Server.androidDeviceHasMatchingCSR Lab.collab Lab.server
      (js "/data/data/com.example.app/") (js "emulator-5554")
      (js "com.example.app") (toCRLF (Lab.csr0 ++ [LF])) s
      = (Ok (isMatch, santitizeString (Lab.csr0 ++ [LF])),
         mkSt (Lab.w0 : World Lab.collab)
           [EvAdbPull (js "emulator-5554") (js "com.example.app")
              (js "/data/data/com.example.app/" ++ csrFileName)])
    /\ isMatch = true.
Proof.
  intros s.
  destruct (androidDeviceHasMatchingCSR_up_to_sanitization Lab.collab Lab.server
              Lab.legacy (js "/data/data/com.example.app/") (js "emulator-5554")
              (js "com.example.app") (toCRLF (Lab.csr0 ++ [LF]))
              (Lab.csr0 ++ [LF]) s Lab.w0 eq_refl eq_refl eq_refl eq_refl)
    as (isMatch & Hs & _ & Hiff & _).
  exists isMatch. split; [exact Hs|].
  apply Hiff. vm_compute. reflexivity.
Defined.

(** ** Literals and scanning *)

Lemma in_single (d x : N) : in_items [CChar d] x = (x =? d)%N.
Proof. unfold in_items. cbn [existsb in_item]. apply orb_false_r. Qed.

Lemma rmatch_Lit X n (l rest : jsstring) (c : caps) (k : cont X) :
  rmatch n (Lit l) rest c k =
  match after_literal l rest with
  | Some after => k after c
  | None => None
  end.
Proof.
  revert rest. induction l as [|a l IH]; intros rest; [reflexivity|].
  cbn [Lit]. unfold Chr. rewrite rmatch_seq, rmatch_set.
  destruct rest as [|b rest]; [reflexivity|].
  cbn [one after_literal]. rewrite in_single.
  destruct (b =? a)%N; [apply IH | reflexivity].
Qed.

Lemma rmatch_Lit_seq X n (l : jsstring) (R : regex) (rest : jsstring) (c : caps)
  (k : cont X) :
  rmatch n (Seq (Lit l) R) rest c k =
  match after_literal l rest with
  | Some after => rmatch n R after c k
  | None => None
  end.
Proof. rewrite rmatch_seq. apply rmatch_Lit. Qed.

Lemma after_literal_app (l rest : jsstring) : after_literal l (l ++ rest) = Some rest.
Proof.
  induction l as [|a l IH]; [reflexivity|].
  cbn [app after_literal]. now rewrite N.eqb_refl.
Qed.

Lemma after_literal_inv (l s after : jsstring) :
  after_literal l s = Some after -> s = l ++ after.
Proof.
  revert s. induction l as [|a l IH]; intros s H.
  - now injection H as ->.
  - destruct s as [|b s]; [discriminate|]. cbn [after_literal] in H.
    destruct (N.eqb_spec b a) as [->|]; [|discriminate].
    cbn [app]. f_equal. now apply IH.
Qed.

Lemma indexOf_unfold (lit s : jsstring) :
  indexOf lit s =
  match after_literal lit s with
  | Some _ => Some 0
  | None =>
      match s with
      | [] => None
      | _ :: t =>
          match indexOf lit t with
          | Some i => Some (S i)
          | None => None
          end
      end
  end.
Proof. destruct s; reflexivity. Qed.

(** A pattern that starts with a literal does not match a text in which the
    literal does not occur. *)
Lemma exec_from_no_literal n (l : jsstring) (R : regex) (s : jsstring) :
  indexOf l s = None -> exec_from n (Seq (Lit l) R) s = None.
Proof.
  induction s as [|x t IH]; intros H; rewrite indexOf_unfold in H;
    rewrite exec_from_unfold, rmatch_Lit_seq;
    destruct (after_literal l _); try discriminate; [reflexivity|].
  apply IH. destruct (indexOf l t); [discriminate | reflexivity].
Qed.

(** It is first tried where the literal first occurs. *)
Lemma exec_from_first_literal n (l : jsstring) (R : regex) (pre rest : jsstring) :
  indexOf l (pre ++ rest) = Some (length pre) ->
  exec_from n (Seq (Lit l) R) (pre ++ rest) = exec_from n (Seq (Lit l) R) rest.
Proof.
  induction pre as [|x t IH]; intros H; [reflexivity|].
  rewrite indexOf_unfold in H. cbn [app] in *.
  rewrite exec_from_unfold, rmatch_Lit_seq.
  destruct (after_literal l (x :: t ++ rest)); [discriminate|].
  apply IH. destruct (indexOf l (t ++ rest)) as [i|]; [|discriminate].
  cbn [length] in H. congruence.
Qed.

Lemma exec_from_inv_suffix n r s m :
  exec_from n r s = Some m ->
  exists pre rest0 rest' c,
    s = pre ++ rest0
    /\ rmatch n r rest0 [] k0 = Some (rest', c)
    /\ m = MatchArray (firstn (length rest0 - length rest') rest0)
             (map (fun i => cap_get i c) (seq 1 (ngroups r))).
Proof.
  induction s as [|y t IH]; rewrite exec_from_unfold; fold k0;
    destruct (rmatch n r _ [] k0) as [[rest' c]|] eqn:E; intros H;
    try discriminate.
  - injection H as <-. exists [], [], rest', c. auto.
  - injection H as <-. exists [], (y :: t), rest', c. auto.
  - destruct (IH H) as (pre & rest0 & rest' & c & -> & Hm & ->).
    exists (y :: pre), rest0, rest', c. auto.
Qed.

Lemma exec_from_found n r (pre rest : jsstring) :
  exec_from n r rest <> None -> exec_from n r (pre ++ rest) <> None.
Proof.
  intros H. induction pre as [|x t IH]; [exact H|].
  cbn [app]. rewrite exec_from_unfold.
  destruct (rmatch n r (x :: t ++ rest) [] _) as [[rest' c]|]; [discriminate | exact IH].
Qed.

Section GreedyTotal.
Variable X : Type.

(** A greedy iteration of a class before a continuation that accepts
    whatever is left takes the longest run. *)
Lemma star_class_total (p : N -> bool) (k : cont X) :
  (forall r c, k r c <> None) ->
  forall fuel rest c, length rest < fuel ->
    star_loop fuel (one (X:=X) p) rest c k = k (dropWhile p rest) c.
Proof.
  intros Hk fuel rest. revert fuel.
  induction rest as [|x t IH]; intros fuel c Hlen;
    (destruct fuel as [|f]; [simpl in Hlen; lia|]).
  - simpl. destruct (k [] c); reflexivity.
  - simpl in Hlen. simpl star_loop. unfold one at 1. simpl dropWhile.
    destruct (p x) eqn:Hx.
    + replace (length t <? S (length t)) with true
        by (symmetry; apply Nat.ltb_lt; lia).
      rewrite IH by lia.
      destruct (k (dropWhile p t) c) eqn:E; [reflexivity | now elim (Hk _ _ E)].
    + reflexivity.
Qed.
End GreedyTotal.

Lemma dropWhile_length (p : N -> bool) (l : jsstring) :
  length (dropWhile p l) <= length l.
Proof.
  induction l as [|d t IH]; simpl; [lia|]. destruct (p d); simpl; lia.
Qed.

Lemma dropWhile_free (p : N -> bool) (v post : jsstring) :
  forallb p v = true -> dropWhile p (v ++ post) = dropWhile p post.
Proof. intros H. now rewrite dropWhile_app, H. Qed.

(** [[^/]+] and what comes after it: the longest run of units other than
    [/], which must not be empty. *)
Lemma rmatch_plus_notset X n (d : N) (rest : jsstring) (c : caps) (k : cont X) :
  (forall x t c', (x =? d)%N = false -> k (x :: t) c' = None) ->
  rmatch n (Plus (NotSet [CChar d])) rest c k =
  match rest with
  | x :: t => if (x =? d)%N then None
              else k (dropWhile (fun y => negb (y =? d)%N) t) c
  | [] => None
  end.
Proof.
  intros Hk. unfold Plus. rewrite rmatch_seq. cbn [rmatch].
  destruct rest as [|x t]; [reflexivity|].
  cbn [one]. rewrite in_single. destruct (x =? d)%N; [reflexivity|]. cbn [negb].
  change (fun rest c k => one (fun x0 => negb (in_items [CChar d] x0)) rest c k)
    with (one (X:=X) (fun x0 => negb (in_items [CChar d] x0))).
  rewrite star_class_greedy.
  - f_equal. apply dropWhile_pointwise. intros y. now rewrite in_single.
  - intros y u c' Hy. apply Hk. rewrite in_single in Hy.
    now apply negb_true_iff in Hy.
  - lia.
Qed.

(** Group 1 around [.*] at the end of a pattern: the units up to the first
    line terminator. *)
Lemma rmatch_group_dots n (rel : jsstring) (c : caps) :
  rmatch n (Group 1 (Star Dot)) rel c k0 =
  Some (dropWhile notLineTerminator rel, (1, takeWhile notLineTerminator rel) :: c).
Proof.
  rewrite rmatch_group. cbn [rmatch].
  change (fun rest c k => one (fun x => negb (isLineTerminator x)) rest c k)
    with (one (X:=jsstring * caps) notLineTerminator).
  rewrite star_class_total; [|discriminate|lia].
  unfold k0. now rewrite firstn_takeWhile.
Qed.

(** One attempt of the pattern of [getRelativePathInAppContainer]. *)
Lemma appContainerRegex_attempt n (rest : jsstring) :
  rmatch n appContainerRegex rest [] k0 =
  match after_literal (js "Application/") rest with
  | Some (x :: t) =>
      if (x =? slash)%N then None
      else match dropWhile notSlash t with
           | y :: rel =>
               Some (dropWhile notLineTerminator rel,
                     [(1, takeWhile notLineTerminator rel)])
           | [] => None
           end
  | _ => None
  end.
Proof.
  unfold appContainerRegex. rewrite rmatch_Lit_seq.
  destruct (after_literal (js "Application/") rest) as [tail|]; [|reflexivity].
  rewrite rmatch_seq, rmatch_plus_notset.
  - destruct tail as [|x t]; [reflexivity|]. fold slash.
    destruct (x =? slash)%N; [reflexivity|].
    change (fun y => negb (y =? slash)%N) with notSlash.
    pose proof (dropWhile_starts notSlash t) as Hy.
    destruct (dropWhile notSlash t) as [|y rel]; [reflexivity|].
    unfold Chr. rewrite rmatch_seq, rmatch_set. cbn [one]. rewrite in_single.
    unfold notSlash in Hy. apply negb_false_iff in Hy.
    fold slash. rewrite Hy. apply rmatch_group_dots.
  - intros x t c' Hx. unfold Chr. rewrite rmatch_seq, rmatch_set. cbn [one].
    now rewrite in_single, Hx.
Qed.

(** One attempt of the pattern of [getTargetiOSDeviceId]. *)
Lemma simulatorRegex_attempt n (rest : jsstring) :
  rmatch n simulatorRegex rest [] k0 =
  match after_literal (js "/Devices/") rest with
  | Some (x :: t) =>
      if (x =? slash)%N then None
      else match dropWhile notSlash t with
           | y :: after => Some (after, [(1, x :: takeWhile notSlash t)])
           | [] => None
           end
  | _ => None
  end.
Proof.
  unfold simulatorRegex. rewrite rmatch_Lit_seq.
  destruct (after_literal (js "/Devices/") rest) as [tail|]; [|reflexivity].
  rewrite rmatch_seq, rmatch_group, rmatch_plus_notset.
  - destruct tail as [|x t]; [reflexivity|]. fold slash.
    destruct (x =? slash)%N; [reflexivity|].
    change (fun y => negb (y =? slash)%N) with notSlash.
    pose proof (dropWhile_starts notSlash t) as Hy.
    pose proof (firstn_takeWhile notSlash t) as Hf.
    pose proof (dropWhile_length notSlash t) as Hlen.
    destruct (dropWhile notSlash t) as [|y after]; [reflexivity|].
    unfold Chr. rewrite rmatch_set. cbn [one]. rewrite in_single.
    unfold notSlash in Hy. apply negb_false_iff in Hy.
    fold slash. rewrite Hy. unfold k0. do 4 f_equal.
    replace (length (x :: t) - length (y :: after))
      with (S (length t - length (y :: after))) by (cbn [length] in *; lia).
    cbn [firstn]. now rewrite Hf.
  - intros x t c' Hx. unfold Chr. rewrite rmatch_set. cbn [one].
    now rewrite in_single, Hx.
Qed.

(** One attempt of the pattern of [verifyServerCertWasIssuedByCA]. *)
Lemma verifiedRegex_attempt n (rest : jsstring) :
  rmatch n verifiedRegex rest [] k0 =
  match rest with
  | x :: t =>
      if (x =? colon)%N then None
      else match after_literal (js ": OK") (dropWhile notColon t) with
           | Some after => Some (after, [])
           | None => None
           end
  | [] => None
  end.
Proof.
  unfold verifiedRegex. rewrite rmatch_seq, rmatch_plus_notset.
  - destruct rest as [|x t]; [reflexivity|]. fold colon.
    destruct (x =? colon)%N; [reflexivity|].
    change (fun y => negb (y =? colon)%N) with notColon.
    now rewrite rmatch_Lit.
  - intros x t c' Hx. rewrite rmatch_Lit.
    change (js ": OK") with (ch ":" :: js " OK"). cbn [after_literal].
    now rewrite Hx.
Qed.

(** ** Paths inside an app container *)

Lemma dropWhile_until (p : N -> bool) (v : jsstring) (y : N) (post : jsstring) :
  forallb p v = true -> p y = false -> dropWhile p (v ++ y :: post) = y :: post.
Proof.
  intros Hv Hy. rewrite dropWhile_free by exact Hv. cbn [dropWhile]. now rewrite Hy.
Qed.

Lemma takeWhile_until (p : N -> bool) (v : jsstring) (y : N) (post : jsstring) :
  forallb p v = true -> p y = false -> takeWhile p (v ++ y :: post) = v.
Proof.
  intros Hv Hy. rewrite takeWhile_app by exact Hv. cbn [takeWhile].
  rewrite Hy. apply app_nil_r.
Qed.

(** What [exec] gives for the pattern of [getRelativePathInAppContainer]
    where the literal first occurs. *)
Lemma appContainerRegex_exec (pre container rel : jsstring) :
  let absolutePath := pre ++ js "Application/" ++ container ++ slash :: rel in
  indexOf (js "Application/") absolutePath = Some (length pre) ->
  container <> [] -> forallb notSlash container = true ->
  exists whole,
    regex_exec appContainerRegex absolutePath
    = Some (MatchArray whole [Some (takeWhile notLineTerminator rel)]).
Proof.
  intros absolutePath Hfirst Hid Hplain. subst absolutePath.
  unfold regex_exec.
  set (n := length (pre ++ js "Application/" ++ container ++ slash :: rel)).
  unfold appContainerRegex at 1.
  rewrite exec_from_first_literal by exact Hfirst.
  rewrite exec_from_unfold. fold appContainerRegex. fold k0.
  rewrite appContainerRegex_attempt, after_literal_app.
  destruct container as [|x t]; [now elim Hid|].
  cbn [forallb] in Hplain. apply andb_true_iff in Hplain as [Hx Ht].
  cbn [app]. unfold notSlash in Hx. apply negb_true_iff in Hx. rewrite Hx.
  rewrite dropWhile_until; [|exact Ht|unfold notSlash; now rewrite N.eqb_refl].
  eexists. reflexivity.
Qed.

(** X3. For a path in which [Application/] first occurs in front of a
    container name (not empty, without [/]) that a [/] follows,
    [getRelativePathInAppContainer] returns what comes after that [/], up
    to the first line terminator, and touches nothing. *)
Theorem getRelativePathInAppContainer_first_container
  (C : Collab) (pre container rel : jsstring) (s : St C)
  (Hfirst : indexOf (js "Application/")
              (pre ++ js "Application/" ++ container ++ slash :: rel)
            = Some (length pre))
  (Hid : container <> [])
  (Hplain : forallb notSlash container = true) :
  Common.getRelativePathInAppContainer C
    (pre ++ js "Application/" ++ container ++ slash :: rel) s
  = (Ok (takeWhile notLineTerminator rel), s).
Proof.
  unfold Common.getRelativePathInAppContainer.
  destruct (appContainerRegex_exec pre container rel Hfirst Hid Hplain)
    as (whole & ->).
  reflexivity.
Qed.

Lemma getRelativePathInAppContainer_first_container_witness :
  Common.getRelativePathInAppContainer Lab.collab
    (js "/var/mobile/Containers/Data/Application/ABCD/Library/Application Support/sonar/")
    (Lab.start Lab.w0)
  = (Ok (js "Library/Application Support/sonar/"), Lab.start Lab.w0).
Proof.
  exact (getRelativePathInAppContainer_first_container Lab.collab
           (js "/var/mobile/Containers/Data/") (js "ABCD")
           (js "Library/Application Support/sonar/") (Lab.start Lab.w0)
           eq_refl ltac:(discriminate) eq_refl).
Defined.

(** X4. [getRelativePathInAppContainer] touches nothing. A path in which
    [Application/] does not occur is rejected with the path in the error.
    A path it accepts has, after [Application/], a container name (not
    empty, without [/]) and a [/], and the answer is what follows that [/]
    up to the first line terminator. *)
Theorem getRelativePathInAppContainer_sound
  (C : Collab) (absolutePath : jsstring) (s : St C) :
  snd (Common.getRelativePathInAppContainer C absolutePath s) = s
  /\ (indexOf (js "Application/") absolutePath = None ->
      fst (Common.getRelativePathInAppContainer C absolutePath s)
      = Err (PathDidntMatch absolutePath))
  /\ (forall relative,
        fst (Common.getRelativePathInAppContainer C absolutePath s) = Ok relative ->
        exists pre container rel,
          absolutePath = pre ++ js "Application/" ++ container ++ slash :: rel
          /\ container <> [] /\ forallb notSlash container = true
          /\ relative = takeWhile notLineTerminator rel).
Proof.
  unfold Common.getRelativePathInAppContainer. split; [|split].
  - destruct (regex_exec appContainerRegex absolutePath) as [m|]; [|reflexivity].
    destruct (Nat.eqb (match_length m) 2); [|reflexivity].
    destruct (match_group 1 m); reflexivity.
  - intros Hnone. unfold regex_exec, appContainerRegex.
    now rewrite exec_from_no_literal.
  - intros relative.
    destruct (regex_exec appContainerRegex absolutePath) as [m|] eqn:E;
      [|discriminate].
    apply exec_from_inv_suffix in E
      as (pre & rest0 & rest' & c & Hpath & Hm & ->).
    rewrite appContainerRegex_attempt in Hm.
    destruct (after_literal (js "Application/") rest0) as [[|x t]|] eqn:Hlit;
      try discriminate.
    apply after_literal_inv in Hlit.
    destruct (N.eqb_spec x slash) as [|Hx]; [discriminate|].
    pose proof (takeWhile_dropWhile notSlash t) as Ht.
    pose proof (dropWhile_starts notSlash t) as Hy.
    destruct (dropWhile notSlash t) as [|y rel]; [discriminate|].
    injection Hm as <- <-.
    unfold match_length, match_group. cbn. intros [= <-].
    exists pre, (x :: takeWhile notSlash t), rel.
    unfold notSlash in Hy at 1. apply negb_false_iff, N.eqb_eq in Hy. subst y.
    split; [|split; [discriminate|split; [|reflexivity]]].
    + rewrite Hpath, Hlit.
      apply (f_equal (app pre)), (f_equal (app (js "Application/"))).
      change (x :: t = x :: (takeWhile notSlash t ++ slash :: rel)).
      now rewrite Ht.
    + cbn [forallb]. rewrite forallb_takeWhile. unfold notSlash at 1.
      apply N.eqb_neq in Hx. now rewrite Hx.
Qed.

(** ** The simulator in the path *)

Lemma simulatorRegex_exec (pre simulatorId rest : jsstring) :
  let path := pre ++ js "/Devices/" ++ simulatorId ++ slash :: rest in
  indexOf (js "/Devices/") path = Some (length pre) ->
  simulatorId <> [] -> forallb notSlash simulatorId = true ->
  exists whole,
    regex_exec simulatorRegex path = Some (MatchArray whole [Some simulatorId]).
Proof.
  intros path Hfirst Hid Hplain. subst path.
  unfold regex_exec.
  set (n := length (pre ++ js "/Devices/" ++ simulatorId ++ slash :: rest)).
  unfold simulatorRegex at 1.
  rewrite exec_from_first_literal by exact Hfirst.
  rewrite exec_from_unfold. fold simulatorRegex. fold k0.
  rewrite simulatorRegex_attempt, after_literal_app.
  destruct simulatorId as [|x t]; [now elim Hid|].
  cbn [forallb] in Hplain. apply andb_true_iff in Hplain as [Hx Ht].
  cbn [app]. unfold notSlash in Hx. apply negb_true_iff in Hx. rewrite Hx.
  rewrite dropWhile_until, takeWhile_until;
    try exact Ht; try (unfold notSlash; now rewrite N.eqb_refl).
  eexists. reflexivity.
Qed.

(** X5. When [/Devices/] first occurs in the path in front of a name (not
    empty, without [/]) that a [/] follows, the target is a simulator: both
    providers return that name and call nothing, no device bridge in
    particular. *)
Theorem getTargetiOSDeviceId_simulator
  (C : Collab) (this : Server.CertificateProvider)
  (lthis : Legacy.CertificateProvider)
  (appName csr pre simulatorId rest : jsstring) (s : St C)
  (Hfirst : indexOf (js "/Devices/")
              (pre ++ js "/Devices/" ++ simulatorId ++ slash :: rest)
            = Some (length pre))
  (Hid : simulatorId <> [])
  (Hplain : forallb notSlash simulatorId = true) :
  let deviceCsrFilePath := pre ++ js "/Devices/" ++ simulatorId ++ slash :: rest in
  Server.getTargetiOSDeviceId C this appName deviceCsrFilePath csr s
    = (Ok simulatorId, s)
  /\ Legacy.getTargetiOSDeviceId C lthis appName deviceCsrFilePath csr s
    = (Ok simulatorId, s).
Proof.
  intros path. subst path.
  unfold Server.getTargetiOSDeviceId, Legacy.getTargetiOSDeviceId.
  destruct (simulatorRegex_exec pre simulatorId rest Hfirst Hid Hplain)
    as (whole & ->).
  split; reflexivity.
Qed.

Lemma getTargetiOSDeviceId_simulator_witness :
  let path :=
    js "/Users/u/Library/Developer/CoreSimulator/Devices/ABC-1/data/Containers/Data/Application/XYZ/sonar/" in
  Server.getTargetiOSDeviceId Lab.collab Lab.server Bench.appName path Lab.csr0
    (Lab.start Lab.w0) = (Ok (js "ABC-1"), Lab.start Lab.w0)
  /\ Legacy.getTargetiOSDeviceId Lab.collab Lab.legacy Bench.appName path Lab.csr0
    (Lab.start Lab.w0) = (Ok (js "ABC-1"), Lab.start Lab.w0).
Proof.
  exact (getTargetiOSDeviceId_simulator Lab.collab Lab.server Lab.legacy
           Bench.appName Lab.csr0
           (js "/Users/u/Library/Developer/CoreSimulator") (js "ABC-1")
           (js "data/Containers/Data/Application/XYZ/sonar/") (Lab.start Lab.w0)
           eq_refl ltac:(discriminate) eq_refl).
Defined.

(** ** What the toolkit answers *)

Lemma forallb_In (p : N -> bool) (l : jsstring) (c : N) :
  forallb p l = true -> In c l -> p c = true.
Proof. intros H Hin. rewrite forallb_forall in H. now apply H. Qed.

Lemma verifiedRegex_test (output : jsstring) :
  regex_test verifiedRegex output = true <-> says_OK output.
Proof.
  unfold regex_test, says_OK. split.
  - destruct (regex_exec verifiedRegex output) as [m|] eqn:E; [|discriminate].
    intros _. apply exec_from_inv_suffix in E
      as (pre & rest0 & rest' & c & Hout & Hm & _).
    rewrite verifiedRegex_attempt in Hm. destruct rest0 as [|x t]; [discriminate|].
    destruct (N.eqb_spec x colon) as [|Hx]; [discriminate|].
    destruct (after_literal (js ": OK") (dropWhile notColon t)) as [after|] eqn:Hlit;
      [|discriminate].
    apply after_literal_inv in Hlit.
    pose proof (takeWhile_dropWhile notColon t) as Ht. rewrite Hlit in Ht.
    assert (Hall : forallb notColon (x :: takeWhile notColon t) = true).
    { cbn [forallb]. rewrite forallb_takeWhile. unfold notColon at 1.
      apply N.eqb_neq in Hx. now rewrite Hx. }
    destruct (exists_last (l := x :: takeWhile notColon t)) as (init & last & Hlast);
      [discriminate|].
    exists (pre ++ init), last, after. split.
    + rewrite Hout, <- Ht. rewrite <- app_assoc. f_equal.
      change (x :: takeWhile notColon t ++ js ": OK" ++ after)
        with ((x :: takeWhile notColon t) ++ js ": OK" ++ after).
      rewrite Hlast, <- app_assoc. reflexivity.
    + assert (Hc : notColon last = true).
      { apply (forallb_In notColon _ last Hall). rewrite Hlast.
        apply in_or_app. right. now left. }
      unfold notColon in Hc. apply negb_true_iff in Hc. now apply N.eqb_neq.
  - intros (pre & c & post & -> & Hc).
    destruct (regex_exec verifiedRegex (pre ++ c :: js ": OK" ++ post)) eqn:E;
      [reflexivity|].
    exfalso. revert E. apply exec_from_found.
    rewrite exec_from_unfold. fold k0. rewrite verifiedRegex_attempt.
    apply N.eqb_neq in Hc. rewrite Hc.
    change (js ": OK" ++ post) with (colon :: js " OK" ++ post).
    cbn [dropWhile]. unfold notColon at 1. rewrite N.eqb_refl. cbn [negb].
    change (colon :: js " OK" ++ post) with (js ": OK" ++ post).
    rewrite after_literal_app. discriminate.
Qed.

(** X6. [verifyServerCertWasIssuedByCA] asks the toolkit to verify the
    server certificate against the CA certificate on disk, once. It accepts
    exactly when the toolkit answers and its answer has [: OK] after a unit
    other than a colon; any other answer is rejected as not issued by the
    CA, and a rejection of the toolkit is passed on. *)
Theorem verifyServerCertWasIssuedByCA_verdict
  (C : Collab) (s : St C) (answer : Res jsstring) (w : World C)
  (Hverify : openssl_exec C (js "verify") (verifyOptions C) (world s) = (answer, w)) :
  let r := fst (Common.verifyServerCertWasIssuedByCA C s) in
  snd (Common.verifyServerCertWasIssuedByCA C s)
    = mkSt w (trace s ++ [EvOpenssl (js "verify") (verifyOptions C)])
  /\ (r = Ok tt <-> exists output, answer = Ok output /\ says_OK output)
  /\ (forall output, answer = Ok output -> ~ says_OK output -> r = Err NotIssuedByCA)
  /\ (forall e, answer = Err e -> r = Err e).
Proof.
  intros r. subst r.
  unfold Common.verifyServerCertWasIssuedByCA, verifyOptions in *. unfold_calls.
  rewrite Hverify. destruct answer as [output|e]; cbn [fst snd world trace].
  - pose proof (verifiedRegex_test output) as Htest. unfold regex_test in Htest.
    destruct (regex_exec verifiedRegex output); cbn [fst snd].
    + split; [reflexivity|]. split; [|split].
      * split; [intros _; exists output; split; [reflexivity|now apply Htest]
               | reflexivity].
      * intros o [= <-] Hno. elim Hno. now apply Htest.
      * discriminate.
    + split; [reflexivity|]. split; [|split].
      * split; [discriminate|]. intros (o & [= <-] & Hok).
        apply Htest in Hok. discriminate.
      * reflexivity.
      * discriminate.
  - split; [reflexivity|]. split; [|split].
    + split; [discriminate|]. intros (o & Ho & _). discriminate.
    + discriminate.
    + intros e' [= ->]. reflexivity.
Qed.

Lemma verifyServerCertWasIssuedByCA_verdict_witness :
  fst (Common.verifyServerCertWasIssuedByCA Lab.collab (Lab.start Lab.w0)) = Ok tt.
Proof.
  apply (proj1 (proj2 (verifyServerCertWasIssuedByCA_verdict Lab.collab
                         (Lab.start Lab.w0)
                         (Ok (js "/home/u/.flipper/certs/server.crt: OK"))
                         Lab.w0 eq_refl))).
  exists (js "/home/u/.flipper/certs/server.crt: OK"). split; [reflexivity|].
  exists (js "/home/u/.flipper/certs/server.cr"), (ch "t"), []. split.
  - reflexivity.
  - discriminate.
Defined.

(** ** The app name, for every behaviour of the collaborators *)

Lemma extractAppNameFromCSR_run
  (C : Collab) (r : regex) (csr : jsstring) (s : St C) :
  Common.extractAppNameFromCSR C r csr s =
  match readSubject C csr s with
  | (Ok subject, s1) =>
      match subjectCN subject with
      | None => (Err (CannotExtractCN subject), s1)
      | Some cn =>
          if regex_test r cn then (Ok cn, s1) else (Err (DisallowedAppName cn), s1)
      end
  | (Err e, s1) => (Err e, s1)
  end.
Proof.
  destruct (readSubject C csr s) as [[subject|e] s1] eqn:E.
  - now apply extractAppNameFromCSR_after_subject.
  - revert E. unfold readSubject, Common.extractAppNameFromCSR. unfold_calls.
    intros E. repeat run_step; try discriminate; exact E.
Qed.


Lemma allowed_not_comma (c : N) : isAllowedAppNameChar c = true -> notComma c = true.
Proof.
  intros H. unfold notComma. destruct (N.eqb_spec c comma) as [->|]; [|reflexivity].
  discriminate H.
Qed.



Lemma trim_plain (x : jsstring) :
  starts_plain x = true -> ends_plain x = true -> trim x = x.
Proof.
  intros Hs He. unfold trim, trimStart.
  destruct x as [|c t]; [reflexivity|].
  cbn [starts_plain] in Hs. apply negb_true_iff in Hs.
  cbn [dropWhile]. rewrite Hs. now apply trimEnd_ends_plain.
Qed.

(** The Common Name of a subject line in which whitespace follows
    [subject=]. *)
Lemma subjectCN_after_whitespace (ws name post : jsstring) :
  forallb isTrimmable ws = true ->
  forallb notComma name = true ->
  closes post ->
  ends_plain (name ++ post) = true ->
  subjectCN (js "subject=" ++ ws ++ js "CN=" ++ name ++ post) = Some name.
Proof.
  intros Hws Hname Hpost Hend. rewrite subjectCN_scan, trim_plain.
  - change (js "subject=") with (js "subject" ++ [equals]).
    rewrite <- app_assoc. rewrite cn_scan_skip by reflexivity.
    cbn [app cn_scan]. change (isSeparator equals) with true. cbv iota.
    unfold cn_attempt. rewrite dropWhile_free by exact Hws.
    change (js "CN=" ++ name ++ post)
      with (ch "C" :: ch "N" :: equals :: name ++ post).
    cbn [dropWhile]. change (isTrimmable (ch "C")) with false. cbv iota.
    rewrite !N.eqb_refl. cbn [andb].
    destruct Hpost as [->|(t & -> & Ht)].
    + rewrite app_nil_r, dropWhile_all by exact Hname.
      f_equal. rewrite <- (app_nil_r name) at 1.
      rewrite takeWhile_app by exact Hname. apply app_nil_r.
    + rewrite dropWhile_until, takeWhile_until, Ht;
        try exact Hname; try reflexivity.
  - reflexivity.
  - rewrite !app_assoc, <- app_assoc. rewrite ends_plain_app.
    destruct (name ++ post) eqn:E; [|exact Hend].
    rewrite ends_plain_app. reflexivity.
Qed.

Lemma allowed_ends_plain (name : jsstring) :
  forallb isAllowedAppNameChar name = true -> ends_plain name = true.
Proof.
  intros H. unfold ends_plain. rewrite <- forallb_rev in H.
  destruct (rev name) as [|c l]; [reflexivity|].
  cbn [forallb] in H. apply andb_true_iff in H as [Hc _].
  destruct (isTrimmable c) eqn:E; [|reflexivity]. exfalso.
  unfold isTrimmable, isWhiteSpace, isLineTerminator in E.
  unfold isAllowedAppNameChar, isWordChar in Hc.
  change (ch ".") with 46%N in Hc. change (ch "-") with 45%N in Hc.
  repeat match type of E with
         | (_ || _)%bool = true => apply orb_true_iff in E as [E|E]
         end;
    try (apply N.eqb_eq in E; subst c; discriminate Hc).
  apply andb_true_iff in E as [E1 E2].
  apply N.leb_le in E1. apply N.leb_le in E2.
  repeat match type of Hc with
         | (_ || _)%bool = true => apply orb_true_iff in Hc as [Hc|Hc]
         end;
    try (apply andb_true_iff in Hc as [H1 H2];
         apply N.leb_le in H1; apply N.leb_le in H2; lia);
    apply N.eqb_eq in Hc; lia.
Qed.

(** X8. Toolkits print the subject as [subject=X] or as [subject= X]. When
    the subject of the request is printed with any whitespace between
    [subject=] and a [CN=] attribute whose value is a non-empty name of
    allowed characters, alone or followed by a comma and further attributes
    on the same line, both providers return that name. *)
Theorem extractAppNameFromCSR_tolerates_whitespace
  (C : Collab) (csr ws name post : jsstring) (s s1 : St C)
  (Hsubject : readSubject C csr s
              = (Ok (js "subject=" ++ ws ++ js "CN=" ++ name ++ post), s1))
  (Hws : forallb isTrimmable ws = true)
  (Hname : name <> [])
  (Hallowed : forallb isAllowedAppNameChar name = true)
  (Hpost : closes post)
  (Hend : ends_plain post = true) :
  Server.extractAppNameFromCSR C csr s = (Ok name, s1)
  /\ Legacy.extractAppNameFromCSR C csr s = (Ok name, s1).
Proof.
  assert (Hcn : subjectCN (js "subject=" ++ ws ++ js "CN=" ++ name ++ post)
                = Some name).
  { apply subjectCN_after_whitespace; try assumption.
    - revert Hallowed. apply forallb_weaken, allowed_not_comma.
    - rewrite ends_plain_app. destruct post; [|exact Hend].
      now apply allowed_ends_plain. }
  unfold Server.extractAppNameFromCSR, Legacy.extractAppNameFromCSR.
  rewrite !extractAppNameFromCSR_run, Hsubject, Hcn.
  unfold Server.allowedAppNameRegex, Legacy.allowedAppNameRegex.
  rewrite allowedAppNameRegex_server_test, allowedAppNameRegex_legacy_test, Hallowed.
  destruct name; [now elim Hname|]. split; reflexivity.
Qed.

Lemma extractAppNameFromCSR_tolerates_whitespace_witness :
  let w := Lab.with_subject Lab.w0
             (Ok (js "subject= " ++ js "CN=com.example.app,O=Example")) in
  let s := Lab.start w in
  Server.extractAppNameFromCSR Lab.collab Lab.csr0 s
    = (Ok (js "com.example.app"), snd (readSubject Lab.collab Lab.csr0 s))
  /\ Legacy.extractAppNameFromCSR Lab.collab Lab.csr0 s
    = (Ok (js "com.example.app"), snd (readSubject Lab.collab Lab.csr0 s)).
Proof.
  intros w s.
  refine (extractAppNameFromCSR_tolerates_whitespace Lab.collab Lab.csr0
            (js " ") (js "com.example.app") (js ",O=Example") s
            (snd (readSubject Lab.collab Lab.csr0 s)) _ _ _ _ _ _).
  - vm_compute. reflexivity.
  - reflexivity.
  - discriminate.
  - reflexivity.
  - right. exists (js "O=Example"). split; reflexivity.
  - reflexivity.
Defined.

(** X9. The temporary file of [extractAppNameFromCSR] holds the request as
    it was given, the toolkit is asked for the subject of that file, and the
    file is removed exactly when the toolkit has answered, before the answer
    is looked at: a subject without a usable Common Name still removes the
    file, a failing toolkit leaves it. [generateClientCertificate] never
    removes its temporary file. *)
Theorem extractAppNameFromCSR_temporary_file
  (C : Collab) (r : regex) (csr path : jsstring) (s : St C)
  (w1 w2 w3 : World C) (answer : Res jsstring)
  (Htmp : tmp_file C (world s) = (Ok path, w1))
  (Hwrite : fs_writeFile C path csr w1 = (Ok tt, w2))
  (Hreq : openssl_exec C (js "req") (subjectOptions path) w2 = (answer, w3)) :
  events_since s (snd (Common.extractAppNameFromCSR C r csr s))
  = [EvTmpFile; EvWriteFile path csr; EvOpenssl (js "req") (subjectOptions path)]
    ++ (if is_ok answer then [EvUnlink path] else [])
  /\ forall s0 : St C,
       forallb (fun e => negb (isRemovalEvent e))
         (events_since s0 (snd (Common.generateClientCertificate C csr s0))) = true.
Proof.
  split.
  - unfold Common.extractAppNameFromCSR, subjectOptions in *. unfold_calls.
    use_calls. destruct answer as [subject|e]; cbn [is_ok].
    + repeat first [run_step | run_goal_test]; cbn [snd]; now normalize_trace.
    + cbn [snd]. now normalize_trace.
  - intros s0. unfold Common.generateClientCertificate. unfold_calls.
    repeat run_step; cbn [snd]; now normalize_trace.
Qed.

Lemma extractAppNameFromCSR_temporary_file_witness :
  let w := Lab.with_subject Lab.w0 (Ok (js "subject=O=Example")) in
  let s := Lab.start w in
  events_since s (snd (Server.extractAppNameFromCSR Lab.collab Lab.csr0 s))
  = [EvTmpFile; EvWriteFile (js "/tmp/fa") Lab.csr0;
     EvOpenssl (js "req") (subjectOptions (js "/tmp/fa"));
     EvUnlink (js "/tmp/fa")].
Proof.
  intros w s.
  exact (proj1 (extractAppNameFromCSR_temporary_file Lab.collab
                  Server.allowedAppNameRegex Lab.csr0 (js "/tmp/fa") s
                  _ _ _ (Ok (js "subject=O=Example")) eq_refl eq_refl eq_refl)).
Defined.

(** ** Validity, for every behaviour of the collaborators *)

(** X10. A certificate is accepted on these grounds only. Server provider:
    the file is there, and either the quick check passed or, after it
    failed, the toolkit printed an end date that could be parsed and lies
    more than 86400 s after the current time. Legacy provider: the file is
    there, the quick check passed, and the end date could be parsed and lies
    more than 86400 s after the current time. An end date that cannot be
    read or parsed never lets a certificate through. *)
Theorem checkCertIsValid_accepts_only
  (C : Collab) (filename : jsstring) (s : St C) :
  (fst (Server.checkCertIsValid C filename s) = Ok tt ->
   exists w1 quick w2,
     fs_pathExists C filename (world s) = (true, w1)
     /\ openssl_exec C (js "x509") (checkendOptions filename) w1 = (quick, w2)
     /\ (is_ok quick = true \/ beyond_window C filename w2))
  /\ (fst (Legacy.checkCertIsValid C filename s) = Ok tt ->
      exists w1 quick w2,
        fs_pathExists C filename (world s) = (true, w1)
        /\ openssl_exec C (js "x509") (checkendOptions filename) w1 = (quick, w2)
        /\ is_ok quick = true /\ beyond_window C filename w2).
Proof.
  unfold Server.checkCertIsValid, Legacy.checkCertIsValid, Common.checkEndDate,
    beyond_window, parsedEndDate, checkendOptions, enddateOptions.
  unfold_calls.
  split; intros H;
    repeat first [run_step | run_test]; try discriminate;
    repeat match goal with
           | E : (_ <=? _)%Z = false |- _ =>
               apply Z.leb_gt in E;
               change (minCertExpiryWindowSeconds * 1000)%Z with (86400 * 1000)%Z in E
           | b : bool |- _ => destruct b; try discriminate
           end;
    do 3 eexists; (split; [reflexivity|]); (split; [eassumption|]).
  all: try (left; reflexivity).
  all: try right; try (split; [reflexivity|]).
  all: do 5 eexists; repeat split; try eassumption.
  all: match goal with
       | E : nth_error _ 1 = Some _ |- _ => rewrite E; assumption
       end.
Qed.

(** ** The end date in the toolkit's output *)

Lemma split_on_plain (sep : N) (d : jsstring) :
  forallb (fun c => negb (c =? sep)%N) d = true -> split_on sep d = [d].
Proof.
  induction d as [|c t IH]; [reflexivity|].
  cbn [forallb split_on]. intros H. apply andb_true_iff in H as [Hc Ht].
  apply negb_true_iff in Hc. now rewrite Hc, IH.
Qed.

Lemma split_on_first (sep : N) (k d : jsstring) :
  forallb (fun c => negb (c =? sep)%N) k = true ->
  split_on sep (k ++ sep :: d) = k :: split_on sep d.
Proof.
  induction k as [|c t IH]; intros H.
  - cbn [app split_on]. now rewrite N.eqb_refl.
  - cbn [forallb] in H. apply andb_true_iff in H as [Hc Ht].
    apply negb_true_iff in Hc. cbn [app split_on]. now rewrite Hc, IH.
Qed.

Lemma trimEnd_after_plain (x : jsstring) (c : N) (d : jsstring) :
  isTrimmable c = false -> trimEnd (x ++ c :: d) = x ++ c :: trimEnd d.
Proof.
  intros Hc. unfold trimEnd. rewrite rev_app_distr. cbn [rev].
  rewrite <- app_assoc. cbn [app]. rewrite dropWhile_app.
  destruct (forallb isTrimmable (rev d)) eqn:Hd.
  - cbn [dropWhile]. rewrite Hc. rewrite (dropWhile_all _ _ Hd).
    cbn [rev]. now rewrite rev_involutive.
  - rewrite rev_app_distr. cbn [rev]. rewrite rev_involutive, <- app_assoc.
    reflexivity.
Qed.

Lemma trimEnd_keeps (p : N -> bool) (d : jsstring) :
  forallb p d = true -> forallb p (trimEnd d) = true.
Proof.
  intros H. unfold trimEnd. rewrite forallb_rev. apply forallb_dropWhile.
  now rewrite forallb_rev.
Qed.

Lemma trim_trimEnd (d : jsstring) : trim (trimEnd d) = trim d.
Proof.
  assert (H : exists post, d = trimEnd d ++ post /\ forallb isTrimmable post = true).
  { exists (rev (takeWhile isTrimmable (rev d))). split.
    - unfold trimEnd. rewrite <- rev_app_distr, takeWhile_dropWhile.
      now rewrite rev_involutive.
    - rewrite forallb_rev. apply forallb_takeWhile. }
  destruct H as (post & E & Hpost). rewrite E at 2.
  symmetry. exact (trim_pad [] (trimEnd d) post eq_refl Hpost).
Qed.

(** X11. Which part of the toolkit's output is read as the end date. For
    an output [KEY=date], possibly with whitespace in front, where neither
    the key nor the date has an [=] sign, the date handed to [Date.parse]
    is [date] without the whitespace around it. For an output without an
    [=] sign nothing is read, and [checkEndDate] fails with a type error
    before [Date.parse] is called. *)
Theorem parsedEndDate_reads_second_field
  (C : Collab) (pre k d : jsstring)
  (Hpre : forallb isTrimmable pre = true)
  (Hk : k <> [])
  (Hstart : starts_plain k = true)
  (Hkey : forallb notEquals k = true)
  (Hdate : forallb notEquals d = true) :
  parsedEndDate C (pre ++ k ++ equals :: d) = Date_parse C (trim d)
  /\ (forall out, forallb notEquals out = true -> parsedEndDate C out = None)
  /\ (forall filename out (s : St C) w,
        openssl_exec C (js "x509") (enddateOptions filename) (world s) = (Ok out, w) ->
        forallb notEquals out = true ->
        Common.checkEndDate C filename s
        = (Err TypeError,
           mkSt w (trace s ++ [EvOpenssl (js "x509") (enddateOptions filename)]))).
Proof.
  assert (Hnone : forall out, forallb notEquals out = true ->
                    nth_error (split_on (ch "=") (trim out)) 1 = None).
  { intros out Hout. rewrite split_on_plain; [reflexivity|].
    unfold trim. apply trimEnd_keeps. unfold trimStart.
    now apply forallb_dropWhile. }
  split; [|split].
  - unfold parsedEndDate.
    assert (Htrim : trim (pre ++ k ++ equals :: d) = k ++ equals :: trimEnd d).
    { unfold trim, trimStart. rewrite dropWhile_free by exact Hpre.
      destruct k as [|c t]; [now elim Hk|].
      cbn [starts_plain] in Hstart. apply negb_true_iff in Hstart.
      cbn [app dropWhile]. rewrite Hstart.
      change (c :: t ++ equals :: d) with ((c :: t) ++ equals :: d).
      now apply trimEnd_after_plain. }
    rewrite Htrim. change (ch "=") with equals.
    rewrite split_on_first by exact Hkey.
    rewrite split_on_plain by (apply trimEnd_keeps; exact Hdate).
    cbn [nth_error]. now rewrite trim_trimEnd.
  - intros out Hout. unfold parsedEndDate. now rewrite Hnone.
  - intros filename out s w Hcall Hout.
    unfold Common.checkEndDate, enddateOptions in *. unfold_calls.
    rewrite Hcall. now rewrite (Hnone out Hout).
Qed.

Lemma parsedEndDate_reads_second_field_witness :
  parsedEndDate Lab.collab ([LF] ++ js "notAfter" ++ equals :: js "900000000 " ++ [LF])
  = Some 900000000%Z.
Proof.
  exact (proj1 (parsedEndDate_reads_second_field Lab.collab [LF] (js "notAfter")
                  (js "900000000 " ++ [LF]) eq_refl ltac:(discriminate)
                  eq_refl eq_refl eq_refl)).
Defined.

(** ** Keeping and replacing the certificates *)

(** X12. [ensureCertificateAuthorityExists] keeps a certificate authority
    whose key is there and whose certificate passes [checkCertIsValid]: it
    resolves, and no call of the toolkit has written a key or a certificate.
    When the key is missing, or the certificate does not pass, the error of
    the check is dropped and the outcome is that of
    [generateCertificateAuthority]. Both providers. *)
Theorem ensureCertificateAuthorityExists_keeps_valid_CA
  (C : Collab) (s : St C) (present : bool) (w1 : World C)
  (Hkey : fs_pathExists C (Common.caKey C) (world s) = (present, w1)) :
  let s1 := mkSt w1 (trace s ++ [EvPathExists (Common.caKey C)]) in
  let kept (checked : Res unit * St C) (run : Res unit * St C) : Prop :=
    if present && is_ok (fst checked) then
      run = (Ok tt, snd checked)
      /\ forallb (fun e => negb (writesCredential e))
           (events_since s (snd checked)) = true
    else
      run = Common.generateCertificateAuthority C
              (if present then snd checked else s1) in
  kept (Server.checkCertIsValid C (Common.caCert C) s1)
       (Server.ensureCertificateAuthorityExists C s)
  /\ kept (Legacy.checkCertIsValid C (Common.caCert C) s1)
          (Legacy.ensureCertificateAuthorityExists C s).
Proof.
  intros s1 kept. subst s1 kept.
  unfold Server.ensureCertificateAuthorityExists,
    Legacy.ensureCertificateAuthorityExists,
    Common.ensureCertificateAuthorityExists,
    Server.checkCertIsValid, Legacy.checkCertIsValid, Common.checkEndDate.
  unfold_calls. rewrite Hkey.
  destruct present; cbn [negb andb]; [|split; reflexivity].
  split;
    repeat first [progress cbn [fst snd is_ok andb negb] | run_step | run_goal_test];
    try reflexivity;
    repeat match goal with u : unit |- _ => destruct u end;
    (split; [reflexivity|]); now normalize_trace.
Qed.

Lemma ensureCertificateAuthorityExists_keeps_valid_CA_witness :
  let s := Lab.start Lab.w0 in
  let s1 := mkSt (Lab.w0 : World Lab.collab) [EvPathExists (Common.caKey Lab.collab)] in
  Server.ensureCertificateAuthorityExists Lab.collab s
  = (Ok tt, snd (Server.checkCertIsValid Lab.collab (Common.caCert Lab.collab) s1)).
Proof.
  intros s s1.
  exact (proj1 (proj1 (ensureCertificateAuthorityExists_keeps_valid_CA Lab.collab s
                         true Lab.w0 eq_refl))).
Defined.

(** X13. When the server key, the server certificate or the CA certificate
    is missing, [ensureServerCertExists] goes straight to
    [generateServerCertificate]: no certificate is checked. The server
    provider has looked for all three files by then; the legacy provider
    stops looking at the first file that is missing. *)
Theorem ensureServerCertExists_missing_file
  (C : Collab) (s : St C) (k c a : bool) (w1 w2 w3 : World C)
  (Hkey : fs_pathExists C (Common.serverKey C) (world s) = (k, w1))
  (Hcert : fs_pathExists C (Common.serverCert C) w1 = (c, w2))
  (Hca : fs_pathExists C (Common.caCert C) w2 = (a, w3))
  (Hmissing : k && c && a = false) :
  let key := EvPathExists (Common.serverKey C) in
  let cert := EvPathExists (Common.serverCert C) in
  let ca := EvPathExists (Common.caCert C) in
  Server.ensureServerCertExists C s
  = Server.generateServerCertificate C (mkSt w3 (trace s ++ [key; cert; ca]))
  /\ Legacy.ensureServerCertExists C s
     = Legacy.generateServerCertificate C
         (if negb k then mkSt w1 (trace s ++ [key])
          else if negb c then mkSt w2 (trace s ++ [key; cert])
               else mkSt w3 (trace s ++ [key; cert; ca])).
Proof.
  intros key cert ca. subst key cert ca.
  unfold Server.ensureServerCertExists, Legacy.ensureServerCertExists, Promise_all.
  cbn [settle_all map]. unfold_calls. use_calls. cbn [collect forallb].
  rewrite <- !app_assoc. cbn [app].
  destruct k, c, a; try discriminate Hmissing; cbn [negb andb];
    use_calls; rewrite <- ?app_assoc; cbn [app]; split; reflexivity.
Qed.

Lemma ensureServerCertExists_missing_file_witness :
  let w := Lab.with_files Lab.w0
             [(Common.caKey Lab.collab, js "key"); (Common.caCert Lab.collab, js "ca");
              (Common.serverCert Lab.collab, js "cert")] in
  let C := Lab.collab in
  Server.ensureServerCertExists C (Lab.start w)
  = Server.generateServerCertificate C
      (mkSt (w : World C)
         [EvPathExists (Common.serverKey C); EvPathExists (Common.serverCert C);
          EvPathExists (Common.caCert C)])
  /\ Legacy.ensureServerCertExists C (Lab.start w)
     = Legacy.generateServerCertificate C
         (mkSt (w : World C) [EvPathExists (Common.serverKey C)]).
Proof.
  intros w C.
  exact (ensureServerCertExists_missing_file C (Lab.start w) false true true
           w w w eq_refl eq_refl eq_refl eq_refl).
Defined.

(** The expiry check of the legacy provider when the quick check fails. *)
Lemma legacy_checkCertIsValid_quick
  (C : Collab) (filename : jsstring) (s : St C) (e : error) (w1 w2 : World C) :
  fs_pathExists C filename (world s) = (true, w1) ->
  openssl_exec C (js "x509") (checkendOptions filename) w1 = (Err e, w2) ->
  Legacy.checkCertIsValid C filename s
  = (Err e, mkSt w2 (trace s ++ [EvPathExists filename;
                                 EvOpenssl (js "x509") (checkendOptions filename);
                                 EvConsole LWarn (js "Certificate will expire soon: ")])).
Proof.
  intros Hthere Hquick. unfold Legacy.checkCertIsValid, checkendOptions in *.
  unfold_calls. use_calls. cbn [negb]. use_calls. now rewrite <- !app_assoc.
Qed.

(** The same when the quick check passes and the end date can be parsed. *)
Lemma legacy_checkCertIsValid_dated
  (C : Collab) (filename q out : jsstring) (s : St C)
  (w1 w2 w3 w4 : World C) (expiry t : Z) :
  fs_pathExists C filename (world s) = (true, w1) ->
  openssl_exec C (js "x509") (checkendOptions filename) w1 = (Ok q, w2) ->
  openssl_exec C (js "x509") (enddateOptions filename) w2 = (Ok out, w3) ->
  parsedEndDate C out = Some expiry ->
  Date_now C w3 = (t, w4) ->
  Legacy.checkCertIsValid C filename s
  = (if (t + 86400 * 1000 <? expiry)%Z then Ok tt else Err CertExpired,
     mkSt w4 (trace s ++ [EvPathExists filename;
                          EvOpenssl (js "x509") (checkendOptions filename);
                          EvOpenssl (js "x509") (enddateOptions filename);
                          EvDateNow])).
Proof.
  intros Hthere Hquick Hend Hparse Hnow.
  unfold Legacy.checkCertIsValid, checkendOptions in *.
  unfold_calls. use_calls. cbn [negb]. use_calls.
  rewrite (checkEndDate_run C filename out w2 w3 w4 _ expiry t Hend Hparse Hnow).
  now rewrite <- !app_assoc.
Qed.

Lemma legacy_ensureServerCertExists_run
  (C : Collab) (s : St C) (w1 w2 w3 w4 : World C)
  (valid : Res unit) (s2 : St C) (answer : Res jsstring) :
  fs_pathExists C (Common.serverKey C) (world s) = (true, w1) ->
  fs_pathExists C (Common.serverCert C) w1 = (true, w2) ->
  fs_pathExists C (Common.caCert C) w2 = (true, w3) ->
  Legacy.checkCertIsValid C (Common.serverCert C)
    (mkSt w3 (trace s ++ [EvPathExists (Common.serverKey C);
                          EvPathExists (Common.serverCert C);
                          EvPathExists (Common.caCert C)]))
  = (valid, s2) ->
  openssl_exec C (js "verify") (verifyOptions C) (world s2) = (answer, w4) ->
  let s3 := mkSt w4 (trace s2 ++ [EvOpenssl (js "verify") (verifyOptions C)]) in
  Legacy.ensureServerCertExists C s =
    if is_ok valid
    then if issuedByCA answer then (Ok tt, s3)
         else Legacy.generateServerCertificate C s3
    else Legacy.generateServerCertificate C s2.
Proof.
  intros Hkey Hcert Hca Hvalid Hverify s3.
  unfold Legacy.ensureServerCertExists.
  unfold Common.verifyServerCertWasIssuedByCA, verifyOptions in *.
  unfold_calls. use_calls. cbn [negb].
  rewrite <- !app_assoc. cbn [app]. rewrite Hvalid.
  destruct valid as [[]|e]; cbn [is_ok]; [|reflexivity].
  use_calls. subst s3.
  destruct answer as [output|e]; cbn [issuedByCA]; [|reflexivity].
  unfold regex_test.
  destruct (regex_exec verifiedRegex output); reflexivity.
Qed.

(** X14. The legacy provider, with the server key, the server certificate
    and the CA certificate all there: [ensureServerCertExists] runs the
    expiry check on the server certificate; if the check fails the server
    certificate is regenerated; if it passes the chain is verified against
    the CA on disk, and the certificate is kept when the toolkit answers OK
    and regenerated otherwise. Nothing is logged before a regeneration.
    The expiry check is the real one: a certificate whose quick check fails
    is regenerated, with the end date not read; one whose quick check passes
    has its end date read, and is regenerated when that date lies within
    86400 s of the current time and verified otherwise. To regenerate is to
    ensure the certificate authority and then to make a server key, a
    request with it and a certificate signed with the CA on disk; when the
    toolkit does not reject these three calls the regeneration resolves. *)
Theorem legacy_ensureServerCertExists_checks_expiry_and_chain
  (C : Collab) (s : St C) (w1 w2 w3 : World C)
  (Hkey : fs_pathExists C (Common.serverKey C) (world s) = (true, w1))
  (Hcert : fs_pathExists C (Common.serverCert C) w1 = (true, w2))
  (Hca : fs_pathExists C (Common.caCert C) w2 = (true, w3)) :
  let cert := Common.serverCert C in
  let s0 := mkSt w3 (trace s ++ [EvPathExists (Common.serverKey C);
                                 EvPathExists cert;
                                 EvPathExists (Common.caCert C)]) in
  let verify := EvOpenssl (js "verify") (verifyOptions C) in
  let chain (st : St C) : Res unit * St C :=
    let (answer, w) := toolkit C verify (world st) in
    if issuedByCA answer then (Ok tt, mkSt w (trace st ++ [verify]))
    else Legacy.generateServerCertificate C (mkSt w (trace st ++ [verify])) in
  let run := Legacy.ensureServerCertExists C s in
  (forall valid s2,
      Legacy.checkCertIsValid C cert s0 = (valid, s2) ->
      run = if is_ok valid then chain s2
            else Legacy.generateServerCertificate C s2)
  /\ (forall w4 quick w5,
        fs_pathExists C cert w3 = (true, w4) ->
        openssl_exec C (js "x509") (checkendOptions cert) w4 = (quick, w5) ->
        let checked := trace s0 ++ [EvPathExists cert;
                                    EvOpenssl (js "x509") (checkendOptions cert)] in
        (is_ok quick = false ->
         run = Legacy.generateServerCertificate C
                 (mkSt w5 (checked
                           ++ [EvConsole LWarn (js "Certificate will expire soon: ")])))
        /\ (forall out w6 expiry t w7,
              is_ok quick = true ->
              openssl_exec C (js "x509") (enddateOptions cert) w5 = (Ok out, w6) ->
              parsedEndDate C out = Some expiry ->
              Date_now C w6 = (t, w7) ->
              let dated :=
                mkSt w7 (checked ++ [EvOpenssl (js "x509") (enddateOptions cert);
                                     EvDateNow]) in
              run = if (t + 86400 * 1000 <? expiry)%Z then chain dated
                    else Legacy.generateServerCertificate C dated))
  /\ (forall st : St C,
        Legacy.generateServerCertificate C st =
        match Legacy.ensureCertificateAuthorityExists C st with
        | (Ok _, s1) => regenerated C s1
        | (Err e, s1) => (Err e, s1)
        end)
  /\ (forall (s1 : St C) key w4 request w5 signed w6,
        toolkit C (generateServerKey C) (world s1) = (Ok key, w4) ->
        toolkit C (requestServerCert C) w4 = (Ok request, w5) ->
        toolkit C (signServerCert C) w5 = (Ok signed, w6) ->
        regenerated C s1
        = (Ok tt, mkSt w6 (trace s1 ++ [creatingServerCert; generateServerKey C;
                                        requestServerCert C; signServerCert C]))).
Proof.
  intros cert s0 verify chain run.
  assert (Hrun : forall valid s2,
             Legacy.checkCertIsValid C cert s0 = (valid, s2) ->
             run = if is_ok valid then chain s2
                   else Legacy.generateServerCertificate C s2).
  { intros valid s2 Hvalid. subst run chain verify. cbv beta.
    unfold toolkit.
    destruct (openssl_exec C (js "verify") (verifyOptions C) (world s2))
      as [answer w4] eqn:Hverify.
    exact (legacy_ensureServerCertExists_run C s w1 w2 w3 w4 valid s2 answer
             Hkey Hcert Hca Hvalid Hverify). }
  split; [exact Hrun|]. split; [|split].
  - intros w4 quick w5 Hthere Hquick checked. split.
    + destruct quick as [q|e]; [discriminate|intros _].
      pose proof (Hrun _ _ (legacy_checkCertIsValid_quick C cert s0 e w4 w5
                              Hthere Hquick)) as H.
      subst checked. rewrite <- app_assoc. exact H.
    + intros out w6 expiry t w7 Hpass Hend Hparse Hnow dated.
      destruct quick as [q|e]; [|discriminate].
      pose proof (Hrun _ _ (legacy_checkCertIsValid_dated C cert q out s0
                              w4 w5 w6 w7 expiry t Hthere Hquick Hend Hparse Hnow))
        as H.
      subst dated checked. rewrite <- app_assoc. cbn [app].
      destruct (t + 86400 * 1000 <? expiry)%Z; exact H.
  - intros st. apply generateServerCertificate_run.
  - intros s1 key w4 request w5 signed w6 H1 H2 H3. unfold regenerated.
    now rewrite H1, H2, H3.
Qed.

Lemma legacy_ensureServerCertExists_checks_expiry_and_chain_witness :
  let w := Lab.with_toolkit Lab.w0 (Err (External (js "Certificate will expire")))
             (Ok (js "notAfter=900000000"))
             (Ok (js "serverCert: OK")) in
  let C := Lab.collab in
  Legacy.ensureServerCertExists C (Lab.start w)
  = Legacy.generateServerCertificate C
      (mkSt (w : World C)
         [EvPathExists (Common.serverKey C); EvPathExists (Common.serverCert C);
          EvPathExists (Common.caCert C); EvPathExists (Common.serverCert C);
          EvOpenssl (js "x509") (checkendOptions (Common.serverCert C));
          EvConsole LWarn (js "Certificate will expire soon: ")]).
Proof.
  intros w C.
  destruct (legacy_ensureServerCertExists_checks_expiry_and_chain C (Lab.start w)
              w w w eq_refl eq_refl eq_refl) as (_ & Hcheck & _).
  exact (proj1 (Hcheck w (Err (External (js "Certificate will expire"))) w
                  eq_refl eq_refl) eq_refl).
Defined.

(** ** Generating *)

(** X26. What a generation does, in order.
    [generateCertificateAuthority] looks for the folder of the certificates
    and makes it exactly when the probe says that it is not there, then
    makes the CA key, then a self-signed CA certificate for the CA subject
    with that key: such is the run when none of these calls is rejected, and
    such are the calls of every run that resolved.
    [generateServerCertificate]: [ensureCertificateAuthorityExists]
    resolved first, then it made the server key, a request for the server
    subject with that key, and signed the request with the CA on disk. A
    certificate authority that cannot be ensured stops the generation of
    the server certificate before the server key is touched. *)
Theorem generation_in_order
  (C : Collab) (check : jsstring -> M C unit) (s : St C)
  (there : bool) (w1 : World C)
  (Hfolder : fs_pathExists C (certsFolder C) (world s) = (there, w1)) :
  let calls :=
    EvPathExists (certsFolder C)
    :: (if there then [] else [EvMkdir (certsFolder C)])
    ++ [EvConsole LLog (js "Generating new CA"); generateCAKey C; selfSignCA C] in
  (forall w2 key w3 cert w4,
      (if there then w2 = w1 else fs_mkdir C (certsFolder C) w1 = (Ok tt, w2)) ->
      toolkit C (generateCAKey C) w2 = (Ok key, w3) ->
      toolkit C (selfSignCA C) w3 = (Ok cert, w4) ->
      Common.generateCertificateAuthority C s = (Ok tt, mkSt w4 (trace s ++ calls)))
  /\ (forall s',
        Common.generateCertificateAuthority C s = (Ok tt, s') ->
        events_since s s' = calls)
  /\ (forall s',
        Common.generateServerCertificate C check s = (Ok tt, s') ->
        exists s1 w,
          Common.ensureCertificateAuthorityExists C check s = (Ok tt, s1)
          /\ s' = mkSt w
                    (trace s1 ++ [EvConsole LWarn (js "Creating new server cert");
                                  generateServerKey C; requestServerCert C;
                                  signServerCert C]))
  /\ (forall e s1,
        Common.ensureCertificateAuthorityExists C check s = (Err e, s1) ->
        Common.generateServerCertificate C check s = (Err e, s1)).
Proof.
  intros calls. subst calls. split; [|split; [|split]].
  - intros w2 key w3 cert w4 Hmade Hkey Hcert.
    unfold Common.generateCertificateAuthority, toolkit, certsFolder,
      generateCAKey, selfSignCA in *.
    unfold_calls.
    destruct there; [subst w2|]; use_calls; cbn [negb]; use_calls;
      rewrite <- ?app_assoc; reflexivity.
  - intros s'. unfold Common.generateCertificateAuthority, certsFolder,
      generateCAKey, selfSignCA in *.
    unfold_calls. rewrite Hfolder. intros H.
    destruct there; cbn [negb] in H;
      repeat first [run_step | run_test]; try discriminate;
      injection H as <-; now normalize_trace.
  - intros s'. unfold Common.generateServerCertificate, generateServerKey,
      requestServerCert, signServerCert.
    unfold_calls. intros H.
    destruct (Common.ensureCertificateAuthorityExists C check s) as [[[]|e] s1];
      [|discriminate].
    repeat run_step; try discriminate. injection H as <-.
    eexists _, _. split; [reflexivity|]. rewrite <- !app_assoc. reflexivity.
  - intros e s1 H. unfold Common.generateServerCertificate, bind. now rewrite H.
Qed.

Lemma generation_in_order_witness :
  let C := Lab.collab in
  let s := Lab.start Lab.w0 in
  events_since s (snd (Common.generateCertificateAuthority C s))
  = [EvPathExists (certsFolder C); EvMkdir (certsFolder C);
     EvConsole LLog (js "Generating new CA"); generateCAKey C; selfSignCA C].
Proof.
  intros C s.
  assert (Hrun : Common.generateCertificateAuthority C s
                 = (Ok tt, snd (Common.generateCertificateAuthority C s)))
    by (vm_compute; reflexivity).
  exact (proj1 (proj2 (generation_in_order C (Server.checkCertIsValid C) s
                         false Lab.w0 eq_refl)) _ Hrun).
Defined.

(** ** The provider object *)

(** X15. The constructor of the server provider never rejects, and keeps
    the settings it was given. With Android disabled no adb client is
    requested, and the [adb] getter of the provider throws the
    not-enabled error. With Android enabled and a request for a client
    that is rejected, a notification is emitted, and the getter throws the
    initialisation error once that promise has settled. In a test run the
    certificate setup is a rejection and nothing but the adb
    initialisation has happened: no file is looked at and the toolkit is
    not called. Otherwise the certificate setup is the outcome of
    [ensureServerCertExists], run after the adb initialisation; it is
    reported, and logged as an error when it failed. *)
Theorem new_CertificateProvider_settles
  (C : Collab) (cfg : CertificateProviderConfig) (s : St C)
  (client : Res unit) (w1 : World C)
  (Hclient : getAdbClient C (Some cfg) (world s) = (client, w1)) :
  let init := adbInitialisation (enableAndroid cfg) client in
  let s1 := mkSt (if enableAndroid cfg then w1 else world s) (trace s ++ init) in
  exists this s',
    Server.new_CertificateProvider C cfg s = (Ok this, s')
    /\ Server.config this = cfg
    /\ Server._adb this
       = (if enableAndroid cfg && is_ok client then Some tt else None)
    /\ (forall s0 : St C,
          Server.adb C this s0
          = (if enableAndroid cfg
             then if is_ok client then Ok tt else Err AdbInitFailed
             else Err AndroidNotEnabled, s0))
    /\ (isTest C = true ->
        Server.certificateSetup this = Err ServerCertsNotAvailableInTest
        /\ s' = s1)
    /\ (isTest C = false ->
        let run := Server.ensureServerCertExists C s1 in
        Server.certificateSetup this = fst run
        /\ world s' = world (snd run)
        /\ exists report,
             trace s' =
             trace (snd run)
             ++ report :: (if is_ok (fst run) then []
                           else [EvConsole LError
                                   (js "Failed to find or generate certificates")])).
Proof.
  intros init s1. subst init s1.
  assert (Hs : mkSt (world s) (trace s) = s) by (destruct s; reflexivity).
  unfold Server.new_CertificateProvider, Server.adb, adbInitialisation,
    Common.reportPlatformFailures.
  unfold_calls.
  destruct (enableAndroid cfg) eqn:Hen; cbn [andb]; rewrite ?app_nil_r, ?Hs;
    [rewrite Hclient; destruct client as [[]|e]|];
    cbn [is_ok world trace]; rewrite <- ?app_assoc; cbn [app];
    (destruct (isTest C) eqn:Ht;
     [|match goal with
       | |- context [Server.ensureServerCertExists C ?st] =>
           destruct (Server.ensureServerCertExists C st) as [[[]|e'] s2] eqn:E
       end]);
    cbn [is_ok world trace];
    eexists _, _; (split; [reflexivity|]);
    cbn [Server.config Server._adb Server.certificateSetup]; rewrite ?Hen;
    repeat split; try discriminate; try reflexivity;
    rewrite <- ?app_assoc; cbn [app]; rewrite ?E;
    cbn [fst snd is_ok world trace]; try eexists;
    rewrite <- ?app_assoc; reflexivity.
Qed.

Lemma new_CertificateProvider_settles_witness :
  let cfg := {| idbPath := js "/usr/local/bin/idb"; enableAndroid := false;
                enableIOS := true; androidHome := js "/opt/android";
                enablePhysicalIOS := true |} in
  let s := Lab.start Lab.w0 in
  exists this s',
    Server.new_CertificateProvider Lab.collab cfg s = (Ok this, s')
    /\ Server._adb this = None
    /\ Server.adb Lab.collab this s = (Err AndroidNotEnabled, s)
    /\ Server.certificateSetup this = Ok tt.
Proof.
  intros cfg s.
  destruct (new_CertificateProvider_settles Lab.collab cfg s (Ok tt) Lab.w0 eq_refl)
    as (this & s' & Hrun & _ & Hadb & Hget & _ & Hsetup).
  exists this, s'. split; [exact Hrun|]. split; [exact Hadb|].
  split; [exact (Hget s)|].
  destruct (Hsetup eq_refl) as (-> & _). vm_compute. reflexivity.
Defined.

(** X16. [loadSecureServerConfig] waits for the certificate setup. After a
    setup that failed it rejects with the error of the setup and reads no
    file. After a setup that succeeded it reads the server key, the server
    certificate and the CA certificate, in this order and each once; the
    configuration it returns holds what was read and always asks for and
    verifies client certificates; the first read that fails is the
    outcome. The two providers do the same. *)
Theorem loadSecureServerConfig_after_setup
  (C : Collab) (this : Server.CertificateProvider)
  (lthis : Legacy.CertificateProvider) (s : St C)
  (Hsame : Legacy.certificateSetup lthis = Server.certificateSetup this) :
  Legacy.loadSecureServerConfig C lthis s = Server.loadSecureServerConfig C this s
  /\ (forall e, Server.certificateSetup this = Err e ->
        Server.loadSecureServerConfig C this s = (Err e, s))
  /\ (Server.certificateSetup this = Ok tt ->
      forall key w1 cert w2 ca w3,
        fs_readFile C (Common.serverKey C) (world s) = (key, w1) ->
        fs_readFile C (Common.serverCert C) w1 = (cert, w2) ->
        fs_readFile C (Common.caCert C) w2 = (ca, w3) ->
        Server.loadSecureServerConfig C this s =
        match key, cert, ca with
        | Ok k, Ok c, Ok a =>
            (Ok {| Common.key := k; Common.cert := c; Common.ca := a;
                   Common.requestCert := true;
                   Common.rejectUnauthorized := true |},
             mkSt w3 (trace s ++ [EvReadFile (Common.serverKey C);
                                  EvReadFile (Common.serverCert C);
                                  EvReadFile (Common.caCert C)]))
        | Ok k, Ok c, Err e =>
            (Err e,
             mkSt w3 (trace s ++ [EvReadFile (Common.serverKey C);
                                  EvReadFile (Common.serverCert C);
                                  EvReadFile (Common.caCert C)]))
        | Ok k, Err e, _ =>
            (Err e,
             mkSt w2 (trace s ++ [EvReadFile (Common.serverKey C);
                                  EvReadFile (Common.serverCert C)]))
        | Err e, _, _ =>
            (Err e, mkSt w1 (trace s ++ [EvReadFile (Common.serverKey C)]))
        end).
Proof.
  unfold Legacy.loadSecureServerConfig, Server.loadSecureServerConfig.
  rewrite Hsame. split; [reflexivity|]. split.
  - intros e ->. reflexivity.
  - intros -> key w1 cert w2 ca w3 Hkey Hcert Hca. unfold_calls. use_calls.
    destruct key as [k|e]; [|reflexivity]. use_calls.
    destruct cert as [c|e]; [|now rewrite <- app_assoc]. use_calls.
    rewrite <- !app_assoc. destruct ca as [a|e]; reflexivity.
Qed.

Lemma loadSecureServerConfig_after_setup_witness :
  fst (Server.loadSecureServerConfig Lab.collab Lab.server (Lab.start Lab.w0))
  = Ok {| Common.key := js "key"; Common.cert := js "cert"; Common.ca := js "ca";
          Common.requestCert := true; Common.rejectUnauthorized := true |}
  /\ Legacy.loadSecureServerConfig Lab.collab Lab.legacy (Lab.start Lab.w0)
     = Server.loadSecureServerConfig Lab.collab Lab.server (Lab.start Lab.w0).
Proof.
  destruct (loadSecureServerConfig_after_setup Lab.collab Lab.server Lab.legacy
              (Lab.start Lab.w0) eq_refl) as (Hsame & _ & Hread).
  split; [|exact Hsame].
  rewrite (Hread eq_refl _ _ _ _ _ _ eq_refl eq_refl eq_refl). reflexivity.
Defined.

(** X17. After a certificate setup that failed, a request that is not
    empty is rejected with the error of the setup before anything is done
    with certificates: the providers probe for the toolkit (a missing
    toolkit is reported and does not stop them), the server provider also
    makes its temporary folder (whose failure comes first), and that is
    all. The CA certificate is not read, nothing is signed, nothing is
    deployed. *)
Theorem failed_setup_stops_the_exchange
  (C : Collab) (this : Server.CertificateProvider)
  (lthis : Legacy.CertificateProvider)
  (raw os appDirectory : jsstring)
  (medium : Server.CertificateExchangeMedium)
  (lmedium : Legacy.CertificateExchangeMedium)
  (s : St C) (e : error) (installed : bool) (w1 w2 : World C)
  (folder : Res jsstring)
  (Hraw : santitizeString raw <> [])
  (Hsetup : Server.certificateSetup this = Err e)
  (Hlsetup : Legacy.certificateSetup lthis = Err e)
  (Hprobe : opensslInstalled C (world s) = (installed, w1))
  (Hfolder : tmp_dir C w1 = (folder, w2)) :
  Server.processCertificateSigningRequest C this raw os appDirectory medium s
  = (match folder with Ok _ => Err e | Err e' => Err e' end,
     mkSt w2 (trace s ++ opensslProbe installed ++ [EvTmpDir]))
  /\ Legacy.processCertificateSigningRequest C lthis raw os appDirectory lmedium s
     = (Err e, mkSt w1 (trace s ++ opensslProbe installed)).
Proof.
  unfold Server.processCertificateSigningRequest,
    Legacy.processCertificateSigningRequest, Common.ensureOpenSSLIsAvailable,
    opensslProbe.
  rewrite str_eqb_neq by exact Hraw. rewrite Hsetup, Hlsetup.
  unfold_calls. use_calls.
  destruct installed; cbn [negb]; use_calls; rewrite <- ?app_assoc; cbn [app];
    (destruct folder; split; reflexivity).
Qed.

Lemma failed_setup_stops_the_exchange_witness :
  let this := {| Server._adb := Some tt;
                 Server.certificateSetup := Err ServerCertsNotAvailableInTest;
                 Server.config := Lab.cfg |} in
  let s := Lab.start Lab.w0 in
  Server.processCertificateSigningRequest Lab.collab this Lab.csr0 (js "iOS")
    Bench.appDirectory Server.FS_ACCESS s
  = (Err ServerCertsNotAvailableInTest,
     mkSt (Lab.with_counter Lab.w0 1 : World Lab.collab) [EvOpensslInstalled; EvTmpDir]).
Proof.
  intros this s.
  exact (proj1 (failed_setup_stops_the_exchange Lab.collab this
                  {| Legacy.adb := Ok tt;
                     Legacy.certificateSetup := Err ServerCertsNotAvailableInTest;
                     Legacy.store_idbPath := [] |}
                  Lab.csr0 (js "iOS") Bench.appDirectory Server.FS_ACCESS
                  Legacy.FS_ACCESS s ServerCertsNotAvailableInTest true
                  Lab.w0 (Lab.with_counter Lab.w0 1) (Ok (js "/tmp/da"))
                  ltac:(discriminate) eq_refl eq_refl eq_refl eq_refl)).
Defined.

(** ** Deploying and staging *)

Lemma legacy_extractAppNameFromCSR_eq (C : Collab) (csr : jsstring) (s : St C) :
  Legacy.extractAppNameFromCSR C csr s = Server.extractAppNameFromCSR C csr s.
Proof.
  unfold Legacy.extractAppNameFromCSR, Server.extractAppNameFromCSR.
  apply extractAppNameFromCSR_regex_ext. intros name.
  unfold Legacy.allowedAppNameRegex, Server.allowedAppNameRegex.
  now rewrite allowedAppNameRegex_legacy_test, allowedAppNameRegex_server_test.
Qed.

(** X18. Over the WWW medium a file is staged whatever the platform, the
    request and the destination are: none of them is looked at, so the
    toolkit and the device bridges are not called and an unknown platform is
    not rejected. Staging looks for the staging folder, makes it when it is
    not there, and writes the file into it, and does nothing else; a
    resolved staging has written the file; a write that fails is rejected
    with the failed-to-write error around its cause. *)
Theorem staging_over_WWW
  (C : Collab) (this : Server.CertificateProvider)
  (destination filename contents csr os certFolder : jsstring) (s : St C) :
  let run := Server.deployOrStageFileForMobileApp C this destination filename
               contents csr os Server.WWW certFolder s in
  (forall destination' csr' os',
      Server.deployOrStageFileForMobileApp C this destination' filename
        contents csr' os' Server.WWW certFolder s = run)
  /\ forallb (stagingEvent certFolder filename contents)
       (events_since s (snd run)) = true
  /\ (fst run = Ok tt ->
      In (EvWriteFile (certFolder ++ filename) contents) (events_since s (snd run)))
  /\ (forall there w1 w2 cause w3,
        fs_pathExists C certFolder (world s) = (there, w1) ->
        (if there then w2 = w1 else fs_mkdir C certFolder w1 = (Ok tt, w2)) ->
        fs_writeFile C (certFolder ++ filename) contents w2 = (Err cause, w3) ->
        fst run = Err (FailedToWriteTemp filename cause)).
Proof.
  intros run. subst run.
  unfold Server.deployOrStageFileForMobileApp. cbn [Server.is_WWW].
  split; [reflexivity|]. unfold_calls.
  split; [|split].
  - repeat first [run_step | run_goal_test]; cbn [snd]; normalize_trace;
      cbn [forallb stagingEvent]; rewrite ?str_eqb_refl; reflexivity.
  - repeat first [run_step | run_goal_test]; cbn [fst snd]; try discriminate;
      intros _; normalize_trace; in_events.
  - intros there w1 w2 cause w3 Hthere Hmade Hwrite.
    destruct there; [subst w2|]; use_calls; cbn [negb]; use_calls; reflexivity.
Qed.

(** The outcome of a deployment that is not staged, on a platform that is
    not known. *)
Lemma deploy_unsupported
  (C : Collab) (this : Server.CertificateProvider)
  (lthis : Legacy.CertificateProvider)
  (destination filename contents csr os certFolder : jsstring)
  (medium : Server.CertificateExchangeMedium) (s : St C) :
  Server.is_WWW medium = false -> supported os = false ->
  Server.deployOrStageFileForMobileApp C this destination filename contents
    csr os medium certFolder s
  = (match fst (Server.extractAppNameFromCSR C csr s) with
     | Ok _ => Err (UnsupportedDeviceOS os)
     | Err e => Err e
     end, snd (Server.extractAppNameFromCSR C csr s))
  /\ Legacy.deployFileToMobileApp C lthis destination filename contents csr os s
     = (Err (UnsupportedDeviceOs os), snd (Server.extractAppNameFromCSR C csr s)).
Proof.
  intros Hmedium Hos. unfold supported in Hos.
  apply orb_false_iff in Hos as [Hos Hmac].
  apply orb_false_iff in Hos as [Hos Hwin].
  apply orb_false_iff in Hos as [Hand Hios].
  unfold Server.deployOrStageFileForMobileApp, Legacy.deployFileToMobileApp.
  rewrite Hmedium, Hand, Hios, Hwin, Hmac. cbn [orb].
  unfold bind, settle, throw. rewrite legacy_extractAppNameFromCSR_eq.
  destruct (Server.extractAppNameFromCSR C csr s) as [[name|e] s1];
    split; reflexivity.
Qed.

(** X19. On a platform other than Android, iOS, windows and MacOS a
    deployment that is not staged always fails, after the toolkit was asked
    for the subject of the request. The server provider rejects with the
    error of the app name when the request has no usable one, and with the
    unsupported-platform error otherwise; the legacy provider rejects with
    its unsupported-platform error whatever became of the app name. *)
Theorem deployment_on_unknown_platform
  (C : Collab) (this : Server.CertificateProvider)
  (lthis : Legacy.CertificateProvider)
  (destination filename contents csr os certFolder : jsstring)
  (medium : Server.CertificateExchangeMedium) (s : St C)
  (Hmedium : Server.is_WWW medium = false)
  (Hos : supported os = false) :
  let named := Server.extractAppNameFromCSR C csr s in
  Server.deployOrStageFileForMobileApp C this destination filename contents
    csr os medium certFolder s
  = (match fst named with
     | Ok _ => Err (UnsupportedDeviceOS os)
     | Err e => Err e
     end, snd named)
  /\ Legacy.deployFileToMobileApp C lthis destination filename contents csr os s
     = (Err (UnsupportedDeviceOs os), snd named)
  /\ Legacy.extractAppNameFromCSR C csr s = named.
Proof.
  intros named. subst named.
  destruct (deploy_unsupported C this lthis destination filename contents csr os
              certFolder medium s Hmedium Hos) as [H1 H2].
  split; [exact H1|]. split; [exact H2|]. apply legacy_extractAppNameFromCSR_eq.
Qed.

Lemma deployment_on_unknown_platform_witness :
  let w := Lab.with_subject Lab.w0 (Ok (js "subject=O=Example")) in
  let s := Lab.start w in
  fst (Server.deployOrStageFileForMobileApp Lab.collab Lab.server
         (js "/home/u/sonar/") deviceCAcertFile (js "ca") Lab.csr0 (js "Linux")
         Server.FS_ACCESS [] s)
  = Err (CannotExtractCN (js "subject=O=Example"))
  /\ fst (Legacy.deployFileToMobileApp Lab.collab Lab.legacy
            (js "/home/u/sonar/") deviceCAcertFile (js "ca") Lab.csr0 (js "Linux") s)
     = Err (UnsupportedDeviceOs (js "Linux")).
Proof.
  intros w s.
  destruct (deployment_on_unknown_platform Lab.collab Lab.server Lab.legacy
              (js "/home/u/sonar/") deviceCAcertFile (js "ca") Lab.csr0 (js "Linux")
              [] Server.FS_ACCESS s eq_refl eq_refl) as (H1 & H2 & _).
  rewrite H1, H2. split; reflexivity.
Defined.

(** X20. An exchange that is not staged succeeds on Android, iOS, windows
    and MacOS only: when the server provider resolves over a medium other
    than WWW, or the legacy provider resolves at all, the platform is one of
    these four. *)
Theorem exchange_succeeds_on_known_platforms_only
  (C : Collab) (this : Server.CertificateProvider)
  (lthis : Legacy.CertificateProvider)
  (raw os appDirectory deviceId : jsstring)
  (medium : Server.CertificateExchangeMedium)
  (lmedium : Legacy.CertificateExchangeMedium) (s s' : St C)
  (Hrun : (Server.is_WWW medium = false
           /\ Server.processCertificateSigningRequest C this raw os appDirectory
                medium s = (Ok deviceId, s'))
          \/ Legacy.processCertificateSigningRequest C lthis raw os appDirectory
               lmedium s = (Ok deviceId, s')) :
  supported os = true.
Proof.
  destruct (supported os) eqn:Hos; [reflexivity|]. exfalso.
  destruct Hrun as [[Hmedium H]|H]; revert H.
  - unfold Server.processCertificateSigningRequest.
    unfold bind, ret, throw, await. intros H.
    repeat first
      [ match goal with
        | E : Server.deployOrStageFileForMobileApp _ _ _ _ _ _ _ _ _ _ = (Ok _, _) |- _ =>
            rewrite (proj1 (deploy_unsupported C this lthis _ _ _ _ _ _ _ _
                              Hmedium Hos)) in E;
            destruct (Server.extractAppNameFromCSR C _ _) as [[?|?] ?];
            discriminate E
        end
      | run_step
      | cbv beta iota zeta in *; cbn [world trace] in *;
        match goal with
        | H : context [if ?b then _ else _] |- _ => is_next b; destruct b eqn:?
        end ]; discriminate.
  - unfold Legacy.processCertificateSigningRequest.
    unfold bind, ret, throw, await. intros H.
    repeat first
      [ match goal with
        | E : Legacy.deployFileToMobileApp _ _ _ _ _ _ _ _ = (Ok _, _) |- _ =>
            rewrite (proj2 (deploy_unsupported C this lthis _ _ _ _ _ []
                              Server.FS_ACCESS _ eq_refl Hos)) in E;
            discriminate E
        end
      | run_step
      | cbv beta iota zeta in *; cbn [world trace] in *;
        match goal with
        | H : context [if ?b then _ else _] |- _ => is_next b; destruct b eqn:?
        end ]; discriminate.
Qed.

Lemma exchange_succeeds_on_known_platforms_only_witness :
  let s := Lab.start Lab.w0 in
  let run := Server.processCertificateSigningRequest Lab.collab Lab.server
               Lab.csr0 (js "windows") (js "C:/sonar/") Server.NONE s in
  fst run = Ok (js "uuid-f") /\ supported (js "windows") = true.
Proof.
  intros s run.
  assert (Hrun : Server.processCertificateSigningRequest Lab.collab Lab.server
                   Lab.csr0 (js "windows") (js "C:/sonar/") Server.NONE s
                 = (Ok (js "uuid-f"), snd run)) by (vm_compute; reflexivity).
  split; [vm_compute; reflexivity|].
  exact (exchange_succeeds_on_known_platforms_only Lab.collab Lab.server Lab.legacy
           Lab.csr0 (js "windows") (js "C:/sonar/") (js "uuid-f")
           Server.NONE Legacy.FS_ACCESS s (snd run)
           (or_introl (conj eq_refl Hrun))).
Defined.

(** X21. On iOS, windows and MacOS a file that is not staged is first
    written straight to the destination. When that write succeeds, both
    providers are done: no device bridge is called. When it fails and the
    destination is not inside an app container, the server provider rejects
    with the path error on all three platforms, as it then treats every one
    of them as a physical iOS device; the legacy provider does so on iOS
    only, and on windows and MacOS rejects with the invalid-directory error
    around the cause. *)
Theorem direct_write_decides
  (C : Collab) (this : Server.CertificateProvider)
  (lthis : Legacy.CertificateProvider)
  (destination filename contents csr os certFolder appName : jsstring)
  (medium : Server.CertificateExchangeMedium) (s s1 : St C)
  (written : Res unit) (w2 : World C)
  (Hmedium : Server.is_WWW medium = false)
  (Hos : os = js "iOS" \/ os = js "windows" \/ os = js "MacOS")
  (Hname : Server.extractAppNameFromCSR C csr s = (Ok appName, s1))
  (Hwrite : fs_writeFile C (destination ++ filename) contents (world s1)
            = (written, w2)) :
  let s2 := mkSt w2 (trace s1 ++ [EvWriteFile (destination ++ filename) contents]) in
  let server := Server.deployOrStageFileForMobileApp C this destination filename
                  contents csr os medium certFolder s in
  let legacy := Legacy.deployFileToMobileApp C lthis destination filename
                  contents csr os s in
  match written with
  | Ok _ => server = (Ok tt, s2) /\ legacy = (Ok tt, s2)
  | Err cause =>
      indexOf (js "Application/") destination = None ->
      server = (Err (PathDidntMatch destination), s2)
      /\ legacy = (if str_eqb os (js "iOS")
                   then Err (PathDidntMatch destination)
                   else Err (InvalidAppDirectory os destination cause), s2)
  end.
Proof.
  intros s2 server legacy. subst s2 server legacy.
  assert (Hpath : forall st : St C,
             indexOf (js "Application/") destination = None ->
             Common.getRelativePathInAppContainer C destination st
             = (Err (PathDidntMatch destination), st)).
  { intros st Hnone. unfold Common.getRelativePathInAppContainer, regex_exec.
    unfold appContainerRegex. now rewrite exec_from_no_literal. }
  unfold Server.deployOrStageFileForMobileApp, Legacy.deployFileToMobileApp.
  rewrite Hmedium.
  unfold bind, settle, await, try_catch, throw, ret, Common.writeFile, call.
  cbv beta. rewrite legacy_extractAppNameFromCSR_eq, Hname. cbv beta iota.
  destruct Hos as [ -> | [ -> | -> ] ];
    match goal with
    | |- context [str_eqb ?a (js "Android")] =>
        change (str_eqb a (js "Android")) with false
    end;
    match goal with
    | |- context [(str_eqb ?a (js "iOS") || str_eqb ?a (js "windows")
                   || str_eqb ?a (js "MacOS"))%bool] =>
        change (str_eqb a (js "iOS") || str_eqb a (js "windows")
                || str_eqb a (js "MacOS"))%bool with true
    end;
    cbv beta iota; rewrite Hwrite;
    (destruct written as [[]|cause]; [split; reflexivity|]);
    intros Hnone;
    try change (str_eqb (js "iOS") (js "iOS")) with true;
    try change (str_eqb (js "windows") (js "iOS")) with false;
    try change (str_eqb (js "MacOS") (js "iOS")) with false;
    cbv beta iota; rewrite ?(Hpath _ Hnone); split; reflexivity.
Qed.

Lemma direct_write_decides_witness :
  let s := Lab.start Lab.w0 in
  let destination := js "/Users/u/Library/Developer/CoreSimulator/Devices/ABC-1/data/Containers/Data/Application/XYZ/sonar/" in
  fst (Server.deployOrStageFileForMobileApp Lab.collab Lab.server destination
         deviceCAcertFile (js "ca") Lab.csr0 (js "iOS") Server.FS_ACCESS [] s)
  = Ok tt
  /\ fst (Legacy.deployFileToMobileApp Lab.collab Lab.legacy destination
            deviceCAcertFile (js "ca") Lab.csr0 (js "iOS") s)
     = Ok tt.
Proof.
  intros s destination.
  pose (s1 := snd (Server.extractAppNameFromCSR Lab.collab Lab.csr0 s)).
  pose proof (direct_write_decides Lab.collab Lab.server Lab.legacy destination
                deviceCAcertFile (js "ca") Lab.csr0 (js "iOS") []
                (js "com.example.app") Server.FS_ACCESS s s1 (Ok tt)
                (Lab.put (destination ++ deviceCAcertFile) (js "ca") (world s1))
                eq_refl (or_introl eq_refl) eq_refl eq_refl) as H.
  cbv beta iota zeta in H. destruct H as [-> ->]. split; reflexivity.
Defined.

(** X22. [pushFileToiOSDevice] makes a temporary folder, writes the file
    into it and pushes it to the device. The server provider resolves when
    the push has resolved, and rejects with what the write or the push
    rejected with. The legacy provider starts the same write and push, and
    resolves whatever becomes of them. *)
Theorem pushFileToiOSDevice_outcome
  (C : Collab) (this : Server.CertificateProvider)
  (lthis : Legacy.CertificateProvider)
  (udid bundleId destination filename contents dir : jsstring)
  (s : St C) (w1 w2 w3 : World C) (written pushed : Res unit)
  (Hidb : Legacy.store_idbPath lthis = idbPath (Server.config this))
  (Htmp : tmp_dir C (world s) = (Ok dir, w1))
  (Hwrite : fs_writeFile C (path_resolve C [dir; filename]) contents w1
            = (written, w2))
  (Hpush : iosUtil_push C udid (path_resolve C [dir; filename]) bundleId
             destination (idbPath (Server.config this)) w2 = (pushed, w3)) :
  let server := Server.pushFileToiOSDevice C this udid bundleId destination
                  filename contents s in
  let legacy := Legacy.pushFileToiOSDevice C lthis udid bundleId destination
                  filename contents s in
  fst server = match written with Ok _ => pushed | Err e => Err e end
  /\ fst legacy = Ok tt
  /\ snd legacy = snd server
  /\ events_since s (snd server)
     = EvTmpDir :: EvWriteFile (path_resolve C [dir; filename]) contents
       :: (if is_ok written
           then [EvIdbPush udid (path_resolve C [dir; filename]) bundleId destination]
           else []).
Proof.
  intros server legacy. subst server legacy.
  unfold Server.pushFileToiOSDevice, Legacy.pushFileToiOSDevice.
  rewrite Hidb. unfold_calls. use_calls.
  destruct written as [[]|e]; cbn [is_ok]; use_calls; cbn [fst snd].
  - destruct pushed as [[]|e]; repeat split; now normalize_trace.
  - repeat split; now normalize_trace.
Qed.

Lemma pushFileToiOSDevice_outcome_witness :
  let s : St lockedDevice := mkSt (tt : World lockedDevice) [] in
  fst (Server.pushFileToiOSDevice lockedDevice Lab.server (js "A") Bench.appName
         (js "sonar/") deviceCAcertFile (js "ca") s)
  = Err (External (js "device locked"))
  /\ fst (Legacy.pushFileToiOSDevice lockedDevice Lab.legacy (js "A") Bench.appName
            (js "sonar/") deviceCAcertFile (js "ca") s)
     = Ok tt.
Proof.
  intros s.
  destruct (pushFileToiOSDevice_outcome lockedDevice Lab.server Lab.legacy (js "A")
              Bench.appName (js "sonar/") deviceCAcertFile (js "ca") (js "/tmp/d")
              s tt tt tt (Ok tt) (Err (External (js "device locked")))
              eq_refl eq_refl eq_refl eq_refl) as (H1 & H2 & _).
  split; assumption.
Defined.

(** X23. An exchange for iOS whose app directory is that of a simulator
    returns the simulator named in the path: when [/Devices/] first occurs
    in the app directory in front of a name (not empty, without [/]) that a
    [/] follows, an exchange that resolves gives that name as the device
    id, for the server provider over FS_ACCESS and for the legacy
    provider. *)
Theorem simulator_exchange_returns_simulator
  (C : Collab) (this : Server.CertificateProvider)
  (lthis : Legacy.CertificateProvider)
  (raw pre simulatorId rest : jsstring)
  (lmedium : Legacy.CertificateExchangeMedium) (s : St C)
  (Hfirst : indexOf (js "/Devices/")
              (pre ++ js "/Devices/" ++ simulatorId ++ slash :: rest)
            = Some (length pre))
  (Hid : simulatorId <> [])
  (Hplain : forallb notSlash simulatorId = true) :
  let appDirectory := pre ++ js "/Devices/" ++ simulatorId ++ slash :: rest in
  let server := Server.processCertificateSigningRequest C this raw (js "iOS")
                  appDirectory Server.FS_ACCESS s in
  let legacy := Legacy.processCertificateSigningRequest C lthis raw (js "iOS")
                  appDirectory lmedium s in
  (is_ok (fst server) = true -> fst server = Ok simulatorId)
  /\ (is_ok (fst legacy) = true -> fst legacy = Ok simulatorId).
Proof.
  intros appDirectory server legacy. subst appDirectory server legacy.
  destruct (simulatorRegex_exec pre simulatorId rest Hfirst Hid Hplain)
    as (whole & Hexec).
  split.
  - destruct (Server.processCertificateSigningRequest _ _ _ _ _ _ _)
      as [[deviceId|e] s'] eqn:H; [intros _|discriminate].
    apply processCertificateSigningRequest_FS_ACCESS in H.
    unfold resolved_by_os in H.
    change (str_eqb (js "iOS") (js "Android")) with false in H.
    change (str_eqb (js "iOS") (js "iOS")) with true in H. cbv iota in H.
    destruct H as (appName & s1 & H).
    unfold Server.getTargetiOSDeviceId in H. rewrite Hexec in H.
    cbn in H. now injection H as <- _.
  - destruct (Legacy.processCertificateSigningRequest _ _ _ _ _ _ _)
      as [[deviceId|e] s'] eqn:H; [intros _|discriminate].
    apply legacy_processCertificateSigningRequest_by_os in H.
    unfold resolved_by_os in H.
    change (str_eqb (js "iOS") (js "Android")) with false in H.
    change (str_eqb (js "iOS") (js "iOS")) with true in H. cbv iota in H.
    destruct H as (appName & s1 & H).
    unfold Legacy.getTargetiOSDeviceId in H. rewrite Hexec in H.
    cbn in H. now injection H as <- _.
Qed.

Lemma simulator_exchange_returns_simulator_witness :
  let path := js "/Users/u/Library/Developer/CoreSimulator/Devices/ABC-1/data/Containers/Data/Application/XYZ/sonar/" in
  fst (Server.processCertificateSigningRequest Lab.collab Lab.server
         Lab.csr0 (js "iOS") path Server.FS_ACCESS (Lab.start Lab.w0))
  = Ok (js "ABC-1").
Proof.
  intros path.
  exact (proj1 (simulator_exchange_returns_simulator Lab.collab Lab.server
                  Lab.legacy Lab.csr0
                  (js "/Users/u/Library/Developer/CoreSimulator") (js "ABC-1")
                  (js "data/Containers/Data/Application/XYZ/sonar/")
                  Legacy.FS_ACCESS (Lab.start Lab.w0)
                  eq_refl ltac:(discriminate) eq_refl) eq_refl).
Defined.

(** ** Physical iOS devices *)

Lemma Promise_all_map_ids
  (C : Collab) (A B K : Type) (f : A -> M C B) (g : B -> K) (h : A -> K) :
  (forall a s b s', f a s = (Ok b, s') -> g b = h a) ->
  forall (l : list A) (s s' : St C) (bs : list B),
    Promise_all (map f l) s = (Ok bs, s') -> map g bs = map h l.
Proof.
  intros Hf l. unfold Promise_all, bind, await.
  induction l as [|a l IH]; intros s s' bs H.
  - cbn in H. now injection H as <- _.
  - cbn [map settle_all] in H. unfold bind, settle, ret in H.
    destruct (f a s) as [r s1] eqn:Ef.
    destruct (settle_all (map f l) s1) as [[rs|e] s2] eqn:E; [|discriminate].
    destruct r as [b|e]; cbn [collect] in H; [|discriminate].
    destruct (collect rs) as [bs'|e] eqn:Ec; [|discriminate].
    injection H as <- <-. cbn [map]. f_equal.
    + exact (Hf a s b s1 Ef).
    + apply (IH s1 s2 bs'). now rewrite E, Ec.
Qed.

Lemma iOSDeviceMatch_id
  (C : Collab) (this : Server.CertificateProvider)
  (appName path csr : jsstring) (target : Target) (s s' : St C)
  (entry : Server.IOSMatch) :
  Server.iOSDeviceMatch C this appName path csr target s = (Ok entry, s') ->
  Server.im_id entry = udid target.
Proof.
  unfold Server.iOSDeviceMatch, bind, ret.
  destruct (Server.iOSDeviceHasMatchingCSR C this path (udid target) appName csr s)
    as [[isMatch|e] s1]; [|discriminate].
  now intros [= <- _].
Qed.

(** X24. The iOS resolution of the server provider for a path that names
    no simulator, when the check of every target has resolved: the targets
    are asked for once; an empty pool is rejected; one entry is gathered per
    target, in the order of the pool; with no match the resolution is
    rejected as no-matching-device, otherwise it returns the first target
    that matches, with a warning when more than one does. *)
Theorem getTargetiOSDeviceId_physical
  (C : Collab) (this : Server.CertificateProvider)
  (appName path csr : jsstring) (s s2 : St C) (w1 : World C)
  (targets : list Target) (entries : list Server.IOSMatch)
  (Hsim : indexOf (js "/Devices/") path = None)
  (Htargets : iosUtil_targets C
                (Some (idbPath (Server.config this),
                       enablePhysicalIOS (Server.config this)))
                (world s) = (Ok targets, w1))
  (Hall : Promise_all (map (Server.iOSDeviceMatch C this appName path csr) targets)
            (mkSt w1 (trace s ++ [EvIdbTargets])) = (Ok entries, s2)) :
  map Server.im_id entries = map udid targets
  /\ Server.getTargetiOSDeviceId C this appName path csr s =
     match targets with
     | [] => (Err NoIOSDevicesFound, mkSt w1 (trace s ++ [EvIdbTargets]))
     | _ :: _ =>
         match filter Server.im_isMatch entries with
         | [] => (Err (NoMatchingDevice appName), s2)
         | [m] => (Ok (Server.im_id m), s2)
         | m :: _ =>
             (Ok (Server.im_id m),
              mkSt (world s2)
                (trace s2 ++ [EvConsole LWarn (js "Multiple devices found for app: ")]))
         end
     end.
Proof.
  split.
  - revert Hall. apply Promise_all_map_ids. intros a s0 b s0'.
    apply iOSDeviceMatch_id.
  - unfold Server.getTargetiOSDeviceId, regex_exec, simulatorRegex.
    rewrite exec_from_no_literal by exact Hsim.
    unfold bind at 1. unfold call. rewrite Htargets.
    destruct targets as [|target targets]; [reflexivity|].
    cbn [length Nat.eqb]. unfold bind at 1. rewrite Hall.
    destruct (filter Server.im_isMatch entries) as [|m [|m' ms]]; reflexivity.
Qed.

Lemma getTargetiOSDeviceId_physical_witness :
  Server.getTargetiOSDeviceId Lab.collab Lab.server Bench.appName
    Bench.appDirectory Lab.csr0 (Lab.start Bench.matchAndOther)
  = (Ok (js "A"),
     snd (Promise_all
            (map (Server.iOSDeviceMatch Lab.collab Lab.server Bench.appName
                    Bench.appDirectory Lab.csr0)
               [{| udid := js "A" |}; {| udid := js "B" |}])
            (mkSt (Bench.matchAndOther : World Lab.collab) [EvIdbTargets]))).
Proof.
  pose (all := Promise_all
                 (map (Server.iOSDeviceMatch Lab.collab Lab.server Bench.appName
                         Bench.appDirectory Lab.csr0)
                    [{| udid := js "A" |}; {| udid := js "B" |}])
                 (mkSt (Bench.matchAndOther : World Lab.collab) [EvIdbTargets])).
  exact (proj2 (getTargetiOSDeviceId_physical Lab.collab Lab.server Bench.appName
                  Bench.appDirectory Lab.csr0 (Lab.start Bench.matchAndOther)
                  (snd all) Bench.matchAndOther
                  [{| udid := js "A" |}; {| udid := js "B" |}]
                  [{| Server.im_id := js "A"; Server.im_isMatch := true |};
                   {| Server.im_id := js "B"; Server.im_isMatch := false |}]
                  eq_refl eq_refl eq_refl)).
Defined.

(** X25. The check of a physical iOS device by the server provider. The
    path of the request inside the app container is worked out first, and a
    directory outside any container is rejected before anything is touched.
    After a pull that resolved, the temporary folder must hold exactly one
    file: an empty folder and a folder with more than one file are both
    rejected, and no file is read. The one file is compared with the
    request after sanitizing both, so a copy with carriage returns before
    its line feeds and whitespace around it is a match. *)
Theorem iOSDeviceHasMatchingCSR_pulled_items
  (C : Collab) (this : Server.CertificateProvider)
  (directory deviceId bundleId csr originalFile dir : jsstring)
  (s : St C) (w1 w2 w3 : World C) (items : list jsstring)
  (Hpath : Common.getRelativePathInAppContainer C
             (path_resolve C [directory; csrFileName]) s = (Ok originalFile, s))
  (Htmp : tmp_dir C (world s) = (Ok dir, w1))
  (Hpull : iosUtil_pull C deviceId originalFile bundleId dir
             (idbPath (Server.config this)) w1 = (Ok tt, w2))
  (Hitems : fs_readdir C dir w2 = (Ok items, w3)) :
  let run := Server.iOSDeviceHasMatchingCSR C this directory deviceId bundleId csr s in
  let pulled := [EvTmpDir; EvIdbPull deviceId originalFile bundleId dir;
                 EvReaddir dir] in
  match items with
  | [] => run = (Err FailedToPullCSR, mkSt w3 (trace s ++ pulled))
  | [fileName] =>
      forall data w4,
        fs_readFile C (path_resolve C [dir; fileName]) w3 = (Ok data, w4) ->
        fst run = Ok (str_eqb (santitizeString data) (santitizeString csr))
        /\ (forall pre post,
              forallb isTrimmable pre = true -> forallb isTrimmable post = true ->
              data = pre ++ toCRLF csr ++ post -> fst run = Ok true)
  | _ :: _ :: _ => run = (Err ConflictInTempDir, mkSt w3 (trace s ++ pulled))
  end
  /\ (forall (outside : jsstring) (s0 : St C),
        indexOf (js "Application/") (path_resolve C [outside; csrFileName]) = None ->
        Server.iOSDeviceHasMatchingCSR C this outside deviceId bundleId csr s0
        = (Err (PathDidntMatch (path_resolve C [outside; csrFileName])), s0)).
Proof.
  intros run pulled. subst run pulled. split.
  - unfold Server.iOSDeviceHasMatchingCSR. unfold bind at 1. rewrite Hpath.
    unfold_calls. use_calls. rewrite <- !app_assoc. cbn [app].
    destruct items as [|fileName [|other items]]; cbn [length Nat.ltb Nat.leb];
      try reflexivity.
    intros data w4 Hread. use_calls. split; [reflexivity|].
    intros pre post Hpre Hpost ->.
    rewrite santitizeString_toCRLF by assumption. now rewrite str_eqb_refl.
  - intros outside s0 Hnone.
    unfold Server.iOSDeviceHasMatchingCSR, Common.getRelativePathInAppContainer,
      regex_exec, appContainerRegex.
    unfold bind at 1. now rewrite exec_from_no_literal.
Qed.

Lemma iOSDeviceHasMatchingCSR_pulled_items_witness :
  fst (Server.iOSDeviceHasMatchingCSR Lab.collab Lab.server Bench.appDirectory
         (js "B") Bench.appName Lab.csr0 (Lab.start Bench.errorThenMatch))
  = Ok true.
Proof.
  pose (w1 := Lab.with_counter Bench.errorThenMatch 1).
  pose (w2 := Lab.put (js "/tmp/da/app.csr") (Lab.csr0 ++ [CR; LF]) w1).
  refine (proj2 (proj1 (iOSDeviceHasMatchingCSR_pulled_items Lab.collab Lab.server
            Bench.appDirectory (js "B") Bench.appName Lab.csr0
            (js "sonar/app.csr") (js "/tmp/da")
            (Lab.start Bench.errorThenMatch) w1 w2 w2 [js "app.csr"]
            eq_refl eq_refl eq_refl eq_refl)
            (Lab.csr0 ++ [CR; LF]) w2 eq_refl) [] [CR; LF] eq_refl eq_refl _).
  vm_compute. reflexivity.
Defined.

(** ** Android switched off *)

(** X27. With Android disabled in the settings of the server provider, the
    resolution of an Android device is rejected with the not-enabled error
    and calls nothing; and an exchange for an Android app that is not
    staged fails without a single call of a device bridge. *)
Theorem android_disabled_calls_no_bridge
  (C : Collab) (this : Server.CertificateProvider)
  (raw appDirectory : jsstring) (medium : Server.CertificateExchangeMedium)
  (s : St C)
  (Hoff : enableAndroid (Server.config this) = false)
  (Hmedium : Server.is_WWW medium = false) :
  (forall appName path csr (s0 : St C),
      Server.getTargetAndroidDeviceId C this appName path csr s0
      = (Err AndroidNotEnabled, s0))
  /\ let run := Server.processCertificateSigningRequest C this raw (js "Android")
                  appDirectory medium s in
     is_ok (fst run) = false
     /\ forallb (fun e => negb (isDeviceEvent e)) (events_since s (snd run)) = true.
Proof.
  assert (Hget : forall appName path csr (s0 : St C),
             Server.getTargetAndroidDeviceId C this appName path csr s0
             = (Err AndroidNotEnabled, s0)).
  { intros appName path csr s0.
    unfold Server.getTargetAndroidDeviceId, Server.adb, bind, throw.
    now rewrite Hoff. }
  split; [exact Hget|].
  unfold Server.processCertificateSigningRequest,
    Server.deployOrStageFileForMobileApp, Server.extractAppNameFromCSR,
    Common.extractAppNameFromCSR, Common.ensureOpenSSLIsAvailable.
  rewrite Hmedium. change (str_eqb (js "Android") (js "Android")) with true.
  cbv iota. unfold_calls.
  repeat first [rewrite Hget | run_step | run_goal_test];
    cbn [fst snd is_ok]; (split; [reflexivity|]); now normalize_trace.
Qed.

Lemma android_disabled_calls_no_bridge_witness :
  let this := {| Server._adb := None; Server.certificateSetup := Ok tt;
                 Server.config :=
                   {| idbPath := js "/usr/local/bin/idb"; enableAndroid := false;
                      enableIOS := true; androidHome := [];
                      enablePhysicalIOS := true |} |} in
  let s := Lab.start Lab.w0 in
  let run := Server.processCertificateSigningRequest Lab.collab this Lab.csr0
               (js "Android") (js "/data/data/com.example.app/")
               Server.FS_ACCESS s in
  is_ok (fst run) = false
  /\ forallb (fun e => negb (isDeviceEvent e)) (events_since s (snd run)) = true.
Proof.
  intros this s run.
  exact (proj2 (android_disabled_calls_no_bridge Lab.collab this Lab.csr0
                  (js "/data/data/com.example.app/") Server.FS_ACCESS s
                  eq_refl eq_refl)).
Defined.

(** ** Which device the exchange locates *)

(** A ready adb client is ready in every state. *)
Lemma adb_ready (C : Collab) (this : Server.CertificateProvider) (s s' : St C) :
  Server.adb C this s = (Ok tt, s') ->
  forall s0 : St C, Server.adb C this s0 = (Ok tt, s0).
Proof.
  unfold Server.adb, ret, throw.
  destruct (enableAndroid (Server.config this)); [|discriminate].
  destruct (Server._adb this) as [[]|]; [reflexivity|discriminate].
Qed.

Lemma first_match_In {A} (p : A -> bool) (l : list A) (first : A) (rest : list A) :
  filter p l = first :: rest -> In first l /\ p first = true.
Proof.
  intros H. apply filter_In. rewrite H. now left.
Qed.

Lemma getTargetAndroidDeviceId_locates
  (C : Collab) (this : Server.CertificateProvider)
  (appName path csr deviceId : jsstring) (s s' : St C) :
  Server.getTargetAndroidDeviceId C this appName path csr s = (Ok deviceId, s') ->
  locatedOnAndroid C appName path csr deviceId (world s).
Proof.
  intros H.
  destruct (Server.adb C this s) as [[[]|e] sa] eqn:Hadb.
  2:{ unfold Server.getTargetAndroidDeviceId, bind in H. rewrite Hadb in H.
      discriminate. }
  pose proof (adb_ready C this s sa Hadb) as Hready.
  destruct (adb_listDevices C (world s)) as [[pool|e] w1] eqn:Hlist.
  2:{ unfold Server.getTargetAndroidDeviceId, bind, call in H.
      rewrite (Hready s), Hlist in H. discriminate. }
  destruct (Promise_all_map_caught C _ _ _
              (Server.androidDeviceMatch C this appName path csr)
              Server.am_id id
              (androidDeviceMatch_caught C this appName path csr)
              pool (mkSt w1 (trace s ++ [EvAdbListDevices])))
    as (entries & s2 & Hall & _).
  rewrite (getTargetAndroidDeviceId_run C this appName path csr s s2 pool w1
             entries (Hready s) Hlist Hall) in H.
  destruct pool as [|device devices]; [discriminate|].
  destruct (filter Server.am_isMatch entries) as [|first rest] eqn:Hmatch.
  { destruct (find errored entries) as [[i b f [e|]]|]; try discriminate;
      destruct (collect _); try discriminate;
      destruct (encodeURI _); discriminate. }
  assert (Hid : deviceId = Server.am_id first)
    by (destruct rest; now injection H as <- _).
  apply first_match_In in Hmatch as [Hin Htrue].
  destruct (Promise_all_In C _ _ _ _ _ _ _ Hall first Hin)
    as (d & st & st' & Hd & Hrun).
  destruct (androidDeviceMatch_from_pull C this appName path csr d st st' first
              Hready Hrun) as (pulled & w & Hpull & ->).
  destruct pulled as [copy|e]; [|discriminate].
  cbn [android_entry Server.am_id Server.am_isMatch] in *. subst deviceId.
  exists (device :: devices), w1, d, (world st), copy, w.
  repeat split; try assumption. now apply str_eqb_eq.
Qed.

Lemma legacy_getTargetAndroidDeviceId_locates
  (C : Collab) (this : Legacy.CertificateProvider)
  (appName path csr deviceId : jsstring) (s s' : St C) :
  Legacy.getTargetAndroidDeviceId C this appName path csr s = (Ok deviceId, s') ->
  locatedOnAndroid C appName path csr deviceId (world s).
Proof.
  unfold Legacy.getTargetAndroidDeviceId.
  unfold bind at 1. unfold await at 1.
  destruct (Legacy.adb this) as [[]|e] eqn:Hadb; [|discriminate].
  unfold bind at 1. unfold call at 1.
  destruct (adb_listDevices C (world s)) as [[pool|e] w1] eqn:Hlist;
    [|discriminate].
  destruct (Nat.eqb (length pool) 0); [discriminate|].
  unfold bind at 1.
  match goal with
  | |- context [Promise_all (map ?f pool) ?st] =>
      set (check := f); destruct (Promise_all (map check pool) st)
        as [[entries|e] s2] eqn:Hall; [|discriminate]
  end.
  destruct (filter Legacy.dm_isMatch entries) as [|first rest] eqn:Hmatch.
  { cbn [map length Nat.eqb].
    destruct (find _ entries) as [[i b [e|]]|]; discriminate. }
  intros H.
  assert (Hid : deviceId = Legacy.dm_id first).
  { cbn [map length Nat.eqb Nat.ltb Nat.leb Common.first_id] in H.
    unfold bind, ret, Common.console, emit in H.
    destruct rest; now injection H as <- _. }
  apply first_match_In in Hmatch as [Hin Htrue].
  destruct (Promise_all_In C _ _ _ _ _ _ _ Hall first Hin)
    as (d & st & st' & Hd & Hrun).
  subst check. cbv beta in Hrun.
  unfold Legacy.androidDeviceHasMatchingCSR, try_catch, bind, await, call, ret,
    Common.console, emit in Hrun.
  rewrite Hadb in Hrun.
  destruct (androidUtil_pull C (id d) appName (path ++ csrFileName) (world st))
    as [[copy|e] w] eqn:Hpull; injection Hrun as <- _;
    cbn [Legacy.dm_isMatch Legacy.dm_id] in *; [|discriminate].
  subst deviceId.
  exists pool, w1, d, (world st), copy, w.
  repeat split; try assumption. now apply str_eqb_eq.
Qed.

(** What a match of the simulator pattern says of the path. *)
Lemma simulator_named (path : jsstring) (m : match_array) (simulatorId : jsstring) :
  regex_exec simulatorRegex path = Some m ->
  match_group 1 m = Some simulatorId ->
  simulatorInPath path simulatorId.
Proof.
  intros E.
  apply exec_from_inv_suffix in E
    as (pre & rest0 & rest' & c & Hpath & Hm & ->).
  rewrite simulatorRegex_attempt in Hm.
  destruct (after_literal (js "/Devices/") rest0) as [[|x t]|] eqn:Hlit;
    try discriminate.
  apply after_literal_inv in Hlit.
  destruct (N.eqb_spec x slash) as [|Hx]; [discriminate|].
  pose proof (takeWhile_dropWhile notSlash t) as Ht.
  pose proof (dropWhile_starts notSlash t) as Hy.
  destruct (dropWhile notSlash t) as [|y rest]; [discriminate|].
  injection Hm as <- <-.
  unfold match_group. cbn. intros [= <-].
  unfold notSlash in Hy at 1. apply negb_false_iff, N.eqb_eq in Hy. subst y.
  exists pre, rest. split; [|split; [discriminate|]].
  - rewrite Hpath, Hlit.
    apply (f_equal (app pre)), (f_equal (app (js "/Devices/"))).
    change (x :: t = x :: (takeWhile notSlash t ++ slash :: rest)).
    now rewrite Ht.
  - cbn [forallb]. rewrite forallb_takeWhile. unfold notSlash at 1.
    apply N.eqb_neq in Hx. now rewrite Hx.
Qed.

Lemma getRelativePathInAppContainer_pure
  (C : Collab) (absolutePath : jsstring) (r : Res jsstring) (s s' : St C) :
  Common.getRelativePathInAppContainer C absolutePath s = (r, s') ->
  s' = s
  /\ forall s0 : St C, Common.getRelativePathInAppContainer C absolutePath s0 = (r, s0).
Proof.
  unfold Common.getRelativePathInAppContainer, ret, throw.
  destruct (regex_exec appContainerRegex absolutePath) as [m|].
  - destruct (Nat.eqb (match_length m) 2).
    + destruct (match_group 1 m); intros [= <- <-]; split; reflexivity.
    + intros [= <- <-]; split; reflexivity.
  - intros [= <- <-]; split; reflexivity.
Qed.

(** A check of the server provider that found a match. *)
Lemma iOSDeviceHasMatchingCSR_matched
  (C : Collab) (this : Server.CertificateProvider)
  (directory deviceId bundleId csr : jsstring) (st st' : St C) :
  Server.iOSDeviceHasMatchingCSR C this directory deviceId bundleId csr st
  = (Ok true, st') ->
  exists originalFile dir w3 w4 fileName w5 data w6,
    (forall s0 : St C,
        Common.getRelativePathInAppContainer C
          (path_resolve C [directory; csrFileName]) s0 = (Ok originalFile, s0))
    /\ tmp_dir C (world st) = (Ok dir, w3)
    /\ serverPull C this deviceId originalFile bundleId dir w3 = (Ok tt, w4)
    /\ fs_readdir C dir w4 = (Ok [fileName], w5)
    /\ fs_readFile C (path_resolve C [dir; fileName]) w5 = (Ok data, w6)
    /\ santitizeString data = santitizeString csr.
Proof.
  unfold Server.iOSDeviceHasMatchingCSR, serverPull.
  unfold bind at 1.
  destruct (Common.getRelativePathInAppContainer C _ st) as [[originalFile|e] sx]
    eqn:Hrel; [|discriminate].
  apply getRelativePathInAppContainer_pure in Hrel as [-> Hrel].
  unfold_calls.
  destruct (tmp_dir C (world st)) as [[dir|e] w3] eqn:Htmp; [|discriminate].
  cbn [world trace].
  destruct (iosUtil_pull C deviceId originalFile bundleId dir _ w3)
    as [[[]|e] w4] eqn:Hpull; [|discriminate].
  cbn [world trace].
  destruct (fs_readdir C dir w4) as [[items|e] w5] eqn:Hitems; [|discriminate].
  destruct items as [|fileName [|more]]; cbn [length Nat.ltb Nat.leb];
    try discriminate.
  cbn [world trace].
  destruct (fs_readFile C (path_resolve C [dir; fileName]) w5)
    as [[data|e] w6] eqn:Hread; [|discriminate].
  intros [= Hmatch _].
  exists originalFile, dir, w3, w4, fileName, w5, data, w6.
  repeat split; try assumption. now apply str_eqb_eq.
Qed.

(** A check of the legacy provider that found a match. *)
Lemma legacy_iOSDeviceHasMatchingCSR_matched
  (C : Collab) (this : Legacy.CertificateProvider)
  (directory deviceId bundleId csr : jsstring) (st st' : St C) :
  Legacy.iOSDeviceHasMatchingCSR C this directory deviceId bundleId csr st
  = (Ok true, st') ->
  exists originalFile dir w3 w4 fileName w5 data w6,
    (forall s0 : St C,
        Common.getRelativePathInAppContainer C
          (path_resolve C [directory; csrFileName]) s0 = (Ok originalFile, s0))
    /\ tmp_dir C (world st) = (Ok dir, w3)
    /\ legacyPull C this deviceId originalFile bundleId dir w3 = (Ok tt, w4)
    /\ fs_readdir C dir w4 = (Ok [fileName], w5)
    /\ fs_readFile C (path_resolve C [dir; fileName]) w5 = (Ok data, w6)
    /\ santitizeString data = santitizeString csr.
Proof.
  unfold Legacy.iOSDeviceHasMatchingCSR, legacyPull.
  unfold bind at 1.
  destruct (Common.getRelativePathInAppContainer C _ st) as [[originalFile|e] sx]
    eqn:Hrel; [|discriminate].
  apply getRelativePathInAppContainer_pure in Hrel as [-> Hrel].
  unfold_calls.
  destruct (tmp_dir C (world st)) as [[dir|e] w3] eqn:Htmp; [|discriminate].
  cbn [world trace].
  destruct (iosUtil_pull C deviceId originalFile bundleId _ _ w3)
    as [[[]|e] w4] eqn:Hpull; [|discriminate].
  cbn [world trace].
  destruct (fs_readdir C dir w4) as [[items|e] w5] eqn:Hitems; [|discriminate].
  destruct items as [|fileName [|more]]; cbn [length Nat.ltb Nat.leb];
    try discriminate.
  cbn [world trace].
  destruct (fs_readFile C (path_resolve C [dir; fileName]) w5)
    as [[data|e] w6] eqn:Hread; [|discriminate].
  intros [= Hmatch _].
  exists originalFile, dir, w3, w4, fileName, w5, data, w6.
  repeat split; try assumption. now apply str_eqb_eq.
Qed.

Lemma getTargetiOSDeviceId_locates
  (C : Collab) (this : Server.CertificateProvider)
  (appName path csr deviceId : jsstring) (s s' : St C) :
  Server.getTargetiOSDeviceId C this appName path csr s = (Ok deviceId, s') ->
  simulatorInPath path deviceId
  \/ locatedOnIOS C (serverTargets this) (serverPull C this)
       appName path csr deviceId (world s).
Proof.
  unfold Server.getTargetiOSDeviceId, serverTargets.
  destruct (match regex_exec simulatorRegex path with
            | Some matches =>
                if Nat.eqb (match_length matches) 2 then match_group 1 matches
                else None
            | None => None
            end) as [simulatorId|] eqn:Hsim.
  { intros [= <- _]. left.
    destruct (regex_exec simulatorRegex path) as [m|] eqn:E; [|discriminate].
    destruct (Nat.eqb (match_length m) 2); [|discriminate].
    exact (simulator_named path m simulatorId E Hsim). }
  right. revert H. unfold bind at 1. unfold call at 1.
  destruct (iosUtil_targets C _ (world s)) as [[targets|e] w1] eqn:Htargets;
    [|discriminate].
  destruct (Nat.eqb (length targets) 0); [discriminate|].
  unfold bind at 1.
  destruct (Promise_all _ _) as [[entries|e] s2] eqn:Hall; [|discriminate].
  destruct (filter Server.im_isMatch entries) as [|first rest] eqn:Hmatch;
    [discriminate|].
  intros H.
  assert (Hid : deviceId = Server.im_id first).
  { cbn [map length Nat.eqb Nat.ltb Nat.leb Common.first_id] in H.
    unfold bind, ret, Common.console, emit in H.
    destruct rest; now injection H as <- _. }
  apply first_match_In in Hmatch as [Hin Htrue].
  destruct (Promise_all_In C _ _ _ _ _ _ _ Hall first Hin)
    as (t & st & st' & Ht & Hrun).
  unfold Server.iOSDeviceMatch, bind, ret in Hrun.
  destruct (Server.iOSDeviceHasMatchingCSR C this path (udid t) appName csr st)
    as [[isMatch|e] s1] eqn:Hcheck; [|discriminate].
  injection Hrun as <- _. cbn [Server.im_isMatch Server.im_id] in *.
  subst isMatch deviceId.
  destruct (iOSDeviceHasMatchingCSR_matched C this path (udid t) appName csr st s1
              Hcheck)
    as (originalFile & dir & w3 & w4 & fileName & w5 & data & w6 & H1 & H2 & H3
        & H4 & H5 & H6).
  exists targets, w1, t, originalFile, (world st), dir, w3, w4, fileName, w5,
    data, w6.
  repeat split; assumption.
Qed.

Lemma legacy_getTargetiOSDeviceId_locates
  (C : Collab) (this : Legacy.CertificateProvider)
  (appName path csr deviceId : jsstring) (s s' : St C) :
  Legacy.getTargetiOSDeviceId C this appName path csr s = (Ok deviceId, s') ->
  simulatorInPath path deviceId
  \/ locatedOnIOS C None (legacyPull C this) appName path csr deviceId (world s).
Proof.
  unfold Legacy.getTargetiOSDeviceId.
  destruct (match regex_exec simulatorRegex path with
            | Some matches =>
                if Nat.eqb (match_length matches) 2 then match_group 1 matches
                else None
            | None => None
            end) as [simulatorId|] eqn:Hsim.
  { intros [= <- _]. left.
    destruct (regex_exec simulatorRegex path) as [m|] eqn:E; [|discriminate].
    destruct (Nat.eqb (match_length m) 2); [|discriminate].
    exact (simulator_named path m simulatorId E Hsim). }
  right. revert H. unfold bind at 1. unfold call at 1.
  destruct (iosUtil_targets C None (world s)) as [[targets|e] w1] eqn:Htargets;
    [|discriminate].
  destruct (Nat.eqb (length targets) 0); [discriminate|].
  unfold bind at 1.
  destruct (Promise_all _ _) as [[entries|e] s2] eqn:Hall; [|discriminate].
  destruct (filter snd entries) as [|first rest] eqn:Hmatch; [discriminate|].
  intros H.
  assert (Hid : deviceId = fst first).
  { cbn [map length Nat.eqb Common.first_id] in H. unfold ret in H.
    now injection H as <- _. }
  apply first_match_In in Hmatch as [Hin Htrue].
  destruct (Promise_all_In C _ _ _ _ _ _ _ Hall first Hin)
    as (t & st & st' & Ht & Hrun).
  cbv beta in Hrun. unfold bind, ret in Hrun.
  destruct (Legacy.iOSDeviceHasMatchingCSR C this path (udid t) appName csr st)
    as [[isMatch|e] s1] eqn:Hcheck; [|discriminate].
  injection Hrun as <- _. cbn [fst snd] in *. subst isMatch deviceId.
  destruct (legacy_iOSDeviceHasMatchingCSR_matched C this path (udid t) appName csr
              st s1 Hcheck)
    as (originalFile & dir & w3 & w4 & fileName & w5 & data & w6 & H1 & H2 & H3
        & H4 & H5 & H6).
  exists targets, w1, t, originalFile, (world st), dir, w3, w4, fileName, w5,
    data, w6.
  repeat split; assumption.
Qed.

(** The resolution by platform locates the device. *)
Lemma getTargetDeviceId_locates
  (C : Collab) (listed : option (jsstring * bool))
  (pull : jsstring -> jsstring -> jsstring -> jsstring ->
          World C -> Res unit * World C)
  (android ios : jsstring -> jsstring -> jsstring -> M C jsstring) :
  (forall appName path csr deviceId s s',
      android appName path csr s = (Ok deviceId, s') ->
      locatedOnAndroid C appName path csr deviceId (world s)) ->
  (forall appName path csr deviceId s s',
      ios appName path csr s = (Ok deviceId, s') ->
      simulatorInPath path deviceId
      \/ locatedOnIOS C listed pull appName path csr deviceId (world s)) ->
  forall os appName appDirectory csr deviceId (s s' : St C),
    Common.getTargetDeviceId C android ios os appName appDirectory csr s
    = (Ok deviceId, s') ->
    located C listed pull os appName appDirectory csr deviceId (world s).
Proof.
  intros Handroid Hios os appName appDirectory csr deviceId s s'.
  unfold Common.getTargetDeviceId, located, ret.
  destruct (str_eqb os (js "Android")); [apply Handroid|].
  destruct (str_eqb os (js "iOS")); [apply Hios|].
  destruct (str_eqb os (js "MacOS")); now intros [= <- _].
Qed.

(** Matching the sanitized request is matching the request. *)
Lemma located_sanitized
  (C : Collab) (listed : option (jsstring * bool))
  (pull : jsstring -> jsstring -> jsstring -> jsstring ->
          World C -> Res unit * World C)
  (os appName appDirectory raw deviceId : jsstring) (w : World C) :
  located C listed pull os appName appDirectory (santitizeString raw) deviceId w ->
  located C listed pull os appName appDirectory raw deviceId w.
Proof.
  unfold located, locatedOnAndroid, locatedOnIOS.
  rewrite santitizeString_fixed. exact (fun H => H).
Qed.

(** Under FS_ACCESS the server provider extracts the app name and then
    resolves by platform, and what is resolved is returned. *)
Lemma processCertificateSigningRequest_resolves
  (C : Collab) (this : Server.CertificateProvider)
  (raw os appDirectory deviceId : jsstring) (s s' : St C) :
  Server.processCertificateSigningRequest C this raw os appDirectory
    Server.FS_ACCESS s = (Ok deviceId, s') ->
  exists appName s6 s7,
    Server.extractAppNameFromCSR C (santitizeString raw) s6 = (Ok appName, s7)
    /\ Server.getTargetDeviceId C this os appName appDirectory (santitizeString raw)
         s7 = (Ok deviceId, s').
Proof.
  unfold Server.processCertificateSigningRequest.
  cbn [Server.is_WWW Server.is_FS_ACCESS]. unfold bind, ret, throw, await.
  intros H. run_folded; try discriminate.
  all: injection H as <- <-; eauto.
Qed.

Lemma legacy_processCertificateSigningRequest_resolves
  (C : Collab) (this : Legacy.CertificateProvider)
  (raw os appDirectory deviceId : jsstring)
  (medium : Legacy.CertificateExchangeMedium) (s s' : St C) :
  Legacy.processCertificateSigningRequest C this raw os appDirectory medium s
    = (Ok deviceId, s') ->
  exists appName s6 s7,
    Legacy.extractAppNameFromCSR C (santitizeString raw) s6 = (Ok appName, s7)
    /\ Legacy.getTargetDeviceId C this os appName appDirectory (santitizeString raw)
         s7 = (Ok deviceId, s').
Proof.
  unfold Legacy.processCertificateSigningRequest.
  unfold bind, ret, throw, await.
  intros H. run_folded; try discriminate.
  all: injection H as <- <-; eauto.
Qed.

(** Under every other medium the id is the answer of the uuid generator,
    asked after the app name was extracted. *)
Lemma processCertificateSigningRequest_generates
  (C : Collab) (this : Server.CertificateProvider)
  (raw os appDirectory deviceId : jsstring)
  (medium : Server.CertificateExchangeMedium) (s s' : St C) :
  Server.is_FS_ACCESS medium = false ->
  Server.processCertificateSigningRequest C this raw os appDirectory medium s
    = (Ok deviceId, s') ->
  exists appName s6 s7 w8,
    Server.extractAppNameFromCSR C (santitizeString raw) s6 = (Ok appName, s7)
    /\ uuid_v4 C (world s7) = (deviceId, w8).
Proof.
  intros Hmedium. unfold Server.processCertificateSigningRequest.
  rewrite Hmedium.
  unfold Common.reportPlatformFailures, Common.uuid, ask_rec, bind, ret, throw,
    await.
  intros H. run_folded; try discriminate.
  all: injection H as <- <-; eauto 10.
Qed.

(** C6 (amended). The server provider resolves the returned device id by
    medium. Under FS_ACCESS it resolves by platform, after the app name was
    extracted from the request: for Android the id is that of a device adb
    lists whose own copy of the request, pulled back from the app's
    directory, is the request once both are sanitized; for iOS it is the
    simulator the path names, or a target idb lists whose pulled-back copy
    is the request in the same sense; for MacOS it is the empty string and
    for any other platform "unknown". Under every other medium, WWW and
    NONE alike, the id is the answer of the uuid generator; and over WWW no
    device bridge is called during the whole exchange, whether it succeeds
    or not. The legacy provider ignores the medium and always resolves by
    platform, locating the device in the same way. *)
Theorem device_id_by_medium_and_platform
  (C : Collab) (this : Server.CertificateProvider)
  (raw os appDirectory : jsstring) (s : St C) :
  let run medium :=
    Server.processCertificateSigningRequest C this raw os appDirectory medium s in
  let generated (deviceId : jsstring) : Prop :=
    exists appName s6 s7 w8,
      Server.extractAppNameFromCSR C (santitizeString raw) s6 = (Ok appName, s7)
      /\ uuid_v4 C (world s7) = (deviceId, w8) in
  (forall deviceId s',
      run Server.FS_ACCESS = (Ok deviceId, s') ->
      exists appName s6 s7,
        Server.extractAppNameFromCSR C (santitizeString raw) s6 = (Ok appName, s7)
        /\ located C (serverTargets this) (serverPull C this)
             os appName appDirectory raw deviceId (world s7))
  /\ (forallb (fun e => negb (isDeviceEvent e))
        (events_since s (snd (run Server.WWW))) = true
      /\ forall deviceId,
           fst (run Server.WWW) = Ok deviceId ->
           In (EvUuid deviceId) (events_since s (snd (run Server.WWW)))
           /\ generated deviceId)
  /\ (forall deviceId s',
        run Server.NONE = (Ok deviceId, s') ->
        (exists tr, trace s' = tr ++ [EvUuid deviceId]) /\ generated deviceId)
  /\ (forall (legacy : Legacy.CertificateProvider)
             (lmedium : Legacy.CertificateExchangeMedium),
         Legacy.processCertificateSigningRequest C legacy raw os appDirectory lmedium s
         = Legacy.processCertificateSigningRequest C legacy raw os appDirectory
             Legacy.FS_ACCESS s
         /\ forall lid ls',
             Legacy.processCertificateSigningRequest C legacy raw os appDirectory
               lmedium s = (Ok lid, ls') ->
             exists appName s6 s7,
               Legacy.extractAppNameFromCSR C (santitizeString raw) s6
               = (Ok appName, s7)
               /\ located C None (legacyPull C legacy)
                    os appName appDirectory raw lid (world s7)).
Proof.
  intros run generated. subst run generated. cbv beta.
  split; [|split; [|split]].
  - intros deviceId s' Hrun.
    destruct (processCertificateSigningRequest_resolves C this raw os appDirectory
                deviceId s s' Hrun) as (appName & s6 & s7 & Hname & Hid).
    exists appName, s6, s7. split; [exact Hname|].
    apply located_sanitized.
    exact (getTargetDeviceId_locates C _ _ _ _
             (getTargetAndroidDeviceId_locates C this)
             (getTargetiOSDeviceId_locates C this)
             os appName appDirectory _ deviceId s7 s' Hid).
  - pose proof (processCertificateSigningRequest_WWW C this raw os appDirectory s) as H.
    destruct (Server.processCertificateSigningRequest C this raw os appDirectory
                Server.WWW s) as [r s'] eqn:Hrun.
    destruct H as (Hquiet & Huuid & _). cbn [fst snd].
    split; [exact Hquiet|]. intros deviceId ->. split; [now apply Huuid|].
    exact (processCertificateSigningRequest_generates C this raw os appDirectory
             deviceId Server.WWW s s' eq_refl Hrun).
  - intros deviceId s' Hrun. split.
    + exact (processCertificateSigningRequest_NONE C this raw os appDirectory
               deviceId s s' Hrun).
    + exact (processCertificateSigningRequest_generates C this raw os appDirectory
               deviceId Server.NONE s s' eq_refl Hrun).
  - intros legacy lmedium. split; [reflexivity|].
    intros lid ls' Hrun.
    destruct (legacy_processCertificateSigningRequest_resolves C legacy raw os
                appDirectory lid lmedium s ls' Hrun)
      as (appName & s6 & s7 & Hname & Hid).
    exists appName, s6, s7. split; [exact Hname|].
    apply located_sanitized.
    exact (getTargetDeviceId_locates C _ _ _ _
             (legacy_getTargetAndroidDeviceId_locates C legacy)
             (legacy_getTargetiOSDeviceId_locates C legacy)
             os appName appDirectory _ lid s7 ls' Hid).
Qed.

Lemma device_id_by_medium_and_platform_witness :
  let C := Lab.collab in
  let s := Lab.start Bench.matchAndOther in
  fst (Server.processCertificateSigningRequest C Lab.server Lab.csr0 (js "Android")
         Bench.appDirectory Server.FS_ACCESS s) = Ok (js "A")
  /\ exists appName s6 s7,
       Server.extractAppNameFromCSR C (santitizeString Lab.csr0) s6 = (Ok appName, s7)
       /\ locatedOnAndroid C appName Bench.appDirectory Lab.csr0 (js "A") (world s7).
Proof.
  intros C s.
  pose (run := Server.processCertificateSigningRequest C Lab.server Lab.csr0
                 (js "Android") Bench.appDirectory Server.FS_ACCESS s).
  assert (Hrun : run = (Ok (js "A"), snd run)) by (vm_compute; reflexivity).
  split; [exact (f_equal fst Hrun)|].
  exact (proj1 (device_id_by_medium_and_platform C Lab.server Lab.csr0
                  (js "Android") Bench.appDirectory s) (js "A") (snd run) Hrun).
Defined.

(** C6, as stated, fails: with no medium (NONE) a platform that the resolver
    does not know gets a fresh uuid when its certificates can be written
    ("windows"), or the exchange is rejected as unsupported ("Linux"), and
    never a placeholder; and the legacy provider enumerates the devices over
    the WWW medium too. *)
Lemma placeholder_is_not_chosen_by_missing_medium :
  let s := Lab.start Lab.w0 in
  fst (Server.processCertificateSigningRequest Lab.collab Lab.server Lab.csr0
         (js "windows") (js "C:/sonar/") Server.NONE s)
    = Ok (js "uuid-f")
  /\ fst (Server.processCertificateSigningRequest Lab.collab Lab.server Lab.csr0
            (js "Linux") (js "/home/u/sonar/") Server.NONE s)
    = Err (UnsupportedDeviceOS (js "Linux"))
  /\ In EvAdbListDevices
       (trace (snd (Legacy.processCertificateSigningRequest Lab.collab Lab.legacy
                      Lab.csr0 (js "Android") (js "/data/data/com.example.app/")
                      Legacy.WWW s))).
Proof.
  intros s. split; [vm_compute; reflexivity|].
  split; [vm_compute; reflexivity|].
  vm_compute. auto 20.
Qed.
